(** * Payment coordination of the Unicity merch server

    A shallow embedding of [order-service.ts], [catalog.ts], the tool
    handlers [place_order] / [confirm_order] and the key cache of
    [index.ts] and of the two versions of [nostr-service.ts], with the
    properties of the payment coordination engine stated over it.

    Conventions of the embedding.
    - A JavaScript [Map] is an insertion-ordered association list with
      unique keys ([JSMap]): iteration order is the order of first
      insertion, [set] on a present key keeps its position.
    - [bigint] is [Z].  A [number] that the code only uses as an integer
      (the quantity of a stored order, timestamps) is [Z] as well; the
      quantity handed to [createOrder] or to the schema of [place_order]
      is a [Number], which may fail to be an integer.
    - A promise is a cell of a promise store; the [resolve] functions that
      the code passes around are defunctionalised ([Resolver]).
    - An [async] function is split at its [await]s: every piece that runs
      without interruption is one state transformer, and the microtask
      queue (promise reactions and the continuations of [then]) runs
      after each piece, first in first out.
    - Where the characters of a string matter (cleaning an id, printing an
      amount) a character is a UTF-16 code unit below 256. *)

From Stdlib Require Import ZArith Ascii String List Bool Lia.
From stdpp Require Import base list strings.

Local Open Scope string_scope.
Local Open Scope Z_scope.
Local Open Scope list_scope.

(** ** JavaScript [Map] with string keys *)

Module JSMap.
Section Ops.
Context {V : Type}.

Definition t := list (string * V).

Definition empty : t := [].

Fixpoint get (k : string) (m : t) : option V :=
  match m with
  | [] => None
  | (k', v) :: m' => if String.eqb k' k then Some v else get k m'
  end.

Definition has (k : string) (m : t) : bool :=
  match get k m with Some _ => true | None => false end.

(** [set] overwrites in place when the key is present and appends
    otherwise, which is what gives a [Map] its iteration order. *)
Fixpoint set (k : string) (v : V) (m : t) : t :=
  match m with
  | [] => [(k, v)]
  | (k', v') :: m' =>
      if String.eqb k' k then (k, v) :: m' else (k', v') :: set k v m'
  end.

Fixpoint delete (k : string) (m : t) : t :=
  match m with
  | [] => []
  | (k', v') :: m' =>
      if String.eqb k' k then delete k m' else (k', v') :: delete k m'
  end.

Definition keys (m : t) : list string := map fst m.

Definition values (m : t) : list V := map snd m.

Definition size (m : t) : nat := length m.

(** [for (const [key, p] of m) if (P p) { ...; break }] *)
Fixpoint find_first (P : V -> bool) (m : t) : option (string * V) :=
  match m with
  | [] => None
  | (k, v) :: m' => if P v then Some (k, v) else find_first P m'
  end.

End Ops.
Arguments t : clear implicits.
End JSMap.

(** ** [types.ts] *)

Inductive ProductCategory := t_shirt | mug | hoodie | cap.

Inductive TShirtSize := Size_S | Size_M | Size_L | Size_XL | Size_XXL.

Definition TShirtSize_eqb (a b : TShirtSize) : bool :=
  match a, b with
  | Size_S, Size_S | Size_M, Size_M | Size_L, Size_L
  | Size_XL, Size_XL | Size_XXL, Size_XXL => true
  | _, _ => false
  end.

Module Product.
Record t := mk {
  id : string;
  name : string;
  description : string;
  category : ProductCategory;
  price : Z;                          (* bigint, in units of 10^-18 UCT *)
  sizes : option (list TShirtSize);   (* sizes?: TShirtSize[] *)
  image : string;
  inStock : bool
}.
End Product.

Inductive OrderStatus := pending_payment | paid | shipped | delivered.

Module Order.
Record t := mk {
  orderId : string;
  unicityId : string;
  productId : string;
  size : option TShirtSize;
  quantity : Z;
  totalPrice : Z;
  status : OrderStatus;
  createdAt : Z;
  paidAt : option Z
}.

Definition with_paid (o : t) (now : Z) : t :=
  mk (orderId o) (unicityId o) (productId o) (size o) (quantity o)
     (totalPrice o) paid (createdAt o) (Some now).

Definition with_status (o : t) (s : OrderStatus) : t :=
  mk (orderId o) (unicityId o) (productId o) (size o) (quantity o)
     (totalPrice o) s (createdAt o) (paidAt o).
End Order.

(** ** [catalog.ts] *)

Definition UCT : Z := 1000000000000000000.

Definition tshirt_unicity : Product.t :=
  Product.mk "tshirt-unicity" "Unicity T-Shirt"
    "Premium cotton t-shirt with Unicity branding" t_shirt (25 * UCT)
    (Some [Size_S; Size_M; Size_L; Size_XL; Size_XXL])
    "unicity-tshirt1.jpeg" true.

Definition mug_white : Product.t :=
  Product.mk "mug-white" "Unicity White Mug"
    "Ceramic mug with Unicity logo, 350ml" mug (15 * UCT) None
    "unicity_mug1.jpeg" true.

Definition mug_black : Product.t :=
  Product.mk "mug-black" "Unicity Black Mug"
    "Black ceramic mug with Unicity branding, 350ml" mug (15 * UCT) None
    "unicity_mug2.jpeg" true.

Definition PRODUCTS : JSMap.t Product.t :=
  [("tshirt-unicity", tshirt_unicity); ("mug-white", mug_white);
   ("mug-black", mug_black)].

(** ** [order-service.ts] *)

(** A JavaScript [number] as far as [BigInt] and the schema of
    [place_order] tell: an integer, or a number that is not one (a
    fraction, [NaN], an infinity). *)
Inductive Number := Integer (n : Z) | NotInteger.

Module OrderService.

Record t := mk {
  orders : JSMap.t Order.t;
  paymentToOrder : JSMap.t string
}.

Definition new : t := mk JSMap.empty JSMap.empty.

(** [BigInt(quantity)] of an integral number is that integer. *)
Definition BigInt (n : Z) : Z := n.

(** [createOrder] when [quantity] is an integer, so that
    [BigInt(quantity)] returns; [createOrder_number] below is the function
    on every number.  [fresh] is the value of [randomUUID().slice(0, 8)]
    and [now] the value of [Date.now()]. *)
Definition createOrder (os : t) (unicityId : string) (product : Product.t)
    (quantity : Z) (size : option TShirtSize) (fresh : string) (now : Z)
    : t * Order.t :=
  let order :=
    Order.mk fresh unicityId (Product.id product) size quantity
      (Product.price product * BigInt quantity) pending_payment now None in
  (mk (JSMap.set fresh order (orders os)) (paymentToOrder os), order).

(** [BigInt(x)] for a number [x]; [None] is the [RangeError] it throws
    when [x] is not an integer. *)
Definition BigInt_number (x : Number) : option Z :=
  match x with
  | Integer n => Some n
  | NotInteger => None
  end.

(** [createOrder] for any number [quantity].  The order literal is
    evaluated before [this.orders.set], so the [RangeError] of
    [BigInt(quantity)] leaves the service as it was; [None] is that
    exception.  [createOrder] above is the case of an integer, the only
    one that passes the schema of [place_order]. *)
Definition createOrder_number (os : t) (unicityId : string)
    (product : Product.t) (quantity : Number) (size : option TShirtSize)
    (fresh : string) (now : Z) : option (t * Order.t) :=
  match quantity, BigInt_number quantity with
  | Integer n, Some b =>
      let order :=
        Order.mk fresh unicityId (Product.id product) size n
          (Product.price product * b) pending_payment now None in
      Some (mk (JSMap.set fresh order (orders os)) (paymentToOrder os), order)
  | _, _ => None
  end.

Definition getOrder (os : t) (orderId : string) : option Order.t :=
  JSMap.get orderId (orders os).

Definition getOrdersByUser (os : t) (unicityId : string) : list Order.t :=
  List.filter (fun o => String.eqb (Order.unicityId o) unicityId)
    (JSMap.values (orders os)).

Definition getPendingOrderForPayment (os : t) (eventId : string)
    : option Order.t :=
  match JSMap.get eventId (paymentToOrder os) with
  | Some orderId => if String.eqb orderId "" then None
                    else JSMap.get orderId (orders os)
  | None => None
  end.

Definition linkPaymentToOrder (os : t) (eventId orderId : string) : t :=
  mk (orders os) (JSMap.set eventId orderId (paymentToOrder os)).

(** [markAsPaid] assigns to the order object held by the map; the map keeps
    the object at its position. *)
Definition markAsPaid (os : t) (orderId : string) (now : Z) : t :=
  match JSMap.get orderId (orders os) with
  | Some order =>
      mk (JSMap.set orderId (Order.with_paid order now) (orders os))
         (paymentToOrder os)
  | None => os
  end.

Definition markAsShipped (os : t) (orderId : string) : t :=
  match JSMap.get orderId (orders os) with
  | Some order =>
      match Order.status order with
      | paid =>
          mk (JSMap.set orderId (Order.with_status order shipped) (orders os))
             (paymentToOrder os)
      | _ => os
      end
  | None => os
  end.

Definition statusOf (os : t) (orderId : string) : option OrderStatus :=
  option_map Order.status (getOrder os orderId).

End OrderService.

(** ** Promises, resolve callbacks and the microtask queue *)

(** The two shapes of [resolve] function that the service stores in
    [PendingPayment.resolve] or captures in a timer closure:
    - [ResolveOf p]: the [resolve] argument of the executor of promise [p];
    - [Chained original p]: the wrapper installed by
      [waitForExistingPayment],
      [(success) => { originalResolve(success); resolve(success); }]. *)
Inductive Resolver :=
| ResolveOf (p : nat)
| Chained (original : Resolver) (p : nat).

(** A reaction on a promise, on behalf of the caller [waiter].  With
    [clears = None] it is the continuation of the caller's [await] on the
    promise.  With [clears = Some t] it is the callback that
    [waitForPayment] gives to [paymentPromise.then]: it clears timer [t]
    and hands the result to the promise that [then] returned, which the
    caller awaits. *)
Record Reaction := mkReaction {
  waiter : nat;
  clears : option nat
}.

Record Promise := mkPromise {
  value : option bool;
  reactions : list Reaction
}.

Module PendingPayment.
(** [resolve] is the only field assigned after construction; it holds the
    index of a cell of the state's [cells] store, so that the assignment
    made through one alias of the object is seen through every other. *)
Record t := mk {
  eventId : string;
  unicityId : string;
  userPubkey : string;
  orderId : string;
  amount : Z;
  coinId : string;
  createdAt : Z;
  resolve : nat
}.
End PendingPayment.

Record Config := mkConfig {
  nametag : string;
  coinId : string;
  paymentTimeoutSeconds : Z
}.

(** The closure given to [setTimeout]: it captures [eventId] and the
    [resolve] function of the promise created at registration. *)
Record Timer := mkTimer {
  timer_eventId : string;
  timer_resolve : Resolver;
  timer_delay : Z
}.

(** What [TokenTransferProtocol] reports about an inbound event, and its
    [created_at]: seconds since the epoch, [None] when it is not a finite
    number. *)
Record Event := mkEvent {
  isTokenTransfer : bool;
  getSender : string;
  getReplyToEventId : option string;
  created_at : option Z
}.

(** An outbound [client.sendPaymentRequest(userPubkey, {...})]. *)
Record Outbound := mkOutbound {
  out_to : string;
  out_amount : Z;
  out_coinId : string;
  out_recipientNametag : string;
  out_message : string
}.

Inductive Stage := AwaitParse | AwaitProcess | Finished.

(** A run of [handleIncomingTransfer] suspended at an [await], with its
    local variables [pendingKey] and [pending]. *)
Record Frame := mkFrame {
  pendingKey : string;
  pending : PendingPayment.t;
  stage : Stage
}.

Record State := mkState {
  client : bool;                      (* client and keyManager are set *)
  config : Config;
  orderService : OrderService.t;
  pendingPayments : JSMap.t PendingPayment.t;
  cells : list Resolver;
  promises : list Promise;
  jobs : list (Reaction * bool);      (* microtask queue *)
  observed : list (nat * bool);      (* what each resumed waiter was given *)
  timers : list (option Timer);       (* [None]: fired or cleared *)
  outbox : list Outbound;
  frames : list Frame
}.

Definition init (cfg : Config) : State :=
  mkState true cfg OrderService.new JSMap.empty [] [] [] [] [] [] [].

Definition with_orderService (st : State) (os : OrderService.t) : State :=
  mkState (client st) (config st) os (pendingPayments st) (cells st)
    (promises st) (jobs st) (observed st) (timers st) (outbox st) (frames st).

Definition with_pendingPayments (st : State) (m : JSMap.t PendingPayment.t)
    : State :=
  mkState (client st) (config st) (orderService st) m (cells st)
    (promises st) (jobs st) (observed st) (timers st) (outbox st) (frames st).

Definition with_cells (st : State) (cs : list Resolver) : State :=
  mkState (client st) (config st) (orderService st) (pendingPayments st) cs
    (promises st) (jobs st) (observed st) (timers st) (outbox st) (frames st).

Definition with_promises (st : State) (ps : list Promise)
    (js : list (Reaction * bool)) : State :=
  mkState (client st) (config st) (orderService st) (pendingPayments st)
    (cells st) ps js (observed st) (timers st) (outbox st) (frames st).

Definition with_timers (st : State) (ts : list (option Timer)) : State :=
  mkState (client st) (config st) (orderService st) (pendingPayments st)
    (cells st) (promises st) (jobs st) (observed st) ts (outbox st)
    (frames st).

Definition with_outbox (st : State) (o : list Outbound) : State :=
  mkState (client st) (config st) (orderService st) (pendingPayments st)
    (cells st) (promises st) (jobs st) (observed st) (timers st) o
    (frames st).

Definition with_frames (st : State) (fs : list Frame) : State :=
  mkState (client st) (config st) (orderService st) (pendingPayments st)
    (cells st) (promises st) (jobs st) (observed st) (timers st)
    (outbox st) fs.

(** [new Promise(...)]: a fresh pending promise without reactions. *)
Definition new_promise (st : State) : State * nat :=
  (with_promises st (promises st ++ [mkPromise None []]) (jobs st),
   length (promises st)).

(** Calling the [resolve] function of promise [p]: the first call fixes the
    value and queues one job per registered reaction; later calls do
    nothing. *)
Definition resolve_promise (st : State) (p : nat) (b : bool) : State :=
  match promises st !! p with
  | Some (mkPromise None rs) =>
      with_promises st (<[p := mkPromise (Some b) []]> (promises st))
        (jobs st ++ map (fun r => (r, b)) rs)
  | _ => st
  end.

Fixpoint call_resolver (st : State) (r : Resolver) (b : bool) : State :=
  match r with
  | ResolveOf p => resolve_promise st p b
  | Chained original p => resolve_promise (call_resolver st original b) p b
  end.

(** [pending.resolve(b)]: reads the field at the time of the call. *)
Definition call_resolve (st : State) (pp : PendingPayment.t) (b : bool)
    : State :=
  match cells st !! PendingPayment.resolve pp with
  | Some r => call_resolver st r b
  | None => st
  end.

(** [promise.then(reaction)] / [await promise]. *)
Definition then_ (st : State) (p : nat) (r : Reaction) : State :=
  match promises st !! p with
  | Some (mkPromise (Some b) _) =>
      with_promises st (promises st) (jobs st ++ [(r, b)])
  | Some (mkPromise None rs) =>
      with_promises st (<[p := mkPromise None (rs ++ [r])]> (promises st))
        (jobs st)
  | None => st
  end.

Definition clearTimeout (ts : list (option Timer)) (t : nat)
    : list (option Timer) := <[t := None]> ts.

(** One microtask.  The continuation of an [await] resumes its caller
    with the result.  The callback of [paymentPromise.then] clears the
    timer and returns the result, which settles the promise that [then]
    returned; the caller's [await] is the only reaction on that promise,
    so its continuation joins the end of the queue. *)
Definition run_job (st : State) (j : Reaction * bool) : State :=
  match clears (fst j) with
  | Some t =>
      mkState (client st) (config st) (orderService st) (pendingPayments st)
        (cells st) (promises st)
        (jobs st ++ [(mkReaction (waiter (fst j)) None, snd j)])
        (observed st) (clearTimeout (timers st) t) (outbox st) (frames st)
  | None =>
      mkState (client st) (config st) (orderService st) (pendingPayments st)
        (cells st) (promises st) (jobs st)
        (observed st ++ [(waiter (fst j), snd j)]) (timers st) (outbox st)
        (frames st)
  end.

(** The jobs of the queue run in order; those they queue are collected. *)
Definition run_queue (st : State) : State :=
  fold_left run_job (jobs st) (with_promises st (promises st) []).

(** The microtask checkpoint that follows every piece of synchronous
    code: jobs run, first in first out, until the queue is empty.  A job
    queued meanwhile is the continuation of an [await] and queues none, so
    the queue is empty after the second round. *)
Definition drain (st : State) : State := run_queue (run_queue st).

(** ** [nostr-service.ts]: matching an inbound transfer *)

(** JavaScript truthiness of a string: only the empty string is falsy. *)
Definition truthy (s : string) : bool := negb (String.eqb s "").

Definition startsWith (s pre : string) : bool := String.prefix pre s.

Definition includes (s sub : string) : bool :=
  match String.index 0%nat sub s with Some _ => true | None => false end.

(** [if (replyToEventId) { pending = this.pendingPayments.get(...) ... }] *)
Definition matchByReplyTo (st : State) (ev : Event)
    : option (string * PendingPayment.t) :=
  match getReplyToEventId ev with
  | Some replyToEventId =>
      if truthy replyToEventId then
        match JSMap.get replyToEventId (pendingPayments st) with
        | Some p => Some (replyToEventId, p)
        | None => None
        end
      else None
  | None => None
  end.

(** [for (const [key, p] of this.pendingPayments)
       if (p.userPubkey === senderPubkey) { ...; break; }] *)
Definition matchBySender (st : State) (senderPubkey : string)
    : option (string * PendingPayment.t) :=
  JSMap.find_first
    (fun p => String.eqb (PendingPayment.userPubkey p) senderPubkey)
    (pendingPayments st).

(** The value of [(pendingKey, pending)] when the handler passes
    [if (!pending || !pendingKey) return;], [None] when it returns there. *)
Definition correlate (st : State) (ev : Event)
    : option (string * PendingPayment.t) :=
  let found :=
    match matchByReplyTo st ev with
    | Some kp => Some kp
    | None => matchBySender st (getSender ev)
    end in
  match found with
  | Some (k, p) => if truthy k then Some (k, p) else None
  | None => None
  end.

(** [handleIncomingTransfer] from its [try] to
    [await parseTokenTransfer(...)]; in the version that registers in
    [waitForPayment] this is the beginning of the handler. *)
Definition handle_begin (st : State) (ev : Event) : State :=
  if negb (client st) then st
  else if negb (isTokenTransfer ev) then st
  else match correlate st ev with
       | Some (k, p) => with_frames st (frames st ++ [mkFrame k p AwaitParse])
       | None => st
       end.

(** [new Date(event.created_at * 1000).toISOString()] returns: the time
    value is a number of at most 8.64e15 milliseconds either side of the
    epoch.  Otherwise it throws a [RangeError]. *)
Definition date_is_valid (ev : Event) : bool :=
  match created_at ev with
  | Some seconds => Z.abs (seconds * 1000) <=? 8640000000000000
  | None => false
  end.

(** The beginning of [handleIncomingTransfer] in the version that
    registers in [sendPaymentRequest]: before its [try] it logs the event
    with its date.  When that throws, the handler is left at once (the
    subscription's [catch] logs the error) and nothing has happened. *)
Definition handle_entry (st : State) (ev : Event) : State :=
  if negb (client st) then st
  else if negb (date_is_valid ev) then st
  else handle_begin st ev.

Definition set_stage (st : State) (i : nat) (f : Frame) (s : Stage) : State :=
  with_frames st (<[i := mkFrame (pendingKey f) (pending f) s]> (frames st)).

(** [pending.resolve(b); this.pendingPayments.delete(pendingKey);] *)
Definition resolve_then_delete (st : State) (f : Frame) (b : bool) : State :=
  let st1 := call_resolve st (pending f) b in
  with_pendingPayments st1 (JSMap.delete (pendingKey f) (pendingPayments st1)).

(** From the return of [parseTokenTransfer] to
    [await this.processTokenTransfer(payloadObj)].  [tokenJson = None]: the
    call threw (caught by the outer [catch], which only logs); [json_ok]
    tells whether [JSON.parse(tokenJson)] returns. *)
Definition handle_parsed (st : State) (i : nat) (tokenJson : option string)
    (json_ok : bool) : State :=
  match frames st !! i with
  | Some f =>
      match stage f with
      | AwaitParse =>
          match tokenJson with
          | None => set_stage st i f Finished
          | Some s =>
              if negb (startsWith s "{") || negb (includes s "sourceToken")
              then set_stage (resolve_then_delete st f false) i f Finished
              else if negb json_ok
              then set_stage (resolve_then_delete st f false) i f Finished
              else set_stage st i f AwaitProcess
          end
      | _ => st
      end
  | None => st
  end.

(** From the return of [processTokenTransfer] to the end of the handler. *)
Definition handle_processed (st : State) (i : nat) (success : bool) (now : Z)
    : State :=
  match frames st !! i with
  | Some f =>
      match stage f with
      | AwaitProcess =>
          let st1 :=
            if success then
              call_resolve
                (with_orderService st
                   (OrderService.markAsPaid (orderService st)
                      (PendingPayment.orderId (pending f)) now))
                (pending f) true
            else call_resolve st (pending f) false in
          set_stage
            (with_pendingPayments st1
               (JSMap.delete (pendingKey f) (pendingPayments st1)))
            i f Finished
      | _ => st
      end
  | None => st
  end.

(** ** [nostr-service.ts]: issuing a payment request (eager version) *)

Record Handle := mkHandle {
  h_eventId : string;
  h_promise : nat;
  h_timer : nat
}.

(** [sendPaymentRequest] up to [await this.client.sendPaymentRequest(...)];
    [None] when it throws ("Nostr client not connected"). *)
Definition sendPaymentRequest_call (st : State) (userPubkey : string)
    (amount : Z) (message : string) : option State :=
  if client st then
    Some (with_outbox st
            (outbox st ++
             [mkOutbound userPubkey amount (coinId (config st))
                (nametag (config st)) message]))
  else None.

(** The rest of [sendPaymentRequest], run when the SDK has returned
    [eventId]; [now] is [Date.now()]. *)
Definition sendPaymentRequest_resume (st : State)
    (unicityId userPubkey orderId : string) (amount : Z) (eventId : string)
    (now : Z) : State * Handle :=
  let st1 :=
    with_orderService st
      (OrderService.linkPaymentToOrder (orderService st) eventId orderId) in
  let '(st2, p) := new_promise st1 in
  let c := length (cells st2) in
  let st3 := with_cells st2 (cells st2 ++ [ResolveOf p]) in
  let pending :=
    PendingPayment.mk eventId unicityId userPubkey orderId amount
      (coinId (config st)) now c in
  let st4 :=
    with_pendingPayments st3 (JSMap.set eventId pending (pendingPayments st3)) in
  let t := length (timers st4) in
  let st5 :=
    with_timers st4
      (timers st4 ++
       [Some (mkTimer eventId (ResolveOf p)
                (paymentTimeoutSeconds (config st) * 1000))]) in
  (st5, mkHandle eventId p t).

Definition sendPaymentRequest (st : State)
    (unicityId userPubkey orderId : string) (amount : Z)
    (message eventId : string) (now : Z) : option (State * Handle) :=
  match sendPaymentRequest_call st userPubkey amount message with
  | Some st1 =>
      Some (sendPaymentRequest_resume st1 unicityId userPubkey orderId amount
              eventId now)
  | None => None
  end.

(** [waitForPayment()] and the caller's [await] on its result,
    [paymentPromise.then((result) => { clearTimeout(timeoutId);
    return result; })]: the callback is registered on the payment promise
    and the caller [w] awaits the promise that [then] returns, so [w]
    resumes one microtask after the callback has run. *)
Definition waitForPayment (st : State) (h : Handle) (w : nat) : State :=
  then_ st (h_promise h) (mkReaction w (Some (h_timer h))).

(** The timer callback. *)
Definition fireTimeout (st : State) (t : nat) : State :=
  match timers st !! t with
  | Some (Some tm) =>
      let st1 := with_timers st (<[t := None]> (timers st)) in
      if JSMap.has (timer_eventId tm) (pendingPayments st1) then
        call_resolver
          (with_pendingPayments st1
             (JSMap.delete (timer_eventId tm) (pendingPayments st1)))
          (timer_resolve tm) false
      else st1
  | _ => st
  end.

Definition getPendingPaymentForOrder (st : State) (orderId : string)
    : option string :=
  option_map fst
    (JSMap.find_first
       (fun p => String.eqb (PendingPayment.orderId p) orderId)
       (pendingPayments st)).

(** [waitForExistingPayment]: [None] is the [null] result; otherwise the
    new promise, whose executor has replaced [pending.resolve]. *)
Definition waitForExistingPayment (st : State) (eventId : string)
    : option (State * nat) :=
  match JSMap.get eventId (pendingPayments st) with
  | None => None
  | Some pending =>
      let '(st1, q) := new_promise st in
      match cells st1 !! PendingPayment.resolve pending with
      | Some originalResolve =>
          Some (with_cells st1
                  (<[PendingPayment.resolve pending :=
                       Chained originalResolve q]> (cells st1)), q)
      | None => Some (st1, q)
      end
  end.

(** ** [nostr-service.ts], the version that registers in [waitForPayment] *)

Module Lazy.

(** The variables captured by the [waitForPayment] closure. *)
Record Handle := mkHandle {
  h_eventId : string;
  h_unicityId : string;
  h_userPubkey : string;
  h_orderId : string;
  h_amount : Z
}.

Definition sendPaymentRequest_resume (st : State)
    (unicityId userPubkey orderId : string) (amount : Z) (eventId : string)
    : State * Handle :=
  (with_orderService st
     (OrderService.linkPaymentToOrder (orderService st) eventId orderId),
   mkHandle eventId unicityId userPubkey orderId amount).

Definition sendPaymentRequest (st : State)
    (unicityId userPubkey orderId : string) (amount : Z)
    (message eventId : string) : option (State * Handle) :=
  match sendPaymentRequest_call st userPubkey amount message with
  | Some st1 =>
      Some (sendPaymentRequest_resume st1 unicityId userPubkey orderId amount
              eventId)
  | None => None
  end.

(** [waitForPayment()]: the executor of the new promise registers the
    pending payment and arms the timer; the caller [w] then awaits it. *)
Definition waitForPayment (st : State) (h : Handle) (now : Z) (w : nat)
    : State :=
  let '(st2, p) := new_promise st in
  let c := length (cells st2) in
  let st3 := with_cells st2 (cells st2 ++ [ResolveOf p]) in
  let pending :=
    PendingPayment.mk (h_eventId h) (h_unicityId h) (h_userPubkey h)
      (h_orderId h) (h_amount h) (coinId (config st)) now c in
  let st4 :=
    with_pendingPayments st3
      (JSMap.set (h_eventId h) pending (pendingPayments st3)) in
  let st5 :=
    with_timers st4
      (timers st4 ++
       [Some (mkTimer (h_eventId h) (ResolveOf p)
                (paymentTimeoutSeconds (config st) * 1000))]) in
  then_ st5 p (mkReaction w None).

End Lazy.

(** ** [index.ts]: the [place_order] and [confirm_order] tools *)

Inductive ToolError :=
| InvalidArguments      (* rejected by the zod schema of the tool *)
| UnknownUnicityId
| ProductNotFound
| OutOfStock
| SizeRequired
| SizeNotAvailable
| OrderNotFound
| NotYourOrder
| NotConnected          (* sendPaymentRequest threw *)
| PaymentTimeout.

(** [quantity: z.number().int().min(1).max(10).default(1)] *)
Definition parse_quantity (quantity : option Number) : option Z :=
  match quantity with
  | None => Some 1
  | Some (Integer n) => if (1 <=? n) && (n <=? 10) then Some n else None
  | Some NotInteger => None
  end.

(** The keys that every object literal inherits from [Object.prototype]. *)
Definition inherited_keys : list string :=
  ["constructor"; "__defineGetter__"; "__defineSetter__"; "hasOwnProperty";
   "__lookupGetter__"; "__lookupSetter__"; "isPrototypeOf";
   "propertyIsEnumerable"; "toString"; "valueOf"; "__proto__";
   "toLocaleString"].

(** [PRODUCTS[product_id]]: a product of the catalog, a member inherited
    from [Object.prototype] (a function or an object: truthy, and without
    an [inStock]), or [undefined]. *)
Inductive Looked := OwnProduct (product : Product.t) | Inherited | Undefined.

Definition lookup_product (product_id : string) : Looked :=
  match JSMap.get product_id PRODUCTS with
  | Some product => OwnProduct product
  | None =>
      if existsb (String.eqb product_id) inherited_keys then Inherited
      else Undefined
  end.

Definition sizes_includes (l : list TShirtSize) (s : TShirtSize) : bool :=
  existsb (TShirtSize_eqb s) l.

(** [place_order] from the return of [resolvePubkey] (its result is
    [pubkey]) to the call of [orderService.createOrder].  [unicityId] is
    the value of [cleanUnicityId(unicity_id)]. *)
Definition place_order_create (st : State) (unicityId product_id : string)
    (quantity : option Number) (size : option TShirtSize)
    (pubkey : option string) (fresh : string) (now : Z)
    : ToolError + (State * Order.t * Product.t * string) :=
  match parse_quantity quantity with
  | None => inl InvalidArguments
  | Some q =>
      match pubkey with
      | None => inl UnknownUnicityId
      | Some pk =>
          if negb (truthy pk) then inl UnknownUnicityId
          else
          match lookup_product product_id with
          | Undefined => inl ProductNotFound
          | Inherited => inl OutOfStock
          | OwnProduct product =>
              if negb (Product.inStock product) then inl OutOfStock
              else
                match Product.sizes product, size with
                | Some _, None => inl SizeRequired
                | Some l, Some s =>
                    if negb (sizes_includes l s) then inl SizeNotAvailable
                    else
                      let '(os, order) :=
                        OrderService.createOrder (orderService st) unicityId
                          product q size fresh now in
                      inr (with_orderService st os, order, product, pk)
                | None, _ =>
                    let '(os, order) :=
                      OrderService.createOrder (orderService st) unicityId
                        product q size fresh now in
                    inr (with_orderService st os, order, product, pk)
                end
          end
      end
  end.

(** The whole of [place_order], run without interleaving; [message] is the
    text the handler formats for the wallet, [eventId] what the SDK returns
    for the payment request, [now'] the clock at registration. *)
Definition place_order (st : State) (unicityId product_id : string)
    (quantity : option Number) (size : option TShirtSize)
    (pubkey : option string) (fresh : string) (now : Z)
    (message eventId : string) (now' : Z)
    : State * (ToolError + (Order.t * Handle)) :=
  match place_order_create st unicityId product_id quantity size pubkey
          fresh now with
  | inl e => (st, inl e)
  | inr (st1, order, _, pk) =>
      match sendPaymentRequest st1 unicityId pk (Order.orderId order)
              (Order.totalPrice order) message eventId now' with
      | Some (st2, h) => (st2, inr (order, h))
      | None => (st1, inl NotConnected)
      end
  end.

Inductive ConfirmResult :=
| ConfirmError (e : ToolError)
| ConfirmStatus (s : OrderStatus)   (* already paid, shipped or delivered *)
| ConfirmWaiting (h : Handle).      (* suspended in [await waitForPayment()] *)

(** [confirm_order] up to its [await waitForPayment()], run without
    interleaving; [w] names the suspended call. *)
Definition confirm_order (st : State) (unicityId order_id : string)
    (pubkey : option string) (message eventId : string) (now : Z) (w : nat)
    : State * ConfirmResult :=
  match pubkey with
  | None => (st, ConfirmError UnknownUnicityId)
  | Some pk =>
      if negb (truthy pk) then (st, ConfirmError UnknownUnicityId)
      else
      match OrderService.getOrder (orderService st) order_id with
      | None => (st, ConfirmError OrderNotFound)
      | Some order =>
          if negb (String.eqb (Order.unicityId order) unicityId)
          then (st, ConfirmError NotYourOrder)
          else
            match Order.status order with
            | pending_payment =>
                (* Resend payment request and wait *)
                match sendPaymentRequest st unicityId pk (Order.orderId order)
                        (Order.totalPrice order) message eventId now with
                | Some (st1, h) => (waitForPayment st1 h w, ConfirmWaiting h)
                | None => (st, ConfirmError NotConnected)
                end
            | s => (st, ConfirmStatus s)
            end
      end
  end.

(** What [confirm_order] answers once its [await] has been given [b]. *)
Definition confirm_order_answer (b : bool) : ToolError + OrderStatus :=
  if b then inr paid else inl PaymentTimeout.

(** ** The server as a transition system *)

(** One action is one piece of code that runs to its next [await] (or to
    its end); the arguments that come from outside (SDK results, clock,
    fresh identifiers) are part of the action. *)
Inductive Action :=
| Create (unicityId : string) (product : Product.t) (quantity : Z)
         (size : option TShirtSize) (fresh : string) (now : Z)
| Ship (orderId : string)
| Call (userPubkey : string) (amount : Z) (message : string)
| Resume (unicityId userPubkey orderId : string) (amount : Z)
         (eventId : string) (now : Z)
| Wait (h : Handle) (w : nat)
| Attach (eventId : string) (w : nat)
| Incoming (ev : Event)
| Parsed (frame : nat) (tokenJson : option string) (json_ok : bool)
| Processed (frame : nat) (success : bool) (now : Z)
| Timeout (timer : nat).

Definition block (st : State) (a : Action) : State :=
  match a with
  | Create unicityId product quantity size fresh now =>
      with_orderService st
        (fst (OrderService.createOrder (orderService st) unicityId product
                quantity size fresh now))
  | Ship orderId =>
      with_orderService st
        (OrderService.markAsShipped (orderService st) orderId)
  | Call userPubkey amount message =>
      match sendPaymentRequest_call st userPubkey amount message with
      | Some st1 => st1
      | None => st
      end
  | Resume unicityId userPubkey orderId amount eventId now =>
      fst (sendPaymentRequest_resume st unicityId userPubkey orderId amount
             eventId now)
  | Wait h w => waitForPayment st h w
  | Attach eventId w =>
      match waitForExistingPayment st eventId with
      | Some (st1, q) => then_ st1 q (mkReaction w None)
      | None => st
      end
  | Incoming ev => handle_entry st ev
  | Parsed i tokenJson json_ok => handle_parsed st i tokenJson json_ok
  | Processed i success now => handle_processed st i success now
  | Timeout t => fireTimeout st t
  end.

Definition step (st : State) (a : Action) : State := drain (block st a).

Definition run (st : State) (tr : list Action) : State := fold_left step tr st.

(** The same system with the handler of the version that registers in
    [waitForPayment], which does not look at the date of the event. *)
Definition lazy_block (st : State) (a : Action) : State :=
  match a with
  | Incoming ev => handle_begin st ev
  | _ => block st a
  end.

Definition lazy_step (st : State) (a : Action) : State :=
  drain (lazy_block st a).

Definition lazy_run (st : State) (tr : list Action) : State :=
  fold_left lazy_step tr st.

(** The event identifiers under which a trace registers payments. *)
Fixpoint registrations (tr : list Action) : list string :=
  match tr with
  | [] => []
  | Resume _ _ _ _ eventId _ :: tr' => eventId :: registrations tr'
  | _ :: tr' => registrations tr'
  end.

(** What waiter [w] has been given so far. *)
Definition outcomes (st : State) (w : nat) : list bool :=
  map snd (List.filter (fun o => Nat.eqb (fst o) w) (observed st)).

(** ** Predicates used in the statements *)

(** The inputs the specification of [createOrder] calls valid. *)
Definition valid_order_input (product : Product.t) (quantity : Z)
    (size : option TShirtSize) : bool :=
  (1 <=? quantity) && (quantity <=? 10) &&
  match Product.sizes product, size with
  | Some l, Some s => sizes_includes l s
  | Some _, None => false
  | None, Some _ => false
  | None, None => true
  end.

(** The size check of [place_order]. *)
Definition size_accepted (product : Product.t) (size : option TShirtSize)
    : Prop :=
  match Product.sizes product with
  | Some l => exists s, size = Some s /\ In s l
  | None => True
  end.

(** [st'] differs from [st] at most in the promise store and the
    microtask queue. *)
Definition same_registry (st st' : State) : Prop :=
  client st' = client st /\ config st' = config st /\
  orderService st' = orderService st /\
  pendingPayments st' = pendingPayments st /\
  cells st' = cells st /\ timers st' = timers st /\
  outbox st' = outbox st /\ frames st' = frames st /\
  observed st' = observed st.

(** The handler of an inbound event leaves by
    [if (!pending || !pendingKey) return;] and changes nothing. *)
Definition dropped (st : State) (ev : Event) : Prop :=
  correlate st ev = None /\ handle_entry st ev = st.

(** ** Example states *)

Definition example_config : Config := mkConfig "merch-mcp" "coin" 120.

Definition example_entry1 : PendingPayment.t :=
  PendingPayment.mk "e1" "alice" "pkA" "o1" 15 "coin" 1 0%nat.

Definition example_entry2 : PendingPayment.t :=
  PendingPayment.mk "e2" "alice" "pkA" "o2" 25 "coin" 2 1%nat.

(** Two live requests to one buyer. *)
Definition example_two_requests : State :=
  with_pendingPayments (init example_config)
    [("e1", example_entry1); ("e2", example_entry2)].

Definition example_reply_to_second : Event :=
  mkEvent true "pkA" (Some "e2") (Some 1700000000).

(** One order of two mugs, its payment request sent and registered. *)
Definition example_registered : State :=
  run (init example_config)
    [Create "alice" mug_white 2 None "o1" 1000;
     Call "pkA" (30 * UCT) "Order #o1: 2x Unicity White Mug";
     Resume "alice" "pkA" "o1" (30 * UCT) "e1" 1001].

Definition example_handle : Handle := mkHandle "e1" 0 0.

(** The same with one caller suspended in [waitForPayment], and after the
    timer has fired. *)
Definition example_waiting : State :=
  step example_registered (Wait example_handle 7).

Definition example_timed_out : State := step example_waiting (Timeout 0).

(** The double quote, and a payload that passes the checks of the handler. *)
Definition dq : string := String "034"%char EmptyString.

Definition example_tokenJson : string :=
  ("{" ++ dq ++ "sourceToken" ++ dq ++ ":{}," ++ dq ++ "transferTx" ++ dq
   ++ ":{}}")%string.

(** A transfer of the buyer that answers request [e1]. *)
Definition example_reply : Event :=
  mkEvent true "pkA" (Some "e1") (Some 1700000000).

(** A handler run is suspended in [processTokenTransfer] (which finalizes
    the transfer over the network) when the timer of the request fires; the
    transfer then turns out to be good.  Caller 7 waits through
    [waitForPayment], caller 8 through [waitForExistingPayment]. *)
Definition example_race : State :=
  run example_registered
    [Wait example_handle 7; Attach "e1" 8; Incoming example_reply;
     Parsed 0 (Some example_tokenJson) true; Timeout 0;
     Processed 0 true 121500].

(** No transfer arrives before the timer fires; one arrives afterwards. *)
Definition example_timeout_attached : State :=
  run example_registered
    [Wait example_handle 7; Attach "e1" 8; Timeout 0; Incoming example_reply].

(** Caller 7 waits through [waitForPayment], caller 8 through
    [waitForExistingPayment]; no transfer has arrived when the timer
    fires. *)
Definition example_attached : State :=
  run example_registered [Wait example_handle 7; Attach "e1" 8].

(** The timer fires while a handler run for the request is suspended in
    [processTokenTransfer]; that call then succeeds. *)
Definition example_timeout_in_flight : State :=
  run example_registered
    [Wait example_handle 7; Incoming example_reply;
     Parsed 0 (Some example_tokenJson) true; Timeout 0].

Definition example_paid_after_timeout : State :=
  step example_timeout_in_flight (Processed 0 true 121500).

(** The transfer is handled to its end while both callers wait. *)
Definition example_paid_attached : State :=
  run example_registered
    [Wait example_handle 7; Attach "e1" 8; Incoming example_reply;
     Parsed 0 (Some example_tokenJson) true; Processed 0 true 1500].

(** [place_order] for two mugs, then [confirm_order] for that order while
    the request of [place_order] is still pending. *)
Definition example_placed : State :=
  fst (place_order (init example_config) "alice" "mug-white"
         (Some (Integer 2)) None
         (Some "pkA") "o1" 1000 "Order #o1: 2x Unicity White Mug" "e1" 1001).

Definition example_confirm : State * ConfirmResult :=
  confirm_order example_placed "alice" "o1" (Some "pkA")
    "Order #o1: 2x Unicity White Mug" "e2" 5000 7.

(** The buyer then pays the first of the two requests in the wallet, and
    the timer of the second fires. *)
Definition example_paid_first : State :=
  run (fst example_confirm)
    [Incoming example_reply; Parsed 0 (Some example_tokenJson) true;
     Processed 0 true 6000; Timeout 1].

(** [k] occurs before [k'] in [l]. *)
Definition precedes (k k' : string) (l : list string) : Prop :=
  exists l1 l2 l3, l = l1 ++ k :: l2 ++ k' :: l3.

(** Two requests to one buyer, registered one after the other, and a
    transfer of that buyer that names neither. *)
Definition example_two_registrations : list Action :=
  [Call "pkA" 15 "Order #o1"; Resume "alice" "pkA" "o1" 15 "e1" 1;
   Call "pkA" 25 "Order #o2"; Resume "alice" "pkA" "o2" 25 "e2" 2].

Definition example_unreferenced : Event :=
  mkEvent true "pkA" None (Some 1700000000).

(** ** The two versions of the service side by side *)

(** The actions of the environment: inbound transfers, the returns of the
    SDK calls they await, and timers. *)
Definition env_action (a : Action) : bool :=
  match a with
  | Incoming _ | Parsed _ _ _ | Processed _ _ _ | Timeout _ => true
  | _ => false
  end.

(** One payment request in the eager version: [sendPaymentRequest] resumes
    with [eventId], the actions [before] happen, the caller [w] invokes
    [waitForPayment], the actions [after] happen. *)
Definition eager_session (st : State) (unicityId userPubkey orderId : string)
    (amount : Z) (eventId : string) (now : Z) (w : nat)
    (before after : list Action) : State :=
  let '(st1, h) :=
    sendPaymentRequest_resume st unicityId userPubkey orderId amount eventId
      now in
  run (drain (waitForPayment (run (drain st1) before) h w)) after.

(** The same in the version that registers in [waitForPayment]. *)
Definition lazy_session (st : State) (unicityId userPubkey orderId : string)
    (amount : Z) (eventId : string) (now : Z) (w : nat)
    (before after : list Action) : State :=
  let '(st1, h) :=
    Lazy.sendPaymentRequest_resume st unicityId userPubkey orderId amount
      eventId in
  lazy_run
    (drain (Lazy.waitForPayment (lazy_run (drain st1) before) h now w)) after.

(** The inbound events of a trace carry a date that can be printed. *)
Definition dated (a : Action) : bool :=
  match a with
  | Incoming ev => date_is_valid ev
  | _ => true
  end.

(** The order is created and [sendPaymentRequest] has called the SDK. *)
Definition example_order_only : State :=
  run (init example_config)
    [Create "alice" mug_white 2 None "o1" 1000;
     Call "pkA" (30 * UCT) "Order #o1: 2x Unicity White Mug"].

(** A transfer that answers the request, handled to its end. *)
Definition example_early_transfer : list Action :=
  [Incoming example_reply; Parsed 0 (Some example_tokenJson) true;
   Processed 0 true 1500].

(** The same transfer in an event whose [created_at] is missing. *)
Definition example_undated_reply : Event :=
  mkEvent true "pkA" (Some "e1") None.

Definition example_undated_transfer : list Action :=
  [Incoming example_undated_reply; Parsed 0 (Some example_tokenJson) true;
   Processed 0 true 1500].

(** The promise identifiers a resolve function settles. *)
Fixpoint mentions (p : nat) (r : Resolver) : Prop :=
  match r with
  | ResolveOf q => q = p
  | Chained original q => mentions p original \/ q = p
  end.

Fixpoint bounded (n : nat) (r : Resolver) : Prop :=
  match r with
  | ResolveOf q => (q < n)%nat
  | Chained original q => bounded n original /\ (q < n)%nat
  end.

(** Every stored resolve function settles promises that exist, every
    stored [resolve] field names a cell that exists, and the microtask
    queue is empty (the state is one between two pieces of code). *)
Definition well_formed (st : State) : Prop :=
  (forall i r, cells st !! i = Some r -> bounded (length (promises st)) r) /\
  (forall i tm, timers st !! i = Some (Some tm) ->
                bounded (length (promises st)) (timer_resolve tm)) /\
  (forall k pp, In (k, pp) (pendingPayments st) ->
                (PendingPayment.resolve pp < length (cells st))%nat) /\
  (forall f, In f (frames st) ->
             (PendingPayment.resolve (pending f) < length (cells st))%nat) /\
  jobs st = [].

(** The promise store as a function: what [resolve_promise] and
    [call_resolver] do to the store, and the jobs they queue. *)
Definition settle_one (ps : list Promise) (q : nat) (b : bool)
    : list Promise * list (Reaction * bool) :=
  match ps !! q with
  | Some (mkPromise None rs) =>
      (<[q := mkPromise (Some b) []]> ps, map (fun r => (r, b)) rs)
  | _ => (ps, [])
  end.

Fixpoint settle_all (ps : list Promise) (r : Resolver) (b : bool)
    : list Promise * list (Reaction * bool) :=
  match r with
  | ResolveOf q => settle_one ps q b
  | Chained original q =>
      let '(ps1, js1) := settle_all ps original b in
      let '(ps2, js2) := settle_one ps1 q b in
      (ps2, js1 ++ js2)
  end.

Definition clear_all (js : list (Reaction * bool)) (ts : list (option Timer))
    : list (option Timer) :=
  fold_left
    (fun ts j => match clears (fst j) with
                 | Some t => clearTimeout ts t
                 | None => ts
                 end) js ts.

(** The callers that a checkpoint starting with the queue [js] resumes,
    in the order in which they resume: those whose [await] is a reaction
    of a settled promise, then those that wait through [then]. *)
Definition via_then (j : Reaction * bool) : bool :=
  match clears (fst j) with Some _ => true | None => false end.

Definition resumed (js : list (Reaction * bool)) : list (nat * bool) :=
  map (fun j => (waiter (fst j), snd j))
    (List.filter (fun j => negb (via_then j)) js)
  ++ map (fun j => (waiter (fst j), snd j)) (List.filter via_then js).

(** How the states of the two versions correspond while one request,
    registered under [e] with promise [p], cell [c] and timer [t], is
    served for the caller [w].  The eager version's reaction on [p] clears
    timer [t]; the other version's does not. *)
Definition mark (t : nat) (r : Reaction) : Reaction :=
  mkReaction (waiter r) (Some t).

Definition markP (t : nat) (pr : Promise) : Promise :=
  mkPromise (value pr) (map (mark t) (reactions pr)).

Definition markJ (t : nat) (j : Reaction * bool) : Reaction * bool :=
  (mark t (fst j), snd j).

(** The timers agree, except that timer [t] may already be cleared in the
    eager version once the entry [e] is gone. *)
Definition timers_related (t : nat) (e : string)
    (tsE tsL : list (option Timer)) (pp : JSMap.t PendingPayment.t) : Prop :=
  forall i, tsE !! i = tsL !! i \/
            (i = t /\ tsE !! i = Some None /\ JSMap.has e pp = false).

Record related (p t : nat) (e : string) (E L : State) : Prop := mkRelated {
  rel_client : client E = client L;
  rel_config : config E = config L;
  rel_orderService : orderService E = orderService L;
  rel_pendingPayments : pendingPayments E = pendingPayments L;
  rel_cells : cells E = cells L;
  rel_promises : promises E = alter (markP t) p (promises L);
  rel_jobs : jobs E = [];
  rel_observed : observed E = observed L;
  rel_timers :
    timers_related t e (timers E) (timers L) (pendingPayments L);
  rel_outbox : outbox E = outbox L;
  rel_frames : frames E = frames L
}.

Record session_inv (p t c w : nat) (e : string) (L : State) : Prop :=
  mkSessionInv {
  inv_cell : forall i r, cells L !! i = Some r -> mentions p r ->
                         i = c /\ r = ResolveOf p;
  inv_timer : forall tm, timers L !! t = Some (Some tm) ->
                         timer_eventId tm = e /\ timer_resolve tm = ResolveOf p;
  inv_timers : forall i tm, i <> t -> timers L !! i = Some (Some tm) ->
                            ~ mentions p (timer_resolve tm);
  inv_entry : forall k pd, In (k, pd) (pendingPayments L) ->
                           PendingPayment.resolve pd = c -> k = e;
  inv_frame : forall j f, frames L !! j = Some f ->
                          PendingPayment.resolve (pending f) = c ->
                          pendingKey f = e;
  inv_settled : forall b rs, promises L !! p = Some (mkPromise (Some b) rs) ->
                             JSMap.has e (pendingPayments L) = false;
  inv_waiting : forall rs, promises L !! p = Some (mkPromise None rs) ->
                           rs = [mkReaction w None];
  inv_jobs : jobs L = []
}.

(** What a piece of code does to the promise store: nothing, or one call
    of a resolve function. *)
Definition apply_effect (ps : list Promise) (eff : option (Resolver * bool))
    : list Promise * list (Reaction * bool) :=
  match eff with
  | Some (r, b) => settle_all ps r b
  | None => (ps, [])
  end.

(** The state after a piece of code that updates the orders, the map, the
    timers and the frames and has the effect [eff], followed by the
    microtask checkpoint. *)
Definition updated (st : State) (os : OrderService.t)
    (pp : JSMap.t PendingPayment.t) (ts : list (option Timer))
    (fs : list Frame) (eff : option (Resolver * bool)) : State :=
  mkState (client st) (config st) os pp (cells st)
    (fst (apply_effect (promises st) eff)) []
    (observed st ++ resumed (snd (apply_effect (promises st) eff)))
    (clear_all (snd (apply_effect (promises st) eff)) ts)
    (outbox st) fs.

(** What an action of the environment does, read off the registry: the
    orders, the map, the timers and the frames it leaves, and the resolve
    function it calls, if any. *)
Record Plan := mkPlan {
  plan_orderService : OrderService.t;
  plan_pendingPayments : JSMap.t PendingPayment.t;
  plan_timers : list (option Timer);
  plan_frames : list Frame;
  plan_effect : option (Resolver * bool)
}.

Definition unchanged (st : State) : Plan :=
  mkPlan (orderService st) (pendingPayments st) (timers st) (frames st) None.

Definition finish (f : Frame) (s : Stage) : Frame :=
  mkFrame (pendingKey f) (pending f) s.

Definition rejected_plan (st : State) (i : nat) (f : Frame) : Plan :=
  mkPlan (orderService st)
    (JSMap.delete (pendingKey f) (pendingPayments st)) (timers st)
    (<[i := finish f Finished]> (frames st))
    (option_map (fun r => (r, false))
       (cells st !! PendingPayment.resolve (pending f))).

Definition plan (st : State) (a : Action) : Plan :=
  match a with
  | Incoming ev =>
      mkPlan (orderService st) (pendingPayments st) (timers st)
        (frames (handle_entry st ev)) None
  | Parsed i tokenJson json_ok =>
      match frames st !! i with
      | Some f =>
          match stage f with
          | AwaitParse =>
              match tokenJson with
              | None =>
                  mkPlan (orderService st) (pendingPayments st) (timers st)
                    (<[i := finish f Finished]> (frames st)) None
              | Some s =>
                  if negb (startsWith s "{") || negb (includes s "sourceToken")
                  then rejected_plan st i f
                  else if negb json_ok then rejected_plan st i f
                  else mkPlan (orderService st) (pendingPayments st)
                         (timers st)
                         (<[i := finish f AwaitProcess]> (frames st)) None
              end
          | _ => unchanged st
          end
      | None => unchanged st
      end
  | Processed i success now =>
      match frames st !! i with
      | Some f =>
          match stage f with
          | AwaitProcess =>
              mkPlan
                (if success
                 then OrderService.markAsPaid (orderService st)
                        (PendingPayment.orderId (pending f)) now
                 else orderService st)
                (JSMap.delete (pendingKey f) (pendingPayments st)) (timers st)
                (<[i := finish f Finished]> (frames st))
                (option_map (fun r => (r, success))
                   (cells st !! PendingPayment.resolve (pending f)))
          | _ => unchanged st
          end
      | None => unchanged st
      end
  | Timeout i =>
      match timers st !! i with
      | Some (Some tm) =>
          if JSMap.has (timer_eventId tm) (pendingPayments st) then
            mkPlan (orderService st)
              (JSMap.delete (timer_eventId tm) (pendingPayments st))
              (<[i := None]> (timers st)) (frames st)
              (Some (timer_resolve tm, false))
          else
            mkPlan (orderService st) (pendingPayments st)
              (<[i := None]> (timers st)) (frames st) None
      | _ => unchanged st
      end
  | _ => unchanged st
  end.

Definition carry_out (st : State) (pl : Plan) : State :=
  updated st (plan_orderService pl) (plan_pendingPayments pl)
    (plan_timers pl) (plan_frames pl) (plan_effect pl).

(** ** Predicates on orders *)

(** [paidAt] is set exactly when the order has left [pending_payment], and
    the status is one that the service assigns. *)
Definition order_coherent (o : Order.t) : Prop :=
  match Order.status o with
  | pending_payment => Order.paidAt o = None
  | paid | shipped => Order.paidAt o <> None
  | delivered => False
  end.

(** The fields of an order that no operation assigns after creation. *)
Definition same_order_data (o o' : Order.t) : Prop :=
  Order.orderId o' = Order.orderId o /\
  Order.unicityId o' = Order.unicityId o /\
  Order.productId o' = Order.productId o /\
  Order.size o' = Order.size o /\
  Order.quantity o' = Order.quantity o /\
  Order.totalPrice o' = Order.totalPrice o /\
  Order.createdAt o' = Order.createdAt o.

(** An order placed and paid, for the examples. *)
Definition example_orders : OrderService.t :=
  fst (OrderService.createOrder OrderService.new "alice" mug_white 2 None
         "1a2b3c4d" 1000).
(** ** Registered requests *)

(** The entry [pp] was registered by a [sendPaymentRequest] of the trace. *)
Definition registered_by (tr : list Action) (pp : PendingPayment.t) : Prop :=
  In (Resume (PendingPayment.unicityId pp) (PendingPayment.userPubkey pp)
        (PendingPayment.orderId pp) (PendingPayment.amount pp)
        (PendingPayment.eventId pp) (PendingPayment.createdAt pp)) tr.

(** The trace that leads to [example_race], up to the return of
    [processTokenTransfer]. *)
Definition example_race_prefix : list Action :=
  [Create "alice" mug_white 2 None "o1" 1000;
   Call "pkA" (30 * UCT) "Order #o1: 2x Unicity White Mug";
   Resume "alice" "pkA" "o1" (30 * UCT) "e1" 1001;
   Wait example_handle 7; Attach "e1" 8; Incoming example_reply;
   Parsed 0 (Some example_tokenJson) true; Timeout 0].
(** The state of [example_race] when [processTokenTransfer] returns. *)
Definition example_before_processed : State :=
  run (init example_config) example_race_prefix.
(** ** [index.ts], [nostr-service.ts], [config.ts]: cleaning a Unicity ID *)

(** A character of these strings is a UTF-16 code unit below 256.  Of
    those, [String.prototype.trim] removes the white space and line
    terminators 9 to 13, 32 and 160. *)
Definition isWhiteSpace (c : ascii) : bool :=
  let n := nat_of_ascii c in
  ((9 <=? n)%nat && (n <=? 13)%nat) || (n =? 32)%nat || (n =? 160)%nat.

Fixpoint skip (n : nat) (s : string) : string :=
  match n, s with
  | S n', String _ s' => skip n' s'
  | _, _ => s
  end.

(** [s.replace(pat, rep)] for a string pattern: the first occurrence of
    [pat] is replaced ([rep] is used literally, it holds no dollar
    sign). *)
Fixpoint replace (s pat rep : string) : string :=
  if String.prefix pat s then rep ++ skip (String.length pat) s
  else match s with
       | EmptyString => EmptyString
       | String c s' => String c (replace s' pat rep)
       end.

Fixpoint trimStart (s : string) : string :=
  match s with
  | EmptyString => EmptyString
  | String c s' => if isWhiteSpace c then trimStart s' else s
  end.

Fixpoint trimEnd (s : string) : string :=
  match s with
  | EmptyString => EmptyString
  | String c s' =>
      match trimEnd s' with
      | EmptyString => if isWhiteSpace c then EmptyString
                       else String c EmptyString
      | t => String c t
      end
  end.

Definition trim (s : string) : string := trimEnd (trimStart s).

(** [unicityId.replace("@unicity", "").replace("@", "").trim()], the
    expression of [cleanUnicityId], of both [resolvePubkey] functions and
    of [loadConfig]. *)
Definition cleanUnicityId (unicityId : string) : string :=
  trim (replace (replace unicityId "@unicity" "") "@" "").

(** The string holds an at-sign. *)
Definition has_at (s : string) : Prop :=
  In "@"%char (list_ascii_of_string s).

(** A name as a buyer would register it: no at-sign, no white space at
    either end. *)
Definition plain_name (n : string) : Prop := ~ has_at n /\ trim n = n.

(** [s] is empty or begins with a character that [trim] keeps. *)
Definition starts_clean (s : string) : Prop :=
  match s with
  | EmptyString => True
  | String c _ => isWhiteSpace c = false
  end.

(** ** [nostr-service.ts]: [resolvePubkey] *)

(** JavaScript truthiness of a [string | null]. *)
Definition answered (a : option string) : bool :=
  match a with
  | Some pubkey => truthy pubkey
  | None => false
  end.

Module NostrService.

(** What [resolvePubkey] does to the outside: a
    [client.queryPubkeyByNametag(nametag)] or a pause of [ms]
    milliseconds. *)
Inductive Effect := Query (nametag : string) | Sleep (ms : Z).

(** The [for] loop of [resolvePubkey] from [attempt] on.  [answers k] is
    what the query of attempt [k] returns; [fuel] bounds the number of
    iterations, [None] is "out of fuel". *)
Fixpoint resolvePubkey_loop (fuel : nat) (cleanId : string)
    (answers : Z -> option string) (attempt maxRetries : Z)
    : option (option string * list Effect) :=
  match fuel with
  | O => None
  | S fuel' =>
      if attempt <=? maxRetries then
        if answered (answers attempt)
        then Some (answers attempt, [Query cleanId])
        else
          match resolvePubkey_loop fuel' cleanId answers (attempt + 1)
                  maxRetries with
          | Some (r, es) =>
              Some (r,
                    Query cleanId
                    :: (if attempt <? maxRetries
                        then [Sleep (1000 * attempt)] else [])
                    ++ es)
          | None => None
          end
      else Some (None, [])
  end.

(** The result of a call: it throws, or returns a key or [null] after
    some queries and pauses. *)
Inductive Resolved :=
| Throws
| Returns (pubkey : option string) (effects : list Effect).

(** [resolvePubkey(unicityId, maxRetries = 3)] of the version with
    retries; [None] is "out of fuel". *)
Definition resolvePubkey (st : State) (fuel : nat) (unicityId : string)
    (maxRetries : Z) (answers : Z -> option string) : option Resolved :=
  if negb (client st) then Some Throws
  else
    match resolvePubkey_loop fuel (cleanUnicityId unicityId) answers 1
            maxRetries with
    | Some (r, es) => Some (Returns r es)
    | None => None
    end.

(** [resolvePubkey] of the other version: one query. *)
Definition resolvePubkey_once (st : State) (unicityId : string)
    (answer : option string) : Resolved :=
  if negb (client st) then Throws
  else Returns answer [Query (cleanUnicityId unicityId)].

Definition queries (es : list Effect) : list string :=
  flat_map (fun e => match e with Query n => [n] | Sleep _ => [] end) es.

Definition pauses (es : list Effect) : list Z :=
  flat_map (fun e => match e with Query _ => [] | Sleep ms => [ms] end) es.

(** The pauses before attempts 2 to [k], counted from [attempt]. *)
Fixpoint backoff (k : nat) (attempt : Z) : list Z :=
  match k with
  | O => []
  | S k' => 1000 * attempt :: backoff k' (attempt + 1)
  end.

End NostrService.

(** ** [index.ts]: [resolvePubkey] and its cache *)

Module Index.

Record Cached := mkCached {
  pubkey : string;
  timestamp : Z
}.

Definition PUBKEY_CACHE_TTL_MS : Z := 5 * 60 * 1000.

(** [resolvePubkey] up to its [await]: [Some pubkey] when it returns from
    the cache; [now] is [Date.now()]. *)
Definition resolvePubkey_cached (pubkeyCache : JSMap.t Cached)
    (unicityId : string) (now : Z) : option string :=
  let cleanId := cleanUnicityId unicityId in
  match JSMap.get cleanId pubkeyCache with
  | Some cached =>
      if now - timestamp cached <? PUBKEY_CACHE_TTL_MS
      then Some (pubkey cached) else None
  | None => None
  end.

(** The rest of [resolvePubkey], run when [nostrService.resolvePubkey] has
    returned [answer]. *)
Definition resolvePubkey_resume (pubkeyCache : JSMap.t Cached)
    (unicityId : string) (answer : option string) (now : Z)
    : JSMap.t Cached * option string :=
  let cleanId := cleanUnicityId unicityId in
  match answer with
  | Some pk =>
      if truthy pk
      then (JSMap.set cleanId (mkCached pk now) pubkeyCache, answer)
      else (pubkeyCache, answer)
  | None => (pubkeyCache, answer)
  end.

(** A return of [nostrService.resolvePubkey] to a suspended call. *)
Record Store := mkStore {
  store_unicityId : string;
  store_answer : option string;
  store_now : Z
}.

(** The cache after the calls that have come back, in the order in which
    they came back; the cache is empty when the module is loaded. *)
Definition cache_after (stores : list Store) : JSMap.t Cached :=
  fold_left
    (fun c s => fst (resolvePubkey_resume c (store_unicityId s)
                       (store_answer s) (store_now s)))
    stores JSMap.empty.

(** The call stored a key under the cleaned id [k]. *)
Definition stores_for (k : string) (s : Store) : Prop :=
  cleanUnicityId (store_unicityId s) = k /\ answered (store_answer s) = true.

(** A call from start to end when nothing else runs during its [await]:
    the cache, the result and the effects.  The payment service is the
    version with retries, called with the default of three attempts. *)
Definition resolvePubkey (st : State) (pubkeyCache : JSMap.t Cached)
    (fuel : nat) (unicityId : string) (now : Z)
    (answers : Z -> option string) (now' : Z)
    : option (JSMap.t Cached * NostrService.Resolved) :=
  match resolvePubkey_cached pubkeyCache unicityId now with
  | Some pk => Some (pubkeyCache, NostrService.Returns (Some pk) [])
  | None =>
      match NostrService.resolvePubkey st fuel (cleanUnicityId unicityId) 3
              answers with
      | Some (NostrService.Returns pk es) =>
          let '(c, r) := resolvePubkey_resume pubkeyCache unicityId pk now' in
          Some (c, NostrService.Returns r es)
      | Some NostrService.Throws =>
          Some (pubkeyCache, NostrService.Throws)
      | None => None
      end
  end.

(** [place_order] and [confirm_order] begin with
    [const unicityId = cleanUnicityId(unicity_id)] and
    [const pubkey = await resolvePubkey(unicityId)]: the order is stored
    and compared under [unicityId], and [resolvePubkey] is given
    [unicityId], which it cleans again. *)
Definition tool_unicityId (unicity_id : string) : string :=
  cleanUnicityId unicity_id.

Definition tool_resolvePubkey (st : State) (pubkeyCache : JSMap.t Cached)
    (fuel : nat) (unicity_id : string) (now : Z)
    (answers : Z -> option string) (now' : Z)
    : option (JSMap.t Cached * NostrService.Resolved) :=
  resolvePubkey st pubkeyCache fuel (tool_unicityId unicity_id) now answers
    now'.

End Index.
(** ** [catalog.ts]: [formatUCT] *)

Definition digit (d : Z) : ascii := ascii_of_nat (48 + Z.to_nat d).

(** The decimal digits of [n >= 0], most significant first, put before
    [acc]; [fuel] bounds the number of digits. *)
Fixpoint digits (fuel : nat) (n : Z) (acc : string) : string :=
  match fuel with
  | O => acc
  | S fuel' =>
      let acc' := String (digit (n mod 10)) acc in
      if n <? 10 then acc' else digits fuel' (n / 10) acc'
  end.

(** [BigInt.prototype.toString()]: the decimal numeral without leading
    zeros, with a minus sign for a negative number.  A number has no more
    decimal digits than binary ones. *)
Definition toString (n : Z) : string :=
  if n <? 0 then String "-" (digits (S (Z.to_nat (Z.log2 (- n)))) (- n) "")
  else digits (S (Z.to_nat (Z.log2 n))) n "".

Fixpoint repeat_char (c : ascii) (n : nat) : string :=
  match n with
  | O => EmptyString
  | S n' => String c (repeat_char c n')
  end.

(** [s.padStart(targetLength, c)] for a one-character pad string. *)
Definition padStart (s : string) (targetLength : nat) (c : ascii) : string :=
  String.append (repeat_char c (targetLength - String.length s)) s.

(** [s.replace(/0+$/, "")]: the zeros at the end are removed. *)
Fixpoint stripZeros (s : string) : string :=
  match s with
  | EmptyString => EmptyString
  | String c s' =>
      match stripZeros s' with
      | EmptyString => if Ascii.eqb c "0" then EmptyString
                       else String c EmptyString
      | t => String c t
      end
  end.

(** Division and remainder of [bigint] truncate towards zero. *)
Definition formatUCT (amount : Z) : string :=
  let whole := Z.quot amount UCT in
  let fraction := Z.rem amount UCT in
  if fraction =? 0 then String.append (toString whole) " UCT"
  else
    String.append (toString whole)
      (String.append "."
         (String.append (stripZeros (padStart (toString fraction) 18 "0"))
            " UCT")).

(** Reading a numeral: the value of a string of decimal digits. *)
Definition is_digit (c : ascii) : bool :=
  (48 <=? nat_of_ascii c)%nat && (nat_of_ascii c <=? 57)%nat.

Definition digit_value (c : ascii) : Z := Z.of_nat (nat_of_ascii c) - 48.

Fixpoint decimal_value_from (acc : Z) (s : string) : Z :=
  match s with
  | EmptyString => acc
  | String c s' => decimal_value_from (10 * acc + digit_value c) s'
  end.

Definition decimal_value (s : string) : Z := decimal_value_from 0 s.

Fixpoint all_digits (s : string) : bool :=
  match s with
  | EmptyString => true
  | String c s' => is_digit c && all_digits s'
  end.
(** ** Callers and the promises they wait on *)

(** The caller [w] of a wait on promise [p] has been resumed with the
    value of [p], or [p] is pending and [w] is among its reactions. *)
Definition served (st : State) (p w : nat) : Prop :=
  match promises st !! p with
  | Some (mkPromise (Some b) _) => In (w, b) (observed st)
  | Some (mkPromise None rs) => exists t, In (mkReaction w t) rs
  | None => False
  end.

(** * Properties *)

(** ** Facts about [JSMap] *)

Module JSMapFacts.
Import JSMap.
Section Facts.
Context {V : Type}.
Implicit Types (m : JSMap.t V) (k : string) (v : V).

Lemma get_set_eq k v m : get k (set k v m) = Some v.
Proof.
  induction m as [|[k' v'] m IH]; simpl.
  - now rewrite String.eqb_refl.
  - destruct (String.eqb k' k) eqn:E; simpl.
    + now rewrite String.eqb_refl.
    + now rewrite E.
Qed.

Lemma get_set_ne k k' v m : k <> k' -> get k' (set k v m) = get k' m.
Proof.
  intros Hne. induction m as [|[k0 v0] m IH]; simpl.
  - destruct (String.eqb k k') eqn:E; [apply String.eqb_eq in E; tauto|easy].
  - destruct (String.eqb k0 k) eqn:E; simpl.
    + apply String.eqb_eq in E. subst k0.
      destruct (String.eqb k k') eqn:E'; [apply String.eqb_eq in E'; tauto|easy].
    + destruct (String.eqb k0 k'); [easy|apply IH].
Qed.

Lemma get_delete_eq k m : get k (delete k m) = None.
Proof.
  induction m as [|[k' v'] m IH]; simpl; [easy|].
  destruct (String.eqb k' k) eqn:E; simpl; [easy|now rewrite E].
Qed.

Lemma get_delete_ne k k' m : k <> k' -> get k' (delete k m) = get k' m.
Proof.
  intros Hne. induction m as [|[k0 v0] m IH]; simpl; [easy|].
  destruct (String.eqb k0 k) eqn:E; simpl.
  - apply String.eqb_eq in E. subst k0.
    destruct (String.eqb k k') eqn:E'; [apply String.eqb_eq in E'; tauto|easy].
  - destruct (String.eqb k0 k'); [easy|apply IH].
Qed.

Lemma has_delete_eq k m : has k (delete k m) = false.
Proof. unfold has. now rewrite get_delete_eq. Qed.

Lemma get_None_not_key k m : get k m = None <-> ~ In k (keys m).
Proof.
  induction m as [|[k' v'] m IH]; simpl; [tauto|].
  destruct (String.eqb k' k) eqn:E.
  - apply String.eqb_eq in E. split; [discriminate|tauto].
  - apply String.eqb_neq in E. rewrite IH. tauto.
Qed.

Lemma get_Some_In k v m : get k m = Some v -> In (k, v) m.
Proof.
  induction m as [|[k' v'] m IH]; simpl; [discriminate|].
  destruct (String.eqb k' k) eqn:E.
  - apply String.eqb_eq in E. intros [= ->]. subst. now left.
  - intros H. right. now apply IH.
Qed.

Lemma set_fresh k v m : get k m = None -> set k v m = m ++ [(k, v)].
Proof.
  induction m as [|[k' v'] m IH]; simpl; [easy|].
  destruct (String.eqb k' k); [discriminate|].
  intros H. now rewrite IH.
Qed.

Lemma delete_filter k m :
  delete k m = List.filter (fun kv => negb (String.eqb (fst kv) k)) m.
Proof.
  induction m as [|[k' v'] m IH]; simpl; [easy|].
  destruct (String.eqb k' k); simpl; now rewrite IH.
Qed.

Lemma keys_delete_sublist k m : sublist (keys (delete k m)) (keys m).
Proof.
  induction m as [|[k' v'] m IH]; simpl; [constructor|].
  destruct (String.eqb k' k); simpl.
  - now apply sublist_cons.
  - now apply sublist_skip.
Qed.

Lemma In_delete kv k m : In kv (delete k m) -> In kv m.
Proof.
  induction m as [|[k' v'] m IH]; simpl; [easy|].
  destruct (String.eqb k' k); simpl; intuition.
Qed.

Lemma find_first_Some P m k v :
  find_first P m = Some (k, v) ->
  exists m1 m2, m = m1 ++ (k, v) :: m2 /\ P v = true /\
                forall k' v', In (k', v') m1 -> P v' = false.
Proof.
  induction m as [|[k0 v0] m IH]; simpl; [discriminate|].
  destruct (P v0) eqn:E.
  - intros [= -> ->]. exists [], m. repeat split; [easy|]. intros ? ? [].
  - intros H. destruct (IH H) as (m1 & m2 & -> & HP & Hpre).
    exists ((k0, v0) :: m1), m2. repeat split; [easy|].
    intros k' v' [[= <- <-]|Hin]; [easy|eauto].
Qed.

Lemma find_first_None P m :
  find_first P m = None <-> forall k v, In (k, v) m -> P v = false.
Proof.
  induction m as [|[k0 v0] m IH]; simpl.
  - split; [intros _ ? ? []|easy].
  - destruct (P v0) eqn:E.
    + split; [discriminate|]. intros H. specialize (H k0 v0 (or_introl eq_refl)).
      congruence.
    + rewrite IH. split.
      * intros H k v [[= <- <-]|Hin]; eauto.
      * intros H k v Hin. apply (H k v). now right.
Qed.

End Facts.
End JSMapFacts.

Lemma TShirtSize_eqb_eq a b : TShirtSize_eqb a b = true <-> a = b.
Proof. destruct a, b; simpl; split; congruence. Qed.

(** The two shapes of case in the proof of C8: the tool answers with an
    error, or it creates the order. *)
Ltac rejected :=
  split;
  [ split; [intros [? [=]] | ]
  | split; [intros ? ? ? ? [=] | now intros ? [= <-]] ].

Ltac accepted :=
  split;
  [ split; [intros _ | intros _; eexists; reflexivity]
  | split;
    [ intros ? ? ? ? [= <- <- <- <-]; simpl;
      repeat split; try easy; apply JSMapFacts.get_set_eq
    | intros ? [=] ] ].

(** ** Order store *)

Section OrderStore.
Import OrderService.

Lemma getOrder_createOrder os unicityId product quantity size fresh now :
  getOrder (fst (createOrder os unicityId product quantity size fresh now))
    fresh
  = Some (snd (createOrder os unicityId product quantity size fresh now)).
Proof. unfold getOrder, createOrder; simpl. apply JSMapFacts.get_set_eq. Qed.

(** [markAsPaid] writes [paid] whatever the status was. *)
Lemma statusOf_markAsPaid os orderId order now :
  getOrder os orderId = Some order ->
  statusOf (markAsPaid os orderId now) orderId = Some paid.
Proof.
  unfold statusOf, getOrder, markAsPaid. intros ->. simpl.
  now rewrite JSMapFacts.get_set_eq.
Qed.

(** [markAsShipped] changes the status only from [paid], to [shipped]. *)
Lemma statusOf_markAsShipped os orderId order :
  getOrder os orderId = Some order ->
  statusOf (markAsShipped os orderId) orderId
  = Some (match Order.status order with paid => shipped | s => s end).
Proof.
  unfold statusOf, getOrder, markAsShipped. intros H. rewrite H.
  destruct (Order.status order) eqn:E; simpl; unfold getOrder;
    rewrite ?JSMapFacts.get_set_eq, ?H; simpl; now rewrite ?E.
Qed.

End OrderStore.

(** C9.  The order returned by [createOrder], which is also the order it
    stores, has [totalPrice] equal to the product of the unit price and the
    quantity, an exact product of unbounded integers. *)
Theorem C9_totalPrice_exact (os : OrderService.t) (unicityId : string)
    (product : Product.t) (quantity : Z) (size : option TShirtSize)
    (fresh : string) (now : Z) :
  let r := OrderService.createOrder os unicityId product quantity size
             fresh now in
  Order.totalPrice (snd r) = Product.price product * quantity /\
  Order.quantity (snd r) = quantity /\
  Order.status (snd r) = pending_payment /\
  OrderService.getOrder (fst r) fresh = Some (snd r).
Proof.
  simpl. repeat split. apply JSMapFacts.get_set_eq.
Qed.

(** Two units of the 25 UCT shirt cost 50 UCT. *)
Example totalPrice_two_shirts :
  Order.totalPrice
    (snd (OrderService.createOrder OrderService.new "alice" tshirt_unicity 2
            (Some Size_M) "1a2b3c4d" 1700000000000))
  = 50 * UCT.
Proof. reflexivity. Qed.

(** C2.  An order that was paid and then shipped is written back to [paid]
    by a further [markAsPaid], with a new [paidAt]. *)
Theorem C2_markAsPaid_returns_shipped_to_paid :
  let os0 := fst (OrderService.createOrder OrderService.new "alice" mug_white
                    1 None "1a2b3c4d" 1000) in
  let os1 := OrderService.markAsShipped
               (OrderService.markAsPaid os0 "1a2b3c4d" 2000) "1a2b3c4d" in
  let os2 := OrderService.markAsPaid os1 "1a2b3c4d" 3000 in
  OrderService.statusOf os0 "1a2b3c4d" = Some pending_payment /\
  OrderService.statusOf os1 "1a2b3c4d" = Some shipped /\
  OrderService.statusOf os2 "1a2b3c4d" = Some paid /\
  option_map Order.paidAt (OrderService.getOrder os2 "1a2b3c4d")
  = Some (Some 3000).
Proof. repeat split. Qed.

(** C8, as stated, fails: [createOrder] performs no check.  Quantity 0 and
    a size for a product without sizes give an order like any other. *)
Lemma C8_createOrder_accepts_invalid_input :
  valid_order_input mug_white 0 (Some Size_M) = false /\
  let r := OrderService.createOrder OrderService.new "alice" mug_white 0
             (Some Size_M) "1a2b3c4d" 1000 in
  OrderService.getOrder (fst r) "1a2b3c4d" = Some (snd r) /\
  Order.quantity (snd r) = 0 /\
  Order.size (snd r) = Some Size_M /\
  Order.totalPrice (snd r) = 0.
Proof. repeat split. Qed.

Lemma sizes_includes_In l s : sizes_includes l s = true <-> In s l.
Proof.
  unfold sizes_includes. rewrite existsb_exists. split.
  - intros (x & Hin & Heq). apply TShirtSize_eqb_eq in Heq. now subst.
  - intros Hin. exists s. split; [easy|]. now apply TShirtSize_eqb_eq.
Qed.

Lemma truthy_true s : truthy s = true <-> s <> "".
Proof.
  unfold truthy. destruct (String.eqb s "") eqn:E; simpl.
  - apply String.eqb_eq in E. split; [discriminate|tauto].
  - apply String.eqb_neq in E. tauto.
Qed.

Lemma parse_quantity_Some quantity q :
  parse_quantity quantity = Some q <->
  (quantity = None /\ q = 1) \/
  (quantity = Some (Integer q) /\ 1 <= q <= 10).
Proof.
  unfold parse_quantity. destruct quantity as [[n|]|].
  - destruct (1 <=? n) eqn:E1; destruct (n <=? 10) eqn:E2; simpl;
      split; try discriminate;
      try (intros [= <-]; right; split; [easy|lia]);
      try (intros [[? ?]|[[= ->] ?]]; [discriminate|]; try reflexivity; lia).
  - split; [discriminate|]. intros [[[=] _]|[[=] _]].
  - split; [intros [= <-]; now left|].
    intros [[_ ->]|[? _]]; [easy|discriminate].
Qed.

Lemma lookup_product_Own product_id product :
  lookup_product product_id = OwnProduct product <->
  JSMap.get product_id PRODUCTS = Some product.
Proof.
  unfold lookup_product.
  destruct (JSMap.get product_id PRODUCTS) as [p0|]; [|split].
  - split; now intros [= ->].
  - now destruct (existsb _ inherited_keys).
  - discriminate.
Qed.

(** C8, amended.  [createOrder] itself checks nothing: it throws, with
    nothing stored, exactly when the quantity is not an integer (the
    [RangeError] of [BigInt]), and for an integer it stores an order
    whatever the quantity and the size are.  The checks are those of the
    [place_order] tool, made before it calls [createOrder]: an order is
    created exactly when the quantity passes the schema (an integer from 1
    to 10, 1 when omitted), the buyer's key was resolved to a non-empty
    string, the product is in the catalog and in stock, and, for a product
    that declares sizes, a declared size is given.  The order created is
    the stored one, with that quantity and size, and the call of
    [createOrder] that made it did not throw.  Otherwise the tool answers
    with an error and the state is the one before the call. *)
Theorem C8_place_order_validates (st : State) (unicityId product_id : string)
    (quantity : option Number) (size : option TShirtSize)
    (pubkey : option string) (fresh : string) (now : Z)
    (message eventId : string) (now' : Z) :
  ((exists r, place_order_create st unicityId product_id quantity size pubkey
                fresh now = inr r) <->
   (exists q product pk,
      (quantity = None /\ q = 1 \/ quantity = Some (Integer q)) /\
      1 <= q <= 10 /\
      pubkey = Some pk /\ pk <> "" /\
      JSMap.get product_id PRODUCTS = Some product /\
      Product.inStock product = true /\
      size_accepted product size)) /\
  (forall st' order product pk,
     place_order_create st unicityId product_id quantity size pubkey fresh now
     = inr (st', order, product, pk) ->
     parse_quantity quantity = Some (Order.quantity order) /\
     Order.size order = size /\
     Order.totalPrice order = Product.price product * Order.quantity order /\
     OrderService.getOrder (orderService st') fresh = Some order /\
     OrderService.createOrder_number (orderService st) unicityId product
       (Integer (Order.quantity order)) size fresh now
     = Some (orderService st', order)) /\
  (forall e,
     place_order_create st unicityId product_id quantity size pubkey fresh now
     = inl e ->
     place_order st unicityId product_id quantity size pubkey fresh now
       message eventId now' = (st, inl e)) /\
  (forall os product q,
     OrderService.createOrder_number os unicityId product q size fresh now
     = None <-> q = NotInteger) /\
  (forall os product n,
     OrderService.createOrder_number os unicityId product (Integer n) size
       fresh now
     = Some (OrderService.createOrder os unicityId product n size fresh
               now)).
Proof.
  assert (Hnum :
    (forall os product q,
       OrderService.createOrder_number os unicityId product q size fresh now
       = None <-> q = NotInteger) /\
    (forall os product n,
       OrderService.createOrder_number os unicityId product (Integer n) size
         fresh now
       = Some (OrderService.createOrder os unicityId product n size fresh
                 now))).
  { split; [|reflexivity]. intros os product [n|]; simpl; split; easy. }
  cut
    (((exists r, place_order_create st unicityId product_id quantity size
                   pubkey fresh now = inr r) <->
      (exists q product pk,
         (quantity = None /\ q = 1 \/ quantity = Some (Integer q)) /\
         1 <= q <= 10 /\
         pubkey = Some pk /\ pk <> "" /\
         JSMap.get product_id PRODUCTS = Some product /\
         Product.inStock product = true /\
         size_accepted product size)) /\
     (forall st' order product pk,
        place_order_create st unicityId product_id quantity size pubkey fresh
          now = inr (st', order, product, pk) ->
        parse_quantity quantity = Some (Order.quantity order) /\
        Order.size order = size /\
        Order.totalPrice order
        = Product.price product * Order.quantity order /\
        OrderService.getOrder (orderService st') fresh = Some order /\
        OrderService.createOrder_number (orderService st) unicityId product
          (Integer (Order.quantity order)) size fresh now
        = Some (orderService st', order)) /\
     (forall e,
        place_order_create st unicityId product_id quantity size pubkey fresh
          now = inl e ->
        place_order st unicityId product_id quantity size pubkey fresh now
          message eventId now' = (st, inl e))).
  { intros (H1 & H2 & H3). split; [exact H1|]. split; [exact H2|].
    split; [exact H3|exact Hnum]. }
  clear Hnum.
  unfold place_order, place_order_create, size_accepted.
  destruct (parse_quantity quantity) as [q|] eqn:Eq.
  2:{ rejected. intros (q & p & pk & Hq & Hr & _).
      assert (parse_quantity quantity = Some q) as Hp
        by (apply parse_quantity_Some; tauto).
      congruence. }
  assert (Hq : (quantity = None /\ q = 1 \/ quantity = Some (Integer q)) /\
               1 <= q <= 10).
  { apply parse_quantity_Some in Eq. destruct Eq as [[? ->]|[? ?]];
      split; auto; lia. }
  destruct Hq as [Hq Hr].
  assert (Huniq : forall q', (quantity = None /\ q' = 1
                              \/ quantity = Some (Integer q')) ->
                             1 <= q' <= 10 -> q' = q).
  { intros q' Hq' Hr'.
    assert (parse_quantity quantity = Some q') as Hp
      by (apply parse_quantity_Some; tauto).
    congruence. }
  destruct pubkey as [pk|].
  2:{ rejected. intros (? & ? & ? & _ & _ & [=] & _). }
  destruct (truthy pk) eqn:Et; cbn [negb].
  2:{ rejected. intros (? & ? & pk' & _ & _ & [= <-] & Hne & _).
      apply truthy_true in Hne. congruence. }
  apply truthy_true in Et.
  destruct (lookup_product product_id) as [product| |] eqn:El.
  2:{ rejected. intros (? & p' & ? & _ & _ & _ & _ & Hg & _).
      apply lookup_product_Own in Hg. congruence. }
  2:{ rejected. intros (? & p' & ? & _ & _ & _ & _ & Hg & _).
      apply lookup_product_Own in Hg. congruence. }
  apply lookup_product_Own in El.
  destruct (Product.inStock product) eqn:Es; cbn [negb].
  2:{ rejected. intros (? & p' & ? & _ & _ & _ & _ & Hg & Hs & _).
      congruence. }
  destruct (Product.sizes product) as [l|] eqn:Esz;
    [destruct size as [sz|]|].
  - destruct (sizes_includes l sz) eqn:Ei; cbn [negb].
    + accepted. exists q, product, pk. rewrite Esz.
      repeat split; try easy; try lia.
      exists sz. split; [easy|]. now apply sizes_includes_In.
    + rejected. intros (? & p' & ? & _ & _ & _ & _ & Hg & _ & Hs).
      assert (p' = product) as -> by congruence.
      rewrite Esz in Hs. destruct Hs as (s' & [= <-] & Hin).
      apply sizes_includes_In in Hin. congruence.
  - rejected. intros (? & p' & ? & _ & _ & _ & _ & Hg & _ & Hs).
    assert (p' = product) as -> by congruence.
    rewrite Esz in Hs. now destruct Hs as (s' & [=] & _).
  - accepted. exists q, product, pk. rewrite Esz.
    repeat split; try easy; lia.
Qed.

(** ** Promise store *)

Lemma same_registry_refl st : same_registry st st.
Proof. unfold same_registry. tauto. Qed.

Lemma same_registry_trans st1 st2 st3 :
  same_registry st1 st2 -> same_registry st2 st3 -> same_registry st1 st3.
Proof. unfold same_registry. intuition congruence. Qed.

Lemma resolve_promise_same st p b : same_registry st (resolve_promise st p b).
Proof.
  unfold resolve_promise. destruct (promises st !! p) as [[[v|] rs]|];
    unfold same_registry; simpl; tauto.
Qed.

Lemma call_resolver_same r st b : same_registry st (call_resolver st r b).
Proof.
  revert st. induction r as [p|r IH p]; intros st; simpl.
  - apply resolve_promise_same.
  - eapply same_registry_trans; [apply IH|apply resolve_promise_same].
Qed.

Lemma call_resolve_same st pp b : same_registry st (call_resolve st pp b).
Proof.
  unfold call_resolve. destruct (cells st !! PendingPayment.resolve pp).
  - apply call_resolver_same.
  - apply same_registry_refl.
Qed.

Lemma then_same st p r : same_registry st (then_ st p r).
Proof.
  unfold then_. destruct (promises st !! p) as [[[v|] rs]|];
    unfold same_registry; simpl; tauto.
Qed.

Lemma then_pendingPayments st p r :
  pendingPayments (then_ st p r) = pendingPayments st.
Proof. apply then_same. Qed.

Lemma clear_all_app js js' ts :
  clear_all (js ++ js') ts = clear_all js' (clear_all js ts).
Proof. unfold clear_all. apply fold_left_app. Qed.

Lemma fold_run_job_eq js st :
  fold_left run_job js st
  = mkState (client st) (config st) (orderService st) (pendingPayments st)
      (cells st) (promises st)
      (jobs st
       ++ map (fun j => (mkReaction (waiter (fst j)) None, snd j))
            (List.filter via_then js))
      (observed st
       ++ map (fun j => (waiter (fst j), snd j))
            (List.filter (fun j => negb (via_then j)) js))
      (clear_all js (timers st)) (outbox st) (frames st).
Proof.
  revert st. induction js as [|j js IH]; intros st.
  - simpl. rewrite !app_nil_r. now destruct st.
  - cbn [fold_left]. rewrite IH. unfold run_job, via_then, clear_all.
    cbn [fold_left List.filter].
    destruct (clears (fst j)) as [t|]; cbn [negb map]; cbn;
      now rewrite <- ?app_assoc.
Qed.

Lemma filter_continuations (js : list (Reaction * bool)) :
  List.filter (fun j => negb (via_then j))
    (map (fun j => (mkReaction (waiter (fst j)) None, snd j)) js)
  = map (fun j => (mkReaction (waiter (fst j)) None, snd j)) js /\
  List.filter via_then
    (map (fun j => (mkReaction (waiter (fst j)) None, snd j)) js) = [] /\
  forall ts,
    clear_all (map (fun j => (mkReaction (waiter (fst j)) None, snd j)) js)
      ts = ts.
Proof.
  induction js as [|j js (IH1 & IH2 & IH3)]; [easy|].
  cbn. rewrite IH1, IH2. repeat split. intros ts.
  unfold clear_all in *. cbn. apply IH3.
Qed.

Lemma drain_eq st :
  drain st
  = mkState (client st) (config st) (orderService st) (pendingPayments st)
      (cells st) (promises st) []
      (observed st ++ resumed (jobs st))
      (clear_all (jobs st) (timers st)) (outbox st) (frames st).
Proof.
  unfold drain, run_queue. rewrite (fold_run_job_eq (jobs st)).
  cbn [jobs with_promises client config orderService pendingPayments cells
       promises observed timers outbox frames app].
  rewrite fold_run_job_eq.
  cbn [jobs with_promises client config orderService pendingPayments cells
       promises observed timers outbox frames app].
  destruct (filter_continuations (List.filter via_then (jobs st)))
    as (-> & -> & ->).
  unfold resumed. cbn [map]. now rewrite map_map, <- app_assoc.
Qed.

(** The microtask checkpoint empties the queue, hands every queued result
    to its waiter and touches neither the registry nor the orders. *)
Lemma drain_spec st :
  client (drain st) = client st /\ config (drain st) = config st /\
  orderService (drain st) = orderService st /\
  pendingPayments (drain st) = pendingPayments st /\
  cells (drain st) = cells st /\ promises (drain st) = promises st /\
  jobs (drain st) = [] /\ outbox (drain st) = outbox st /\
  frames (drain st) = frames st /\
  observed (drain st) = observed st ++ resumed (jobs st).
Proof. rewrite drain_eq. cbn. tauto. Qed.

Lemma drain_pendingPayments st :
  pendingPayments (drain st) = pendingPayments st.
Proof. apply drain_spec. Qed.

Lemma drain_orderService st : orderService (drain st) = orderService st.
Proof. apply drain_spec. Qed.

Lemma drain_promises st : promises (drain st) = promises st.
Proof. apply drain_spec. Qed.

Lemma drain_observed st :
  observed (drain st) = observed st ++ resumed (jobs st).
Proof. apply drain_spec. Qed.

Lemma drain_idle st : jobs st = [] -> drain st = st.
Proof.
  unfold drain, run_queue. intros H. destruct st; simpl in *. now subst.
Qed.

Lemma resumed_In o js :
  In o (resumed js) <-> In o (map (fun j => (waiter (fst j), snd j)) js).
Proof.
  unfold resumed. rewrite in_app_iff, !in_map_iff. split.
  - intros [(j & <- & H)|(j & <- & H)]; apply filter_In in H;
      exists j; tauto.
  - intros (j & <- & H). destruct (via_then j) eqn:E.
    + right. exists j. split; [easy|]. apply filter_In. tauto.
    + left. exists j. split; [easy|]. apply filter_In. rewrite E. tauto.
Qed.

(** ** Correlation of inbound transfers *)

Lemma matchByReplyTo_None st ev :
  matchByReplyTo st ev = None <->
  getReplyToEventId ev = None \/ getReplyToEventId ev = Some "" \/
  exists r, getReplyToEventId ev = Some r /\
            JSMap.get r (pendingPayments st) = None.
Proof.
  unfold matchByReplyTo. destruct (getReplyToEventId ev) as [r|]; [|tauto].
  destruct (truthy r) eqn:Et.
  - apply truthy_true in Et.
    destruct (JSMap.get r (pendingPayments st)) eqn:Eg.
    + split; [discriminate|]. intros [[=]|[[=]|(r' & [= <-] & H)]]; congruence.
    + split; [|easy]. intros _. right. right. now exists r.
  - assert (r = "") as -> by
      (destruct (String.eqb_spec r ""); [easy|apply truthy_true in n; congruence]).
    tauto.
Qed.

Lemma matchByReplyTo_Some st ev k p :
  matchByReplyTo st ev = Some (k, p) <->
  getReplyToEventId ev = Some k /\ k <> "" /\
  JSMap.get k (pendingPayments st) = Some p.
Proof.
  unfold matchByReplyTo. destruct (getReplyToEventId ev) as [r|].
  2:{ split; [discriminate|]. now intros [[=] _]. }
  destruct (truthy r) eqn:Et.
  - apply truthy_true in Et.
    destruct (JSMap.get r (pendingPayments st)) eqn:Eg.
    + split; [intros [= <- <-]; tauto|]. intros ([= <-] & _ & H). congruence.
    + split; [discriminate|]. intros ([= <-] & _ & H). congruence.
  - split; [discriminate|]. intros ([= <-] & Hk & _).
    apply truthy_true in Hk. congruence.
Qed.

(** C4.  The handler looks the reply-reference up first: when the event
    carries one (a non-empty [replyToEventId]) that is the key of a live
    entry, that entry is the match, whoever the sender is and whatever the
    sender would match.  Conversely every match is either that entry or the
    result of the sender loop, and the latter only when the event carries
    no reply-reference or the reference is not the key of a live entry. *)
Theorem C4_reply_reference_first (st : State) (ev : Event) :
  (forall r p,
     getReplyToEventId ev = Some r -> r <> "" ->
     JSMap.get r (pendingPayments st) = Some p ->
     correlate st ev = Some (r, p) /\
     (client st = true -> isTokenTransfer ev = true ->
      frames (handle_begin st ev) = frames st ++ [mkFrame r p AwaitParse])) /\
  (forall k p,
     correlate st ev = Some (k, p) ->
     (getReplyToEventId ev = Some k /\
      JSMap.get k (pendingPayments st) = Some p) \/
     ((getReplyToEventId ev = None \/ getReplyToEventId ev = Some "" \/
       exists r, getReplyToEventId ev = Some r /\
                 JSMap.get r (pendingPayments st) = None) /\
      matchBySender st (getSender ev) = Some (k, p))).
Proof.
  split.
  - intros r p Hr Hne Hget.
    assert (Hm : matchByReplyTo st ev = Some (r, p))
      by now apply matchByReplyTo_Some.
    assert (Hc : correlate st ev = Some (r, p)).
    { unfold correlate. rewrite Hm.
      apply truthy_true in Hne. now rewrite Hne. }
    split; [exact Hc|]. intros Hcl Htt. unfold handle_begin.
    now rewrite Hcl, Htt, Hc.
  - intros k p. unfold correlate.
    destruct (matchByReplyTo st ev) as [[k' p']|] eqn:Em.
    + apply matchByReplyTo_Some in Em. destruct Em as (Hr & Hne & Hget).
      apply truthy_true in Hne. rewrite Hne. intros [= <- <-]. now left.
    + apply matchByReplyTo_None in Em.
      destruct (matchBySender st (getSender ev)) as [[k' p']|]; [|discriminate].
      destruct (truthy k'); [|discriminate]. intros [= <- <-]. now right.
Qed.

(** An event that replies to the second of two requests of one buyer is
    matched to the second entry although the sender loop would stop at the
    first. *)
Lemma C4_reply_reference_first_witness :
  matchBySender example_two_requests (getSender example_reply_to_second)
  = Some ("e1", example_entry1) /\
  correlate example_two_requests example_reply_to_second
  = Some ("e2", example_entry2).
Proof.
  split; [reflexivity|].
  apply (proj1 (C4_reply_reference_first example_two_requests
                  example_reply_to_second) "e2" example_entry2).
  - reflexivity.
  - discriminate.
  - reflexivity.
Defined.

(** ** Settlement *)

Lemma resolve_then_delete_spec st f b :
  let st' := resolve_then_delete st f b in
  pendingPayments st' = JSMap.delete (pendingKey f) (pendingPayments st) /\
  observed st' = observed st /\ orderService st' = orderService st /\
  frames st' = frames st.
Proof.
  unfold resolve_then_delete. simpl.
  destruct (call_resolve_same st (pending f) b)
    as (_ & _ & Ho & Hp & _ & _ & _ & Hf & Hobs).
  now rewrite Hp, Ho, Hf, Hobs.
Qed.

Lemma fireTimeout_live st t tm :
  timers st !! t = Some (Some tm) ->
  JSMap.has (timer_eventId tm) (pendingPayments st) = true ->
  fireTimeout st t
  = call_resolver
      (with_pendingPayments (with_timers st (<[t := None]> (timers st)))
         (JSMap.delete (timer_eventId tm) (pendingPayments st)))
      (timer_resolve tm) false.
Proof. unfold fireTimeout. intros -> H. simpl. now rewrite H. Qed.

(** C6.  Each of the four places that settle a pending payment (the timer
    callback, the two rejections after [parseTokenTransfer], and the end of
    the handler after [processTokenTransfer]) runs to its end without
    resuming any waiter, and at its end the entry is no longer in the map;
    the waiters are resumed by the microtask checkpoint that follows, which
    leaves the map as it is.  So no waiter is notified while the entry is
    still registered. *)
Theorem C6_entry_removed_before_waiters_resume (st : State) :
  (forall t tm,
     timers st !! t = Some (Some tm) ->
     JSMap.has (timer_eventId tm) (pendingPayments st) = true ->
     let st' := fireTimeout st t in
     JSMap.get (timer_eventId tm) (pendingPayments st') = None /\
     observed st' = observed st /\
     pendingPayments (drain st') = pendingPayments st') /\
  (forall i f success now,
     frames st !! i = Some f -> stage f = AwaitProcess ->
     let st' := handle_processed st i success now in
     JSMap.get (pendingKey f) (pendingPayments st') = None /\
     observed st' = observed st /\
     pendingPayments (drain st') = pendingPayments st') /\
  (forall i f s json_ok,
     frames st !! i = Some f -> stage f = AwaitParse ->
     startsWith s "{" && includes s "sourceToken" && json_ok = false ->
     let st' := handle_parsed st i (Some s) json_ok in
     JSMap.get (pendingKey f) (pendingPayments st') = None /\
     observed st' = observed st /\
     pendingPayments (drain st') = pendingPayments st').
Proof.
  split; [|split].
  - intros t tm Ht Hlive st'. subst st'.
    rewrite (fireTimeout_live _ _ _ Ht Hlive).
    match goal with |- context [call_resolver ?s ?r ?b] =>
      destruct (call_resolver_same r s b)
        as (_ & _ & _ & Hp & _ & _ & _ & _ & Hobs) end.
    rewrite drain_pendingPayments, Hp, Hobs. simpl.
    split; [apply JSMapFacts.get_delete_eq|easy].
  - intros i f success now Hf Hs st'. subst st'.
    unfold handle_processed. rewrite Hf, Hs.
    split; [|split; [|apply drain_pendingPayments]].
    + unfold set_stage. simpl. apply JSMapFacts.get_delete_eq.
    + unfold set_stage. simpl. destruct success.
      * match goal with |- context [call_resolve ?s ?p ?b] =>
          destruct (call_resolve_same s p b)
            as (_ & _ & _ & _ & _ & _ & _ & _ & Hobs) end.
        now rewrite Hobs.
      * apply (call_resolve_same st (pending f) false).
  - intros i f s json_ok Hf Hs Hbad st'. subst st'.
    unfold handle_parsed. rewrite Hf, Hs.
    assert (Hst : forall st0,
      let st' := set_stage (resolve_then_delete st0 f false) i f Finished in
      JSMap.get (pendingKey f) (pendingPayments st') = None /\
      observed st' = observed st0 /\
      pendingPayments (drain st') = pendingPayments st').
    { intros st0. simpl.
      destruct (resolve_then_delete_spec st0 f false) as (Hp & Hobs & _).
      simpl in Hp, Hobs. rewrite drain_pendingPayments.
      unfold set_stage. simpl. rewrite Hp, Hobs.
      split; [apply JSMapFacts.get_delete_eq|easy]. }
    destruct (startsWith s "{"); simpl in *; [|apply Hst].
    destruct (includes s "sourceToken"); simpl in *; [|apply Hst].
    subst json_ok. apply Hst.
Qed.

(** The timer of the registered request of [example_registered] fires. *)
Lemma C6_entry_removed_before_waiters_resume_witness :
  JSMap.get "e1" (pendingPayments (fireTimeout example_registered 0)) = None /\
  observed (fireTimeout example_registered 0) = observed example_registered.
Proof.
  destruct (proj1 (C6_entry_removed_before_waiters_resume example_registered)
              0%nat (mkTimer "e1" (ResolveOf 0) 120000))
    as (H1 & H2 & _).
  - reflexivity.
  - reflexivity.
  - split; [exact H1|exact H2].
Defined.
(** ** Timeout *)

Lemma fold_run_job_timer_fired js st t :
  timers st !! t = Some None ->
  timers (fold_left run_job js st) !! t = Some None.
Proof.
  revert st. induction js as [|j js IH]; intros st H; simpl; [easy|].
  apply IH. unfold run_job.
  destruct (clears (fst j)) as [t'|]; cbn [timers]; [|easy].
  unfold clearTimeout.
  destruct (decide (t' = t)) as [->|Hne].
  - rewrite list_lookup_insert_eq; [easy|]. now apply lookup_lt_Some in H.
  - now rewrite list_lookup_insert_ne.
Qed.

Lemma drain_timer_fired st t :
  timers st !! t = Some None -> timers (drain st) !! t = Some None.
Proof.
  intros H. unfold drain, run_queue.
  now apply fold_run_job_timer_fired, fold_run_job_timer_fired.
Qed.

(** Registration arms a timer for the new entry whose callback resolves
    the promise of the returned handle, which is pending. *)
Lemma sendPaymentRequest_resume_spec st unicityId userPubkey orderId amount
    eventId now :
  let r := sendPaymentRequest_resume st unicityId userPubkey orderId amount
             eventId now in
  h_eventId (snd r) = eventId /\
  h_promise (snd r) = length (promises st) /\
  h_timer (snd r) = length (timers st) /\
  timers (fst r) !! h_timer (snd r)
  = Some (Some (mkTimer eventId (ResolveOf (h_promise (snd r)))
                  (paymentTimeoutSeconds (config st) * 1000))) /\
  promises (fst r) !! h_promise (snd r) = Some (mkPromise None []) /\
  JSMap.get eventId (pendingPayments (fst r))
  = Some (PendingPayment.mk eventId unicityId userPubkey orderId amount
            (coinId (config st)) now (length (cells st))) /\
  cells (fst r) !! length (cells st) = Some (ResolveOf (h_promise (snd r))).
Proof.
  simpl. repeat split.
  - rewrite lookup_app_r by lia. now rewrite Nat.sub_diag.
  - rewrite lookup_app_r by lia. now rewrite Nat.sub_diag.
  - apply JSMapFacts.get_set_eq.
  - rewrite lookup_app_r by lia. now rewrite Nat.sub_diag.
Qed.

(** What the timer does reach.  When the timer of a live entry fires
    while the promise created at registration is still pending, then after
    the callback and the microtask checkpoint: the entry is gone, the
    promise is settled with [false], every caller that was waiting on that
    promise has been given [false] (none, if nobody was waiting), the
    timer is spent and the callback itself has not touched the orders.
    An inbound event that then names this request as its reply-reference,
    from a sender with no other live entry, matches nothing and is
    dropped. *)
Lemma timeout_settles_registration_promise (st : State) (t : nat)
    (tm : Timer) (p : nat) (rs : list Reaction) :
  timers st !! t = Some (Some tm) ->
  timer_resolve tm = ResolveOf p ->
  JSMap.has (timer_eventId tm) (pendingPayments st) = true ->
  promises st !! p = Some (mkPromise None rs) ->
  jobs st = [] ->
  let st' := step st (Timeout t) in
  JSMap.get (timer_eventId tm) (pendingPayments st') = None /\
  promises st' !! p = Some (mkPromise (Some false) []) /\
  observed st' = observed st ++ resumed (map (fun r => (r, false)) rs) /\
  timers st' !! t = Some None /\
  orderService st' = orderService st /\
  forall ev,
    getReplyToEventId ev = Some (timer_eventId tm) ->
    (forall k pp, In (k, pp) (pendingPayments st') ->
                  PendingPayment.userPubkey pp <> getSender ev) ->
    dropped st' ev.
Proof.
  intros Ht Hr Hlive Hp Hj st'.
  assert (Hblock : block st (Timeout t)
    = with_promises
        (with_pendingPayments (with_timers st (<[t := None]> (timers st)))
           (JSMap.delete (timer_eventId tm) (pendingPayments st)))
        (<[p := mkPromise (Some false) []]> (promises st))
        (map (fun r => (r, false)) rs)).
  { simpl. rewrite (fireTimeout_live _ _ _ Ht Hlive), Hr. simpl.
    unfold resolve_promise. simpl. now rewrite Hp, Hj. }
  assert (Hpp : pendingPayments st'
                = JSMap.delete (timer_eventId tm) (pendingPayments st)).
  { subst st'. unfold step. now rewrite drain_pendingPayments, Hblock. }
  assert (Hget : JSMap.get (timer_eventId tm) (pendingPayments st') = None).
  { rewrite Hpp. apply JSMapFacts.get_delete_eq. }
  split; [exact Hget|]. split; [|split; [|split; [|split]]].
  - subst st'. unfold step. rewrite drain_promises, Hblock. simpl.
    apply list_lookup_insert_eq. now apply lookup_lt_Some in Hp.
  - subst st'. unfold step. now rewrite drain_observed, Hblock.
  - subst st'. unfold step. apply drain_timer_fired.
    rewrite Hblock. simpl. apply list_lookup_insert_eq.
    now apply lookup_lt_Some in Ht.
  - subst st'. unfold step. now rewrite drain_orderService, Hblock.
  - intros ev Hev Hsender.
    assert (Hc : correlate st' ev = None).
    { unfold correlate.
      assert (matchByReplyTo st' ev = None) as ->.
      { apply matchByReplyTo_None. destruct (getReplyToEventId ev) as [r|];
          [|now left]. injection Hev as ->. right. right. eauto. }
      assert (matchBySender st' (getSender ev) = None) as ->; [|easy].
      apply JSMapFacts.find_first_None. intros k pp Hin.
      apply String.eqb_neq. eauto. }
    split; [exact Hc|]. unfold handle_entry, handle_begin. rewrite Hc.
    now destruct (negb (client st')), (negb (date_is_valid ev)),
      (negb (isTokenTransfer ev)).
Qed.

(** The request of [example_registered] with one caller waiting: the
    timer fires, the caller gets [false], a late reply is dropped and the
    order is still to be paid. *)
Lemma timeout_settles_registration_promise_example :
  JSMap.get "e1" (pendingPayments example_timed_out) = None /\
  observed example_timed_out = [(7%nat, false)] /\
  OrderService.statusOf (orderService example_timed_out) "o1"
  = Some pending_payment /\
  dropped example_timed_out example_reply.
Proof.
  assert (Ht : timers example_waiting !! 0%nat
               = Some (Some (mkTimer "e1" (ResolveOf 0) 120000)))
    by reflexivity.
  assert (Hl : JSMap.has "e1" (pendingPayments example_waiting) = true)
    by reflexivity.
  assert (Hp : promises example_waiting !! 0%nat
               = Some (mkPromise None [mkReaction 7 (Some 0%nat)]))
    by reflexivity.
  assert (Hj : jobs example_waiting = []) by reflexivity.
  destruct (timeout_settles_registration_promise example_waiting 0%nat
              (mkTimer "e1" (ResolveOf 0) 120000) 0%nat
              [mkReaction 7 (Some 0%nat)] Ht eq_refl Hl Hp Hj)
    as (H1 & _ & H3 & _ & H5 & H6).
  split; [exact H1|]. split; [exact H3|]. split; [reflexivity|].
  apply H6; [reflexivity|].
  intros k pp Hin. exfalso. exact Hin.
Qed.

(** ** Races between the handler, the timer and the tools *)

(** C1.  In [example_race] the timer settles the request first, with
    [false], and the handler settles it again, with [true]: the second
    settlement marks the order paid and resumes the caller attached by
    [waitForExistingPayment] with [true], while the caller of
    [waitForPayment] has been given [false].  In
    [example_timeout_attached] the timer alone settles the request: the
    attached caller is never resumed, its promise stays pending with the
    entry gone. *)
Theorem C1_second_settlement_has_effect :
  (outcomes example_race 7 = [false] /\
   outcomes example_race 8 = [true] /\
   OrderService.statusOf (orderService example_race) "o1" = Some paid) /\
  (outcomes example_timeout_attached 7 = [false] /\
   outcomes example_timeout_attached 8 = [] /\
   promises example_timeout_attached !! 1%nat
   = Some (mkPromise None [mkReaction 8 None]) /\
   pendingPayments example_timeout_attached = [] /\
   frames example_timeout_attached = []).
Proof. repeat split. Qed.

(** C7.  The timer settles the request with [false] and removes the
    entry, but not for everybody and not for good.  In
    [example_attached] the entry is live and its timer armed; when the
    timer fires the entry is removed and the caller of [waitForPayment]
    is given [false], while the caller attached by
    [waitForExistingPayment] is given nothing: its promise stays pending.
    In [example_timeout_in_flight] the timer fires while a handler run
    that had matched a transfer to the request is suspended: the caller
    is given [false] and the order is still [pending_payment], and when
    the handler resumes the order becomes [paid]. *)
Theorem C7_timeout_skips_attached_waiter :
  (timers example_attached !! 0%nat
   = Some (Some (mkTimer "e1" (ResolveOf 0) 120000)) /\
   JSMap.has "e1" (pendingPayments example_attached) = true /\
   promises example_attached !! 0%nat
   = Some (mkPromise None [mkReaction 7 (Some 0%nat)]) /\
   promises example_attached !! 1%nat
   = Some (mkPromise None [mkReaction 8 None])) /\
  (JSMap.get "e1" (pendingPayments (step example_attached (Timeout 0)))
   = None /\
   outcomes (step example_attached (Timeout 0)) 7 = [false] /\
   outcomes (step example_attached (Timeout 0)) 8 = [] /\
   promises (step example_attached (Timeout 0)) !! 1%nat
   = Some (mkPromise None [mkReaction 8 None])) /\
  (JSMap.get "e1" (pendingPayments example_timeout_in_flight) = None /\
   outcomes example_timeout_in_flight 7 = [false] /\
   OrderService.statusOf (orderService example_timeout_in_flight) "o1"
   = Some pending_payment /\
   OrderService.statusOf (orderService example_paid_after_timeout) "o1"
   = Some paid /\
   outcomes example_paid_after_timeout 7 = [false]).
Proof. repeat split; vm_compute; reflexivity. Qed.

(** [confirm_order] on an order that is still to be paid sends a payment
    request and registers an entry under the event id it gets back,
    whether or not the order already has a live entry. *)
Lemma confirm_order_sends_and_registers st unicityId order_id pk message
    eventId now w order :
  client st = true -> pk <> "" ->
  OrderService.getOrder (orderService st) order_id = Some order ->
  Order.unicityId order = unicityId ->
  Order.status order = pending_payment ->
  outbox (fst (confirm_order st unicityId order_id (Some pk) message eventId
                 now w))
  = outbox st
    ++ [mkOutbound pk (Order.totalPrice order) (coinId (config st))
          (nametag (config st)) message] /\
  JSMap.get eventId
    (pendingPayments
       (fst (confirm_order st unicityId order_id (Some pk) message eventId
               now w)))
  = Some (PendingPayment.mk eventId unicityId pk (Order.orderId order)
            (Order.totalPrice order) (coinId (config st)) now
            (length (cells st))).
Proof.
  intros Hcl Hpk Hget Hu Hs. unfold confirm_order.
  rewrite (proj2 (truthy_true pk) Hpk), Hget, Hu, String.eqb_refl, Hs. simpl.
  unfold sendPaymentRequest, sendPaymentRequest_call. rewrite Hcl.
  unfold sendPaymentRequest_resume, new_promise, waitForPayment. simpl.
  destruct (then_same
    (with_timers
       (with_pendingPayments
          (with_cells
             (with_promises
                (with_orderService
                   (with_outbox st
                      (outbox st ++
                       [mkOutbound pk (Order.totalPrice order)
                          (coinId (config st)) (nametag (config st)) message]))
                   (OrderService.linkPaymentToOrder (orderService st) eventId
                      (Order.orderId order)))
                (promises st ++ [mkPromise None []]) (jobs st))
             (cells st ++ [ResolveOf (length (promises st))]))
          (JSMap.set eventId
             (PendingPayment.mk eventId unicityId pk (Order.orderId order)
                (Order.totalPrice order) (coinId (config st)) now
                (length (cells st)))
             (pendingPayments st)))
       (timers st ++
        [Some (mkTimer eventId (ResolveOf (length (promises st)))
                 (paymentTimeoutSeconds (config st) * 1000))]))
    (length (promises st))
    (mkReaction w (Some (length (timers st)))))
    as (_ & _ & _ & Hp & _ & _ & Ho & _).
  simpl in Hp, Ho. split.
  - exact Ho.
  - rewrite Hp. apply JSMapFacts.get_set_eq.
Qed.

(** C3.  After [place_order] the order has a live entry, which
    [getPendingPaymentForOrder] finds; [confirm_order] nevertheless sends a
    second payment request and registers a second entry for the same order
    under the new event id, and waits on that one.  When the buyer pays the
    first request, the order becomes [paid] and the caller of
    [confirm_order] is answered with a payment timeout. *)
Theorem C3_confirm_order_registers_second_entry :
  getPendingPaymentForOrder example_placed "o1" = Some "e1" /\
  snd example_confirm = ConfirmWaiting (mkHandle "e2" 1 1) /\
  JSMap.keys (pendingPayments (fst example_confirm)) = ["e1"; "e2"] /\
  map PendingPayment.orderId (JSMap.values (pendingPayments (fst example_confirm)))
  = ["o1"; "o1"] /\
  length (outbox example_placed) = 1%nat /\
  length (outbox (fst example_confirm)) = 2%nat /\
  OrderService.statusOf (orderService example_paid_first) "o1" = Some paid /\
  outcomes example_paid_first 7 = [false] /\
  confirm_order_answer false = inl PaymentTimeout.
Proof. repeat split. Qed.

(** ** Registration order *)

Lemma precedes_sublist (l l' : list string) k k' :
  sublist l l' -> precedes k k' l -> precedes k k' l'.
Proof.
  intros Hsub (l1 & l2 & l3 & ->).
  apply sublist_app_l in Hsub. destruct Hsub as (m1 & m2 & -> & _ & Hsub).
  apply sublist_cons_l in Hsub. destruct Hsub as (a1 & a2 & -> & Hsub).
  apply sublist_app_l in Hsub. destruct Hsub as (b1 & b2 & -> & _ & Hsub).
  apply sublist_cons_l in Hsub. destruct Hsub as (c1 & c2 & -> & _).
  exists (m1 ++ a1), (b1 ++ c1), c2. now rewrite <- !app_assoc.
Qed.

Lemma keys_set_fresh {V} k (v : V) (m : JSMap.t V) :
  ~ In k (JSMap.keys m) -> JSMap.keys (JSMap.set k v m) = JSMap.keys m ++ [k].
Proof.
  intros H. apply JSMapFacts.get_None_not_key in H.
  rewrite (JSMapFacts.set_fresh _ _ _ H). unfold JSMap.keys.
  now rewrite map_app.
Qed.

(** Apart from registration, a piece of code leaves the map as it is or
    deletes one key. *)
Lemma block_pendingPayments st a :
  match a with
  | Resume unicityId userPubkey orderId amount eventId now =>
      pendingPayments (block st a)
      = JSMap.set eventId
          (PendingPayment.mk eventId unicityId userPubkey orderId amount
             (coinId (config st)) now (length (cells st)))
          (pendingPayments st)
  | _ =>
      pendingPayments (block st a) = pendingPayments st \/
      exists k, pendingPayments (block st a)
                = JSMap.delete k (pendingPayments st)
  end.
Proof.
  destruct a as [u pr q sz fr now|o|pk amt msg|u pk o amt e now|h w|e w|ev
                 |i tj ok|i ok now|t]; simpl.
  - now left.
  - now left.
  - left. unfold sendPaymentRequest_call. now destruct (client st).
  - reflexivity.
  - left. apply then_same.
  - left. unfold waitForExistingPayment.
    destruct (JSMap.get e (pendingPayments st)) as [pp|]; [|easy].
    unfold new_promise.
    destruct (cells _ !! PendingPayment.resolve pp);
      now rewrite then_pendingPayments.
  - left. unfold handle_entry, handle_begin.
    destruct (negb (client st)); [easy|].
    destruct (negb (date_is_valid ev)); [easy|].
    destruct (negb (isTokenTransfer ev)); [easy|].
    now destruct (correlate st ev) as [[k p]|].
  - unfold handle_parsed. destruct (frames st !! i) as [f|]; [|now left].
    destruct (stage f); try now left.
    destruct tj as [s|]; [|now left].
    destruct (resolve_then_delete_spec st f false) as (Hp & _).
    simpl in Hp.
    destruct (negb (startsWith s "{") || negb (includes s "sourceToken"));
      [right; exists (pendingKey f); exact Hp|].
    destruct (negb ok); [right; exists (pendingKey f); exact Hp|now left].
  - unfold handle_processed. destruct (frames st !! i) as [f|]; [|now left].
    destruct (stage f); try now left.
    right. exists (pendingKey f). unfold set_stage. simpl.
    destruct ok.
    + match goal with |- context [call_resolve ?s ?p ?b] =>
        destruct (call_resolve_same s p b) as (_ & _ & _ & -> & _) end.
      reflexivity.
    + now destruct (call_resolve_same st (pending f) false)
        as (_ & _ & _ & -> & _).
  - unfold fireTimeout. destruct (timers st !! t) as [[tm|]|]; try now left.
    simpl. destruct (JSMap.has (timer_eventId tm) (pendingPayments st));
      [|now left].
    right. exists (timer_eventId tm).
    match goal with |- context [call_resolver ?s ?r ?b] =>
      destruct (call_resolver_same r s b) as (_ & _ & _ & -> & _) end.
    reflexivity.
Qed.

Lemma step_keys st a :
  (forall e, In e (registrations [a]) ->
             ~ In e (JSMap.keys (pendingPayments st))) ->
  sublist (JSMap.keys (pendingPayments (step st a)))
          (JSMap.keys (pendingPayments st) ++ registrations [a]).
Proof.
  intros Hfresh. unfold step. rewrite drain_pendingPayments.
  pose proof (block_pendingPayments st a) as H.
  destruct a; simpl registrations in *;
    try (rewrite app_nil_r; destruct H as [->|[k ->]];
         [reflexivity|apply JSMapFacts.keys_delete_sublist]).
  rewrite H, keys_set_fresh; [reflexivity|].
  apply Hfresh. now left.
Qed.

Lemma registrations_cons a tr :
  registrations (a :: tr) = registrations [a] ++ registrations tr.
Proof. destruct a; simpl; now rewrite ?app_nil_r. Qed.

(** The live keys, in iteration order, are a subsequence of the event ids
    in the order of their registration. *)
Lemma run_keys tr st :
  NoDup (JSMap.keys (pendingPayments st) ++ registrations tr) ->
  sublist (JSMap.keys (pendingPayments (run st tr)))
          (JSMap.keys (pendingPayments st) ++ registrations tr).
Proof.
  revert st. induction tr as [|a tr IH]; intros st Hnd.
  - simpl. now rewrite app_nil_r.
  - change (run st (a :: tr)) with (run (step st a) tr).
    rewrite registrations_cons, app_assoc in Hnd |- *.
    assert (Hs : sublist (JSMap.keys (pendingPayments (step st a)))
                   (JSMap.keys (pendingPayments st) ++ registrations [a])).
    { apply step_keys. intros e He Hin.
      apply NoDup_app in Hnd. destruct Hnd as (Hnd & _).
      apply NoDup_app in Hnd. destruct Hnd as (_ & Hdisj & _).
      apply (Hdisj e); now apply list_elem_of_In. }
    etransitivity; [apply IH|].
    + eapply sublist_NoDup; [exact Hnd|]. now apply sublist_app.
    + now apply sublist_app.
Qed.

(** C5.  In every state the server reaches by registering requests under
    pairwise distinct event ids, when the reply-reference lookup yields
    nothing the handler matches by sender: the entry it selects is a live
    entry of that sender, and every other live entry of that sender was
    registered after it; and it does select one whenever a live entry of
    that sender exists (the event ids being non-empty, as those of the SDK
    are). *)
Theorem C5_fallback_selects_earliest_registered (cfg : Config)
    (tr : list Action) (ev : Event) :
  NoDup (registrations tr) ->
  matchByReplyTo (run (init cfg) tr) ev = None ->
  (forall k p,
     correlate (run (init cfg) tr) ev = Some (k, p) ->
     PendingPayment.userPubkey p = getSender ev /\
     In (k, p) (pendingPayments (run (init cfg) tr)) /\
     forall k' p',
       In (k', p') (pendingPayments (run (init cfg) tr)) ->
       PendingPayment.userPubkey p' = getSender ev ->
       k' <> k ->
       precedes k k' (registrations tr)) /\
  (~ In "" (registrations tr) ->
   forall k0 p0,
     In (k0, p0) (pendingPayments (run (init cfg) tr)) ->
     PendingPayment.userPubkey p0 = getSender ev ->
     exists k p, correlate (run (init cfg) tr) ev = Some (k, p)).
Proof.
  intros Hnd Hreply.
  pose proof (run_keys tr (init cfg) Hnd) as Hsub. simpl in Hsub.
  set (st := run (init cfg) tr) in *.
  split.
  - intros k p Hc.
    assert (Hm : matchBySender st (getSender ev) = Some (k, p)).
    { unfold correlate in Hc. rewrite Hreply in Hc.
      destruct (matchBySender st (getSender ev)) as [[k0 p0]|];
        [|discriminate].
      destruct (truthy k0); [|discriminate]. now injection Hc as -> ->. }
    apply JSMapFacts.find_first_Some in Hm.
    destruct Hm as (m1 & m2 & Hpp & Hp & Hpre).
    apply String.eqb_eq in Hp. split; [exact Hp|]. split.
    + rewrite Hpp. apply in_or_app. right. now left.
    + intros k' p' Hin Hp' Hne.
      apply (precedes_sublist _ _ _ _ Hsub).
      rewrite Hpp in Hin |- *. apply in_app_or in Hin.
      destruct Hin as [Hin|[[= <- <-]|Hin]].
      * apply Hpre in Hin. apply String.eqb_neq in Hin. congruence.
      * congruence.
      * apply in_split in Hin. destruct Hin as (n1 & n2 & ->).
        exists (JSMap.keys m1), (JSMap.keys n1), (JSMap.keys n2).
        unfold JSMap.keys. now rewrite !map_app; simpl; rewrite map_app.
  - intros Hids k0 p0 Hin0 Hp0. unfold correlate. rewrite Hreply.
    destruct (matchBySender st (getSender ev)) as [[k p]|] eqn:Em.
    + assert (Hk : truthy k = true).
      { apply truthy_true. intros ->. apply Hids.
        apply JSMapFacts.find_first_Some in Em.
        destruct Em as (m1 & m2 & Hpp & _).
        apply list_elem_of_In.
        apply (elem_of_sublist (JSMap.keys (pendingPayments st)));
          [|exact Hsub].
        apply list_elem_of_In. unfold JSMap.keys. rewrite Hpp, map_app.
        apply in_or_app. right. now left. }
      rewrite Hk. now exists k, p.
    + exfalso. unfold matchBySender in Em.
      apply (proj1 (JSMapFacts.find_first_None _ _)) with (k := k0) (v := p0)
        in Em; [|exact Hin0].
      apply String.eqb_neq in Em. contradiction.
Qed.

(** Of two live requests to one buyer, a transfer that names neither is
    matched to the one registered first. *)
Lemma C5_fallback_selects_earliest_registered_witness :
  (exists k p,
     correlate (run (init example_config) example_two_registrations)
       example_unreferenced = Some (k, p)) /\
  correlate (run (init example_config) example_two_registrations)
    example_unreferenced
  = Some ("e1", example_entry1) /\
  precedes "e1" "e2" (registrations example_two_registrations).
Proof.
  assert (Hnd : NoDup (registrations example_two_registrations)).
  { simpl. apply NoDup_cons. split.
    - intros H. apply list_elem_of_In in H. simpl in H.
      now destruct H as [[=]|[]].
    - apply NoDup_cons. split; [|constructor].
      intros H. apply list_elem_of_In in H. exact H. }
  destruct (C5_fallback_selects_earliest_registered example_config
              example_two_registrations example_unreferenced Hnd eq_refl)
    as [Hsel Hex].
  assert (Hids : ~ In "" (registrations example_two_registrations))
    by (simpl; intros [H|[H|[]]]; discriminate).
  split.
  - apply (Hex Hids "e2" example_entry2).
    + simpl. right. now left.
    + reflexivity.
  - split; [reflexivity|].
    apply (proj2 (proj2 (Hsel "e1" example_entry1 eq_refl))
             "e2" example_entry2).
    + simpl. right. now left.
    + reflexivity.
    + discriminate.
Defined.

(** ** The promise store as a function *)

Lemma resolve_promise_eq st q b :
  resolve_promise st q b
  = with_promises st (fst (settle_one (promises st) q b))
      (jobs st ++ snd (settle_one (promises st) q b)).
Proof.
  unfold resolve_promise, settle_one.
  destruct (promises st !! q) as [[[v|] rs]|]; simpl;
    rewrite ?app_nil_r; now destruct st.
Qed.

Lemma call_resolver_eq r st b :
  call_resolver st r b
  = with_promises st (fst (settle_all (promises st) r b))
      (jobs st ++ snd (settle_all (promises st) r b)).
Proof.
  revert st. induction r as [q|r IH q]; intros st; simpl.
  - apply resolve_promise_eq.
  - rewrite IH, resolve_promise_eq. simpl.
    destruct (settle_all (promises st) r b) as [ps1 js1]. simpl.
    destruct (settle_one ps1 q b) as [ps2 js2]. simpl.
    now rewrite app_assoc.
Qed.

(** ** The two versions of the service: simulation *)

Lemma mentions_dec p r : {mentions p r} + {~ mentions p r}.
Proof.
  induction r as [q|r IH q]; simpl.
  - apply Nat.eq_dec.
  - destruct IH as [H|H]; [left; now left|].
    destruct (Nat.eq_dec q p) as [->|Hne]; [left; now right|].
    right. tauto.
Qed.

Lemma bounded_not_mentions n r : bounded n r -> ~ mentions n r.
Proof.
  induction r as [q|r IH q]; simpl.
  - lia.
  - intros [H1 H2] [H|H]; [now apply IH|lia].
Qed.

Lemma settle_one_alter_ne ps p q t b :
  q <> p ->
  settle_one (alter (markP t) p ps) q b
  = (alter (markP t) p (fst (settle_one ps q b)), snd (settle_one ps q b)).
Proof.
  intros Hne. unfold settle_one.
  rewrite list_lookup_alter_ne by congruence.
  destruct (ps !! q) as [[[v|] rs]|]; simpl; try reflexivity.
  f_equal. rewrite !list_insert_alter.
  apply list_alter_alter_ne. congruence.
Qed.

Lemma settle_all_alter_ne ps p r t b :
  ~ mentions p r ->
  settle_all (alter (markP t) p ps) r b
  = (alter (markP t) p (fst (settle_all ps r b)), snd (settle_all ps r b)).
Proof.
  revert ps. induction r as [q|r IH q]; intros ps Hm; simpl in *.
  - now apply settle_one_alter_ne.
  - rewrite IH by tauto.
    destruct (settle_all ps r b) as [ps1 js1]. simpl.
    rewrite settle_one_alter_ne by tauto.
    now destruct (settle_one ps1 q b) as [ps2 js2].
Qed.

Lemma settle_one_alter_eq ps p t b :
  settle_one (alter (markP t) p ps) p b
  = (alter (markP t) p (fst (settle_one ps p b)),
     map (markJ t) (snd (settle_one ps p b))).
Proof.
  unfold settle_one. rewrite list_lookup_alter_eq.
  destruct (ps !! p) as [[[v|] rs]|]; simpl; try reflexivity.
  f_equal.
  - rewrite !list_insert_alter, !list_alter_alter_eq.
    now apply list_alter_ext.
  - rewrite !map_map. reflexivity.
Qed.

Lemma settle_one_lookup_ne ps p q b :
  q <> p -> fst (settle_one ps q b) !! p = ps !! p.
Proof.
  intros Hne. unfold settle_one.
  destruct (ps !! q) as [[[v|] rs]|]; simpl; try reflexivity.
  now apply list_lookup_insert_ne.
Qed.

Lemma settle_all_lookup_ne ps p r b :
  ~ mentions p r -> fst (settle_all ps r b) !! p = ps !! p.
Proof.
  revert ps. induction r as [q|r IH q]; intros ps Hm; simpl in *.
  - now apply settle_one_lookup_ne.
  - specialize (IH ps). destruct (settle_all ps r b) as [ps1 js1].
    pose proof (settle_one_lookup_ne ps1 p q b) as H.
    destruct (settle_one ps1 q b) as [ps2 js2]. simpl in *.
    rewrite H by tauto. apply IH. tauto.
Qed.

Lemma clear_all_lookup js ts i tm :
  clear_all js ts !! i = Some (Some tm) -> ts !! i = Some (Some tm).
Proof.
  unfold clear_all. revert ts. induction js as [|j js IH]; intros ts; simpl.
  - easy.
  - intros H. apply IH in H. destruct (clears (fst j)) as [t'|]; [|easy].
    unfold clearTimeout in H.
    destruct (decide (t' = i)) as [->|Hne].
    + apply list_lookup_insert_Some in H.
      destruct H as [(_ & [=] & _)|(Hn & _)]; congruence.
    + now rewrite list_lookup_insert_ne in H.
Qed.

Lemma timers_related_insert t e tsE tsL pp i :
  timers_related t e tsE tsL pp ->
  timers_related t e (<[i := None]> tsE) (<[i := None]> tsL) pp.
Proof.
  intros H j. destruct (decide (i = j)) as [->|Hne].
  - destruct (H j) as [Heq|(-> & Hn & Hd)].
    + left. destruct (decide (j < length tsE)%nat) as [Hlt|Hge].
      * rewrite list_lookup_insert_eq by easy.
        rewrite list_lookup_insert_eq; [easy|].
        apply lookup_lt_is_Some. rewrite <- Heq.
        now apply lookup_lt_is_Some.
      * rewrite !list_insert_ge; [easy| |lia].
        apply Nat.nlt_ge. intros Hlt.
        apply lookup_lt_is_Some in Hlt. rewrite <- Heq in Hlt.
        apply lookup_lt_is_Some in Hlt. lia.
    + right. split; [easy|]. split; [|easy].
      apply list_lookup_insert_eq. now apply lookup_lt_Some in Hn.
  - rewrite !list_lookup_insert_ne by easy. apply H.
Qed.

Lemma timers_related_clear_all t e js tsE tsL pp :
  timers_related t e tsE tsL pp ->
  timers_related t e (clear_all js tsE) (clear_all js tsL) pp.
Proof.
  unfold clear_all. revert tsE tsL.
  induction js as [|j js IH]; intros tsE tsL H; simpl; [easy|].
  apply IH. destruct (clears (fst j)); [|easy].
  now apply timers_related_insert.
Qed.

Lemma timers_related_clear_left t e tsE tsL pp :
  timers_related t e tsE tsL pp -> JSMap.has e pp = false ->
  timers_related t e (<[t := None]> tsE) tsL pp.
Proof.
  intros H Hd j. destruct (decide (t = j)) as [<-|Hne].
  - destruct (decide (t < length tsE)%nat) as [Hlt|Hge].
    + destruct (H t) as [Heq|(_ & Hn & _)].
      * destruct (tsL !! t) as [[tm|]|] eqn:El.
        -- right. split; [easy|]. split; [now apply list_lookup_insert_eq|easy].
        -- left. now rewrite list_lookup_insert_eq.
        -- apply lookup_lt_is_Some in Hlt. rewrite Heq in Hlt.
           now destruct Hlt.
      * right. split; [easy|]. split; [now apply list_lookup_insert_eq|easy].
    + rewrite list_insert_ge by lia. apply H.
  - rewrite list_lookup_insert_ne by easy. apply H.
Qed.

Lemma timers_related_mono t e tsE tsL (pp pp' : JSMap.t PendingPayment.t) :
  (JSMap.has e pp = false -> JSMap.has e pp' = false) ->
  timers_related t e tsE tsL pp -> timers_related t e tsE tsL pp'.
Proof. intros Hd H i. destruct (H i) as [?|(? & ? & ?)]; auto. Qed.

Lemma has_delete_false {V} e k (m : JSMap.t V) :
  JSMap.has e m = false -> JSMap.has e (JSMap.delete k m) = false.
Proof.
  unfold JSMap.has. destruct (String.eqb_spec k e) as [->|Hne].
  - now rewrite JSMapFacts.get_delete_eq.
  - now rewrite JSMapFacts.get_delete_ne.
Qed.

Lemma carry_out_unchanged st : jobs st = [] -> carry_out st (unchanged st) = st.
Proof.
  intros H. unfold carry_out, updated, unchanged, clear_all. simpl.
  rewrite app_nil_r. destruct st; simpl in *. now subst.
Qed.

Lemma call_resolve_eq st pd b :
  call_resolve st pd b
  = with_promises st
      (fst (apply_effect (promises st)
              (option_map (fun r => (r, b))
                 (cells st !! PendingPayment.resolve pd))))
      (jobs st ++
       snd (apply_effect (promises st)
              (option_map (fun r => (r, b))
                 (cells st !! PendingPayment.resolve pd)))).
Proof.
  unfold call_resolve.
  destruct (cells st !! PendingPayment.resolve pd) as [r|]; simpl.
  - apply call_resolver_eq.
  - rewrite app_nil_r. now destruct st.
Qed.

(** Every action of the environment is its plan carried out. *)
Lemma step_env st a :
  jobs st = [] -> env_action a = true -> step st a = carry_out st (plan st a).
Proof.
  intros Hj Ha. unfold step.
  assert (Hid : forall os pp ts fs,
    drain (mkState (client st) (config st) os pp (cells st) (promises st)
             (jobs st) (observed st) ts (outbox st) fs)
    = updated st os pp ts fs None).
  { intros. rewrite drain_eq. unfold updated, clear_all. simpl.
    rewrite Hj. simpl. now rewrite app_nil_r. }
  assert (Hsame : drain st = carry_out st (unchanged st)).
  { rewrite carry_out_unchanged by easy. now apply drain_idle. }
  destruct a as [| | | | | |ev|i tj ok|i ok now|i]; try discriminate; simpl.
  - unfold handle_entry, handle_begin.
    destruct (negb (client st)); [exact Hsame|].
    destruct (negb (date_is_valid ev)); [exact Hsame|].
    destruct (negb (isTokenTransfer ev)); [exact Hsame|].
    destruct (correlate st ev) as [[k pd]|]; [|exact Hsame].
    apply Hid.
  - unfold handle_parsed. destruct (frames st !! i) as [f|]; [|exact Hsame].
    destruct (stage f); try exact Hsame.
    destruct tj as [s|]; [|apply Hid].
    assert (Hrej : drain (set_stage (resolve_then_delete st f false) i f
                            Finished)
                   = carry_out st (rejected_plan st i f)).
    { unfold set_stage, resolve_then_delete, carry_out, rejected_plan.
      rewrite call_resolve_eq, drain_eq. unfold updated. simpl.
      now rewrite Hj. }
    destruct (negb (startsWith s "{") || negb (includes s "sourceToken"));
      [exact Hrej|].
    destruct (negb ok); [exact Hrej|apply Hid].
  - unfold handle_processed. destruct (frames st !! i) as [f|]; [|exact Hsame].
    destruct (stage f); try exact Hsame.
    unfold set_stage, carry_out.
    destruct ok; rewrite call_resolve_eq, drain_eq; unfold updated; simpl;
      now rewrite Hj.
  - unfold fireTimeout. destruct (timers st !! i) as [[tm|]|]; try exact Hsame.
    simpl. destruct (JSMap.has (timer_eventId tm) (pendingPayments st)).
    + rewrite call_resolver_eq, drain_eq. unfold carry_out, updated. simpl.
      now rewrite Hj.
    + apply Hid.
Qed.

Lemma correlate_In st ev k pd :
  correlate st ev = Some (k, pd) -> In (k, pd) (pendingPayments st).
Proof.
  unfold correlate.
  destruct (matchByReplyTo st ev) as [[k0 p0]|] eqn:Em.
  - apply matchByReplyTo_Some in Em. destruct Em as (_ & _ & Hg).
    destruct (truthy k0); [|discriminate]. intros [= <- <-].
    now apply JSMapFacts.get_Some_In.
  - destruct (matchBySender st (getSender ev)) as [[k0 p0]|] eqn:Es;
      [|discriminate].
    destruct (truthy k0); [|discriminate]. intros [= <- <-].
    apply JSMapFacts.find_first_Some in Es.
    destruct Es as (m1 & m2 & -> & _). apply in_or_app. right. now left.
Qed.
Section Session.
Variables (p t c w : nat) (e : string).

Lemma updated_inv L os pp ts fs eff :
  session_inv p t c w e L ->
  (forall kp, In kp pp -> In kp (pendingPayments L)) ->
  (JSMap.has e (pendingPayments L) = false -> JSMap.has e pp = false) ->
  (forall j f, fs !! j = Some f ->
               PendingPayment.resolve (pending f) = c -> pendingKey f = e) ->
  (forall i tm, ts !! i = Some (Some tm) -> timers L !! i = Some (Some tm)) ->
  (forall r b, eff = Some (r, b) -> mentions p r ->
               r = ResolveOf p /\ JSMap.has e pp = false) ->
  session_inv p t c w e (updated L os pp ts fs eff).
Proof.
  intros I Hsub Hdead Hfr HtL Hsp. constructor; simpl.
  - apply (inv_cell _ _ _ _ _ _ I).
  - intros tm H. apply clear_all_lookup, HtL in H.
    now apply (inv_timer _ _ _ _ _ _ I).
  - intros i tm Hne H. apply clear_all_lookup, HtL in H.
    now apply (inv_timers _ _ _ _ _ _ I i).
  - intros k pd Hin. apply (inv_entry _ _ _ _ _ _ I). now apply Hsub.
  - exact Hfr.
  - intros b rs H. destruct eff as [[r b0]|]; simpl in H.
    + destruct (mentions_dec p r) as [Hm|Hm].
      * now apply (Hsp r b0).
      * rewrite settle_all_lookup_ne in H by easy.
        apply Hdead. now apply (inv_settled _ _ _ _ _ _ I b rs).
    + apply Hdead. now apply (inv_settled _ _ _ _ _ _ I b rs).
  - intros rs H. destruct eff as [[r b0]|]; simpl in H.
    + destruct (mentions_dec p r) as [Hm|Hm].
      * destruct (Hsp r b0 eq_refl Hm) as [-> _]. simpl in H.
        unfold settle_one in H.
        destruct (promises L !! p) as [[[v|] rs0]|] eqn:Ep; simpl in H.
        -- rewrite Ep in H. discriminate.
        -- rewrite list_lookup_insert_eq in H; [discriminate|].
           now apply lookup_lt_Some in Ep.
        -- rewrite Ep in H. discriminate.
      * rewrite settle_all_lookup_ne in H by easy.
        now apply (inv_waiting _ _ _ _ _ _ I).
    + now apply (inv_waiting _ _ _ _ _ _ I).
  - reflexivity.
Qed.

Lemma updated_related E L os pp tsE tsL fs eff :
  related p t e E L ->
  session_inv p t c w e L ->
  timers_related t e tsE tsL pp ->
  (forall r b, eff = Some (r, b) -> mentions p r ->
               r = ResolveOf p /\ JSMap.has e pp = false) ->
  related p t e (updated E os pp tsE fs eff) (updated L os pp tsL fs eff).
Proof.
  intros R I Hts Hsp.
  destruct R as [Rcl Rcf Ros Rpp Rcs Rps Rj Rob Rts Rox Rfs].
  unfold updated. rewrite Rcl, Rcf, Rcs, Rps, Rob, Rox.
  destruct eff as [[r b]|]; simpl.
  - destruct (mentions_dec p r) as [Hm|Hm].
    + destruct (Hsp r b eq_refl Hm) as [-> Hd]. simpl.
      rewrite settle_one_alter_eq. simpl.
      assert (HJ : snd (settle_one (promises L) p b) = []
                   \/ snd (settle_one (promises L) p b)
                      = [(mkReaction w None, b)]).
      { unfold settle_one.
        destruct (promises L !! p) as [[[v|] rs]|] eqn:Ep; simpl; auto.
        rewrite (inv_waiting _ _ _ _ _ _ I rs Ep). now right. }
      destruct HJ as [-> | ->]; constructor; simpl; try easy.
      now apply timers_related_clear_left.
    + rewrite settle_all_alter_ne by easy. simpl.
      constructor; simpl; try easy.
      now apply timers_related_clear_all.
  - constructor; simpl; easy.
Qed.

End Session.
Section Simulation.
Variables (p t c w : nat) (e : string).

Lemma correlate_related E L ev :
  pendingPayments E = pendingPayments L -> correlate E ev = correlate L ev.
Proof.
  intros H. unfold correlate, matchByReplyTo, matchBySender. now rewrite H.
Qed.

Lemma handle_begin_frames E L ev :
  related p t e E L ->
  frames (handle_entry E ev) = frames (handle_entry L ev).
Proof.
  intros R. unfold handle_entry, handle_begin.
  rewrite (rel_client _ _ _ _ _ R),
    (correlate_related E L ev (rel_pendingPayments _ _ _ _ _ R)).
  destruct (negb (client L)); [apply R|].
  destruct (negb (date_is_valid ev)); [apply R|].
  destruct (negb (isTokenTransfer ev)); [apply R|].
  destruct (correlate L ev) as [[k pd]|]; simpl; [|apply R].
  now rewrite (rel_frames _ _ _ _ _ R).
Qed.

Lemma plan_related E L a :
  related p t e E L -> session_inv p t c w e L -> env_action a = true ->
  plan_orderService (plan E a) = plan_orderService (plan L a) /\
  plan_pendingPayments (plan E a) = plan_pendingPayments (plan L a) /\
  plan_frames (plan E a) = plan_frames (plan L a) /\
  plan_effect (plan E a) = plan_effect (plan L a) /\
  timers_related t e (plan_timers (plan E a)) (plan_timers (plan L a))
    (plan_pendingPayments (plan L a)).
Proof.
  intros R I Ha.
  pose proof (rel_orderService _ _ _ _ _ R) as Ros.
  pose proof (rel_pendingPayments _ _ _ _ _ R) as Rpp.
  pose proof (rel_cells _ _ _ _ _ R) as Rcs.
  pose proof (rel_frames _ _ _ _ _ R) as Rfs.
  pose proof (rel_timers _ _ _ _ _ R) as Rts.
  assert (Hdel : forall k,
    timers_related t e (timers E) (timers L)
      (JSMap.delete k (pendingPayments L))).
  { intros k. eapply timers_related_mono; [|exact Rts].
    apply has_delete_false. }
  destruct a as [| | | | | |ev|i tj ok|i ok now|i]; try discriminate; simpl.
  - rewrite Ros, Rpp, (handle_begin_frames E L ev R). auto.
  - rewrite Rfs. destruct (frames L !! i) as [f|];
      [|unfold unchanged; simpl; auto].
    destruct (stage f); try (unfold unchanged; simpl; now auto).
    destruct tj as [s|]; simpl; [|rewrite Ros, Rpp; now auto].
    unfold rejected_plan.
    destruct (negb (startsWith s "{") || negb (includes s "sourceToken"));
      simpl; [rewrite Ros, Rpp, Rcs, Rfs; now auto|].
    destruct (negb ok); simpl; rewrite Ros, Rpp, ?Rcs, ?Rfs; now auto.
  - rewrite Rfs. destruct (frames L !! i) as [f|];
      [|unfold unchanged; simpl; auto].
    destruct (stage f); try (unfold unchanged; simpl; now auto).
    simpl. rewrite Ros, Rpp, Rcs. auto.
  - destruct (Rts i) as [Heq|(-> & Hn & Hd)].
    + rewrite Heq. destruct (timers L !! i) as [[tm|]|];
        try (unfold unchanged; simpl; now auto).
      rewrite Rpp.
      destruct (JSMap.has (timer_eventId tm) (pendingPayments L)); simpl;
        rewrite Ros, ?Rpp, Rfs; repeat split; try easy.
      * eapply timers_related_mono; [apply has_delete_false|].
        now apply timers_related_insert.
      * now apply timers_related_insert.
    + rewrite Hn. destruct (timers L !! t) as [[tm|]|] eqn:El;
        try (unfold unchanged; simpl; now auto).
      destruct (inv_timer _ _ _ _ _ _ I tm El) as [-> _].
      rewrite Hd. unfold unchanged; simpl.
      repeat split; try easy. intros j.
      destruct (decide (t = j)) as [<-|Hne].
      * left. rewrite Hn. symmetry. apply list_lookup_insert_eq.
        now apply lookup_lt_Some in El.
      * rewrite list_lookup_insert_ne by easy.
        destruct (Rts j) as [?|(-> & _)]; [now left|easy].
Qed.

Lemma frame_kept (fs : list Frame) i f s :
  fs !! i = Some f ->
  (forall j f', fs !! j = Some f' ->
     PendingPayment.resolve (pending f') = c -> pendingKey f' = e) ->
  forall j f', <[i := finish f s]> fs !! j = Some f' ->
    PendingPayment.resolve (pending f') = c -> pendingKey f' = e.
Proof.
  intros Hf H j f' Hl. apply list_lookup_insert_Some in Hl.
  destruct Hl as [(<- & <- & _)|(_ & Hl)]; [|now apply (H j)].
  simpl. now apply (H i).
Qed.

Lemma timer_kept (ts : list (option Timer)) i j tm :
  <[i := None]> ts !! j = Some (Some tm) -> ts !! j = Some (Some tm).
Proof.
  intros H. apply list_lookup_insert_Some in H.
  now destruct H as [(_ & [=] & _)|(_ & H)].
Qed.

Lemma plan_conditions L a :
  session_inv p t c w e L -> env_action a = true ->
  (forall kp, In kp (plan_pendingPayments (plan L a)) ->
              In kp (pendingPayments L)) /\
  (JSMap.has e (pendingPayments L) = false ->
   JSMap.has e (plan_pendingPayments (plan L a)) = false) /\
  (forall j f, plan_frames (plan L a) !! j = Some f ->
               PendingPayment.resolve (pending f) = c -> pendingKey f = e) /\
  (forall i tm, plan_timers (plan L a) !! i = Some (Some tm) ->
                timers L !! i = Some (Some tm)) /\
  (forall r b, plan_effect (plan L a) = Some (r, b) -> mentions p r ->
               r = ResolveOf p /\
               JSMap.has e (plan_pendingPayments (plan L a)) = false).
Proof.
  intros I Ha.
  pose proof (inv_frame _ _ _ _ _ _ I) as Ifr.
  assert (Hkeep : (forall kp, In kp (pendingPayments L) ->
                              In kp (pendingPayments L)) /\
    (JSMap.has e (pendingPayments L) = false ->
     JSMap.has e (pendingPayments L) = false) /\
    (forall j f, frames L !! j = Some f ->
       PendingPayment.resolve (pending f) = c -> pendingKey f = e) /\
    (forall i tm, timers L !! i = Some (Some tm) ->
                  timers L !! i = Some (Some tm)) /\
    (forall r b, @None (Resolver * bool) = Some (r, b) -> mentions p r ->
       r = ResolveOf p /\ JSMap.has e (pendingPayments L) = false)).
  { repeat split; try easy. }
  assert (Hcell : forall i f (b : bool) r0 b0,
    frames L !! i = Some f ->
    option_map (fun r => (r, b))
      (cells L !! PendingPayment.resolve (pending f)) = Some (r0, b0) ->
    mentions p r0 ->
    r0 = ResolveOf p /\
    JSMap.has e (JSMap.delete (pendingKey f) (pendingPayments L)) = false).
  { intros i f b r0 b0 Hf Heff Hm.
    destruct (cells L !! PendingPayment.resolve (pending f)) as [r|] eqn:Ec;
      [|discriminate].
    injection Heff as <- <-.
    destruct (inv_cell _ _ _ _ _ _ I _ _ Ec Hm) as [Hc ->].
    split; [easy|]. rewrite (Ifr i f Hf Hc).
    apply JSMapFacts.has_delete_eq. }
  destruct a as [| | | | | |ev|i tj ok|i ok now|i]; try discriminate; simpl.
  - repeat split; try easy. unfold handle_entry, handle_begin.
    destruct (negb (client L)); [exact Ifr|].
    destruct (negb (date_is_valid ev)); [exact Ifr|].
    destruct (negb (isTokenTransfer ev)); [exact Ifr|].
    destruct (correlate L ev) as [[k pd]|] eqn:Ec; [|exact Ifr].
    simpl. intros j f Hl. apply lookup_app_Some in Hl.
    destruct Hl as [Hl|(_ & Hl)]; [now apply (Ifr j)|].
    apply list_lookup_singleton_Some in Hl. destruct Hl as [_ <-]. simpl.
    apply correlate_In in Ec. now apply (inv_entry _ _ _ _ _ _ I).
  - destruct (frames L !! i) as [f|] eqn:Ef; [|exact Hkeep].
    destruct (stage f); try exact Hkeep.
    assert (Hrej : forall b : bool,
      (forall kp, In kp (JSMap.delete (pendingKey f) (pendingPayments L)) ->
                  In kp (pendingPayments L)) /\
      (JSMap.has e (pendingPayments L) = false ->
       JSMap.has e (JSMap.delete (pendingKey f) (pendingPayments L)) = false) /\
      (forall j f', <[i := finish f Finished]> (frames L) !! j = Some f' ->
         PendingPayment.resolve (pending f') = c -> pendingKey f' = e) /\
      (forall i tm, timers L !! i = Some (Some tm) ->
                    timers L !! i = Some (Some tm)) /\
      (forall r0 b0,
         option_map (fun r => (r, b))
           (cells L !! PendingPayment.resolve (pending f)) = Some (r0, b0) ->
         mentions p r0 ->
         r0 = ResolveOf p /\
         JSMap.has e (JSMap.delete (pendingKey f) (pendingPayments L))
         = false)).
    { intros b. repeat split; try easy.
      - intros kp. apply JSMapFacts.In_delete.
      - apply has_delete_false.
      - now apply frame_kept.
      - eapply (Hcell i f b); eauto.
      - eapply (Hcell i f b); eauto. }
    destruct tj as [s|]; simpl.
    2:{ repeat split; try easy. now apply frame_kept. }
    destruct (negb (startsWith s "{") || negb (includes s "sourceToken"));
      [apply (Hrej false)|].
    destruct (negb ok); [apply (Hrej false)|].
    simpl. repeat split; try easy. now apply frame_kept.
  - destruct (frames L !! i) as [f|] eqn:Ef; [|exact Hkeep].
    destruct (stage f); try exact Hkeep.
    simpl. repeat split; try easy.
    + intros kp. apply JSMapFacts.In_delete.
    + apply has_delete_false.
    + now apply frame_kept.
    + eapply (Hcell i f ok); eauto.
    + eapply (Hcell i f ok); eauto.
  - destruct (timers L !! i) as [[tm|]|] eqn:Et; try exact Hkeep.
    destruct (JSMap.has (timer_eventId tm) (pendingPayments L)); simpl.
    + assert (Hsp : mentions p (timer_resolve tm) ->
                    timer_resolve tm = ResolveOf p /\ timer_eventId tm = e).
      { intros Hm. destruct (decide (i = t)) as [->|Hne].
        - now destruct (inv_timer _ _ _ _ _ _ I tm Et).
        - now destruct (inv_timers _ _ _ _ _ _ I i tm Hne Et). }
      repeat split; try easy.
      * intros kp. apply JSMapFacts.In_delete.
      * apply has_delete_false.
      * intros j tm'. apply timer_kept.
      * injection H as <- <-. now apply Hsp.
      * injection H as <- <-. destruct (Hsp H0) as [_ ->].
        apply JSMapFacts.has_delete_eq.
    + repeat split; try easy. intros j tm'. apply timer_kept.
Qed.

(** One action of the environment keeps the two versions in step. *)
Lemma step_related E L a :
  related p t e E L -> session_inv p t c w e L -> env_action a = true ->
  related p t e (step E a) (step L a) /\ session_inv p t c w e (step L a).
Proof.
  intros R I Ha.
  rewrite (step_env E a (rel_jobs _ _ _ _ _ R) Ha),
    (step_env L a (inv_jobs _ _ _ _ _ _ I) Ha).
  destruct (plan_related E L a R I Ha) as (Hos & Hpp & Hfs & Heff & Hts).
  destruct (plan_conditions L a I Ha) as (Hsub & Hdead & Hfr & HtL & Hsp).
  unfold carry_out. rewrite Hos, Hpp, Hfs, Heff. split.
  - now apply (updated_related p t c w e).
  - now apply updated_inv.
Qed.

Lemma run_related tr E L :
  related p t e E L -> session_inv p t c w e L ->
  forallb env_action tr = true ->
  related p t e (run E tr) (run L tr) /\ session_inv p t c w e (run L tr).
Proof.
  revert E L. induction tr as [|a tr IH]; intros E L R I Htr; [easy|].
  simpl in Htr. apply andb_prop in Htr. destruct Htr as [Ha Htr].
  destruct (step_related E L a R I Ha) as [R' I'].
  now apply (IH (step E a) (step L a)).
Qed.

End Simulation.
(** *** The two versions at the moment [waitForPayment] has been invoked *)

Lemma alter_last {A} (f : A -> A) (l : list A) x :
  alter f (length l) (l ++ [x]) = l ++ [f x].
Proof. induction l as [|y l IH]; simpl; [easy|]. f_equal. exact IH. Qed.

Lemma insert_last {A} (l : list A) x y :
  <[length l := y]> (l ++ [x]) = l ++ [y].
Proof. induction l as [|z l IH]; simpl; [easy|]. f_equal. exact IH. Qed.

Lemma lookup_last {A} (l : list A) x : (l ++ [x]) !! length l = Some x.
Proof. induction l as [|z l IH]; simpl; [easy|]. exact IH. Qed.

Lemma In_set {V} k (v : V) k0 v0 (m : JSMap.t V) :
  In (k, v) (JSMap.set k0 v0 m) -> (k, v) = (k0, v0) \/ In (k, v) m.
Proof.
  induction m as [|[k1 v1] m IH]; simpl.
  - intros [H|[]]. now left.
  - destruct (String.eqb k1 k0); simpl.
    + intros [H|H]; [now left|right; now right].
    + intros [H|H]; [right; now left|].
      destruct (IH H) as [?|?]; [now left|right; now right].
Qed.

Lemma eager_start st unicityId userPubkey orderId amount eventId now w :
  jobs st = [] ->
  eager_session st unicityId userPubkey orderId amount eventId now w [] []
  = mkState (client st) (config st)
      (OrderService.linkPaymentToOrder (orderService st) eventId orderId)
      (JSMap.set eventId
         (PendingPayment.mk eventId unicityId userPubkey orderId amount
            (coinId (config st)) now (length (cells st)))
         (pendingPayments st))
      (cells st ++ [ResolveOf (length (promises st))])
      (promises st
       ++ [mkPromise None [mkReaction w (Some (length (timers st)))]])
      [] (observed st)
      (timers st
       ++ [Some (mkTimer eventId (ResolveOf (length (promises st)))
                   (paymentTimeoutSeconds (config st) * 1000))])
      (outbox st) (frames st).
Proof.
  intros Hj. destruct st as [cl cf os pp cs ps js ob ts ox fs].
  simpl in Hj. subst js.
  unfold eager_session, sendPaymentRequest_resume, new_promise.
  cbn [run fold_left]. rewrite (drain_eq (with_timers _ _)).
  unfold waitForPayment, then_.
  cbn [h_promise h_timer promises with_timers with_pendingPayments with_cells
    with_promises with_orderService jobs clear_all fold_left map].
  rewrite lookup_last, insert_last, drain_eq. simpl.
  now rewrite !app_nil_r.
Qed.

Lemma lazy_start st unicityId userPubkey orderId amount eventId now w :
  jobs st = [] ->
  lazy_session st unicityId userPubkey orderId amount eventId now w [] []
  = mkState (client st) (config st)
      (OrderService.linkPaymentToOrder (orderService st) eventId orderId)
      (JSMap.set eventId
         (PendingPayment.mk eventId unicityId userPubkey orderId amount
            (coinId (config st)) now (length (cells st)))
         (pendingPayments st))
      (cells st ++ [ResolveOf (length (promises st))])
      (promises st ++ [mkPromise None [mkReaction w None]])
      [] (observed st)
      (timers st
       ++ [Some (mkTimer eventId (ResolveOf (length (promises st)))
                   (paymentTimeoutSeconds (config st) * 1000))])
      (outbox st) (frames st).
Proof.
  intros Hj. destruct st as [cl cf os pp cs ps js ob ts ox fs].
  simpl in Hj. subst js.
  unfold lazy_session, Lazy.sendPaymentRequest_resume.
  cbn [lazy_run fold_left]. rewrite (drain_eq (with_orderService _ _)).
  unfold Lazy.waitForPayment, new_promise, then_.
  cbn [Lazy.h_eventId Lazy.h_unicityId Lazy.h_userPubkey Lazy.h_orderId
    Lazy.h_amount promises with_timers with_pendingPayments with_cells
    with_promises with_orderService jobs clear_all fold_left map].
  rewrite lookup_last, insert_last, drain_eq. simpl.
  now rewrite !app_nil_r.
Qed.

Lemma map_value_alter t p ps :
  map value (alter (markP t) p ps) = map value ps.
Proof.
  revert p. induction ps as [|x ps IH]; intros [|p]; simpl; try easy.
  f_equal. apply IH.
Qed.

Section Start.
Variables (st : State) (unicityId userPubkey orderId : string) (amount : Z)
  (eventId : string) (now : Z) (w : nat).
Hypothesis Hwf : well_formed st.

Lemma start_related :
  related (length (promises st)) (length (timers st)) eventId
    (eager_session st unicityId userPubkey orderId amount eventId now w [] [])
    (lazy_session st unicityId userPubkey orderId amount eventId now w [] []).
Proof.
  destruct Hwf as (_ & _ & _ & _ & Hj).
  rewrite eager_start, lazy_start by easy.
  constructor; simpl; try reflexivity.
  - now rewrite alter_last.
  - intros i. now left.
Qed.

Lemma start_inv :
  session_inv (length (promises st)) (length (timers st))
    (length (cells st)) w eventId
    (lazy_session st unicityId userPubkey orderId amount eventId now w [] []).
Proof.
  destruct Hwf as (Hc & Ht & Hp & Hf & Hj).
  rewrite lazy_start by easy. constructor; simpl.
  - intros i r Hl Hm. apply lookup_app_Some in Hl.
    destruct Hl as [Hl|(Hge & Hl)].
    + apply Hc, bounded_not_mentions in Hl. contradiction.
    + apply list_lookup_singleton_Some in Hl. destruct Hl as [Hi <-].
      split; [lia|]. simpl in Hm. now subst.
  - intros tm Hl. rewrite lookup_last in Hl. now injection Hl as <-.
  - intros i tm Hne Hl. apply lookup_app_Some in Hl.
    destruct Hl as [Hl|(Hge & Hl)].
    + now apply Ht, bounded_not_mentions in Hl.
    + apply list_lookup_singleton_Some in Hl. lia.
  - intros k pd Hin Hr. apply In_set in Hin.
    destruct Hin as [[= -> _]|Hin]; [easy|].
    apply Hp in Hin. lia.
  - intros j f Hl Hr. apply list_elem_of_lookup_2, list_elem_of_In in Hl.
    apply Hf in Hl. lia.
  - intros b rs Hl. rewrite lookup_last in Hl. discriminate.
  - intros rs Hl. rewrite lookup_last in Hl. now injection Hl as <-.
  - reflexivity.
Qed.

End Start.

Lemma eager_session_after st unicityId userPubkey orderId amount eventId now w
    after :
  eager_session st unicityId userPubkey orderId amount eventId now w [] after
  = run (eager_session st unicityId userPubkey orderId amount eventId now w
           [] []) after.
Proof.
  unfold eager_session.
  now destruct (sendPaymentRequest_resume st unicityId userPubkey orderId
                  amount eventId now) as [st1 h].
Qed.

Lemma lazy_session_after st unicityId userPubkey orderId amount eventId now w
    after :
  lazy_session st unicityId userPubkey orderId amount eventId now w [] after
  = lazy_run
      (lazy_session st unicityId userPubkey orderId amount eventId now w
         [] []) after.
Proof.
  unfold lazy_session, Lazy.sendPaymentRequest_resume.
  cbv beta iota zeta. cbn [lazy_run fold_left]. reflexivity.
Qed.

(** On an event whose date can be printed the two handlers begin alike. *)
Lemma handle_entry_dated st ev :
  date_is_valid ev = true -> handle_entry st ev = handle_begin st ev.
Proof.
  intros H. unfold handle_entry, handle_begin. rewrite H. simpl.
  now destruct (negb (client st)).
Qed.

Lemma lazy_step_dated st a : dated a = true -> lazy_step st a = step st a.
Proof.
  intros H. unfold lazy_step, step. f_equal.
  destruct a; try reflexivity. simpl. symmetry. now apply handle_entry_dated.
Qed.

Lemma lazy_run_dated tr st :
  forallb dated tr = true -> lazy_run st tr = run st tr.
Proof.
  revert st. induction tr as [|a tr IH]; intros st H; [reflexivity|].
  simpl in H. apply andb_true_iff in H. destruct H as [Ha Htr].
  change (lazy_run st (a :: tr)) with (lazy_run (lazy_step st a) tr).
  change (run st (a :: tr)) with (run (step st a) tr).
  rewrite lazy_step_dated by exact Ha. now apply IH.
Qed.

(** *** Every state the server reaches is well formed *)

Lemma bounded_mono n m r : (n <= m)%nat -> bounded n r -> bounded m r.
Proof.
  intros Hle. induction r as [q|r IH q]; simpl; [lia|].
  intros [H1 H2]. split; [now apply IH|lia].
Qed.

Lemma settle_one_length ps q b : length (fst (settle_one ps q b)) = length ps.
Proof.
  unfold settle_one. destruct (ps !! q) as [[[v|] rs]|]; simpl; try easy.
  apply length_insert.
Qed.

Lemma settle_all_length ps r b : length (fst (settle_all ps r b)) = length ps.
Proof.
  revert ps. induction r as [q|r IH q]; intros ps; simpl.
  - apply settle_one_length.
  - specialize (IH ps). destruct (settle_all ps r b) as [ps1 js1].
    pose proof (settle_one_length ps1 q b) as H.
    destruct (settle_one ps1 q b) as [ps2 js2]. simpl in *. congruence.
Qed.

Lemma apply_effect_length ps eff :
  length (fst (apply_effect ps eff)) = length ps.
Proof. destruct eff as [[r b]|]; simpl; [apply settle_all_length|easy]. Qed.

Lemma updated_well_formed st os pp ts fs eff :
  well_formed st ->
  (forall kp, In kp pp -> In kp (pendingPayments st)) ->
  (forall f, In f fs ->
     (PendingPayment.resolve (pending f) < length (cells st))%nat) ->
  (forall i tm, ts !! i = Some (Some tm) -> timers st !! i = Some (Some tm)) ->
  well_formed (updated st os pp ts fs eff).
Proof.
  intros (Hc & Ht & Hp & Hf & Hj) Hsub Hfs Hts.
  unfold well_formed, updated. simpl. rewrite apply_effect_length.
  repeat split; try easy.
  - intros i tm H. apply clear_all_lookup, Hts in H. now apply (Ht i).
  - intros k pd Hin. apply (Hp k). now apply Hsub.
Qed.

Lemma In_insert {A} (l : list A) i x y :
  In y (<[i := x]> l) -> y = x \/ In y l.
Proof.
  intros H. apply list_elem_of_In, list_elem_of_lookup in H.
  destruct H as [j H]. apply list_lookup_insert_Some in H.
  destruct H as [(_ & <- & _)|(_ & H)]; [now left|].
  right. eapply list_elem_of_In, list_elem_of_lookup_2, H.
Qed.

Lemma plan_well_formed st a :
  well_formed st -> env_action a = true ->
  (forall kp, In kp (plan_pendingPayments (plan st a)) ->
              In kp (pendingPayments st)) /\
  (forall f, In f (plan_frames (plan st a)) ->
     (PendingPayment.resolve (pending f) < length (cells st))%nat) /\
  (forall i tm, plan_timers (plan st a) !! i = Some (Some tm) ->
                timers st !! i = Some (Some tm)).
Proof.
  intros (Hc & Ht & Hp & Hf & Hj) Ha.
  assert (Hfin : forall i f s,
    frames st !! i = Some f ->
    forall f', In f' (<[i := finish f s]> (frames st)) ->
      (PendingPayment.resolve (pending f') < length (cells st))%nat).
  { intros i f s Hl f' Hin. apply In_insert in Hin.
    destruct Hin as [->|Hin]; [|now apply Hf].
    simpl. apply Hf. eapply list_elem_of_In, list_elem_of_lookup_2, Hl. }
  destruct a as [| | | | | |ev|i tj ok|i ok now|i]; try discriminate; simpl.
  - repeat split; try easy. unfold handle_entry, handle_begin.
    destruct (negb (client st)); [exact Hf|].
    destruct (negb (date_is_valid ev)); [exact Hf|].
    destruct (negb (isTokenTransfer ev)); [exact Hf|].
    destruct (correlate st ev) as [[k pd]|] eqn:Ec; [|exact Hf].
    simpl. intros f Hin. apply in_app_or in Hin.
    destruct Hin as [Hin|[<-|[]]]; [now apply Hf|]. simpl.
    apply correlate_In in Ec. now apply (Hp k).
  - destruct (frames st !! i) as [f|] eqn:Ef; [|easy].
    destruct (stage f); try easy.
    destruct tj as [s|]; simpl; [|repeat split; try easy; now apply Hfin].
    destruct (negb (startsWith s "{") || negb (includes s "sourceToken"));
      [|destruct (negb ok)]; simpl; repeat split; try easy;
      try (now apply Hfin); intros kp; apply JSMapFacts.In_delete.
  - destruct (frames st !! i) as [f|] eqn:Ef; [|easy].
    destruct (stage f); try easy. simpl.
    repeat split; try easy; [intros kp; apply JSMapFacts.In_delete|].
    now apply Hfin.
  - destruct (timers st !! i) as [[tm|]|] eqn:Et; try easy.
    destruct (JSMap.has (timer_eventId tm) (pendingPayments st)); simpl;
      repeat split; try easy; try (intros j tm'; apply timer_kept).
    intros kp. apply JSMapFacts.In_delete.
Qed.

Lemma drain_well_formed st :
  (forall i r, cells st !! i = Some r -> bounded (length (promises st)) r) ->
  (forall i tm, timers st !! i = Some (Some tm) ->
                bounded (length (promises st)) (timer_resolve tm)) ->
  (forall k pp, In (k, pp) (pendingPayments st) ->
                (PendingPayment.resolve pp < length (cells st))%nat) ->
  (forall f, In f (frames st) ->
             (PendingPayment.resolve (pending f) < length (cells st))%nat) ->
  well_formed (drain st).
Proof.
  intros Hc Ht Hp Hf. rewrite drain_eq. unfold well_formed. simpl.
  repeat split; try easy.
  intros i tm H. apply clear_all_lookup in H. now apply (Ht i).
Qed.

Lemma step_well_formed st a : well_formed st -> well_formed (step st a).
Proof.
  intros Hwf.
  destruct (env_action a) eqn:Ha.
  { rewrite step_env by (easy || apply Hwf).
    destruct (plan_well_formed st a Hwf Ha) as (H1 & H2 & H3).
    now apply updated_well_formed. }
  destruct Hwf as (Hc & Ht & Hp & Hf & Hj). unfold step.
  destruct a as [u pr q sz fr now|o|pk amt msg|u pk o amt ev now|h w|ev w
                 | | | |]; try discriminate; simpl.
  - now apply drain_well_formed.
  - now apply drain_well_formed.
  - unfold sendPaymentRequest_call. destruct (client st);
      now apply drain_well_formed.
  - apply drain_well_formed; simpl; rewrite ?length_app; simpl.
    + intros i r Hl. apply lookup_app_Some in Hl.
      destruct Hl as [Hl|(_ & Hl)].
      * eapply bounded_mono; [|now apply (Hc i)]. lia.
      * apply list_lookup_singleton_Some in Hl. destruct Hl as [_ <-].
        simpl. lia.
    + intros i tm Hl. apply lookup_app_Some in Hl.
      destruct Hl as [Hl|(_ & Hl)].
      * eapply bounded_mono; [|now apply (Ht i)]. lia.
      * apply list_lookup_singleton_Some in Hl. destruct Hl as [_ [= <-]].
        simpl. lia.
    + intros k pd Hin. apply In_set in Hin.
      destruct Hin as [[= _ ->]|Hin]; [simpl; lia|].
      apply Hp in Hin. lia.
    + intros f Hin. apply Hf in Hin. lia.
  - unfold waitForPayment, then_.
    destruct (promises st !! h_promise h) as [[[v|] rs]|];
      apply drain_well_formed; simpl; rewrite ?length_insert; easy.
  - unfold waitForExistingPayment.
    destruct (JSMap.get ev (pendingPayments st)) as [pd|];
      [|now apply drain_well_formed].
    unfold new_promise. simpl.
    assert (Hb : forall i r,
      cells st !! i = Some r ->
      bounded (length (promises st ++ [mkPromise None []])) r).
    { intros i r Hl. eapply bounded_mono; [|now apply (Hc i)].
      rewrite length_app. lia. }
    assert (Hbt : forall i tm,
      timers st !! i = Some (Some tm) ->
      bounded (length (promises st ++ [mkPromise None []])) (timer_resolve tm)).
    { intros i tm Hl. eapply bounded_mono; [|now apply (Ht i)].
      rewrite length_app. lia. }
    destruct (cells st !! PendingPayment.resolve pd) as [r0|] eqn:Ec; simpl;
      unfold then_; simpl; rewrite lookup_last; simpl;
      apply drain_well_formed; simpl; rewrite ?length_insert; try easy.
    intros i r Hl. apply list_lookup_insert_Some in Hl.
    destruct Hl as [(_ & <- & _)|(_ & Hl)]; [|now apply (Hb i)].
    simpl. split; [now apply (Hb _ _ Ec)|]. rewrite length_app. simpl. lia.
Qed.

(** Every state of the server is well formed. *)
Lemma run_well_formed tr st : well_formed st -> well_formed (run st tr).
Proof.
  revert st. induction tr as [|a tr IH]; intros st H; [easy|].
  apply IH. now apply step_well_formed.
Qed.

Lemma init_well_formed cfg : well_formed (init cfg).
Proof.
  repeat split; simpl; try discriminate; intros; contradiction.
Qed.

(** C10, as stated, fails: a transfer that is handled after
    [sendPaymentRequest] has returned and before [waitForPayment] is
    invoked is matched by the eager version, which marks the order paid and
    gives the caller [true]; the other version has no entry yet, drops the
    transfer, and the caller gets [false] when the timer fires. *)
Lemma C10_versions_differ_before_wait :
  outcomes
    (eager_session example_order_only "alice" "pkA" "o1" (30 * UCT) "e1" 1001
       7 example_early_transfer [Timeout 0]) 7 = [true] /\
  OrderService.statusOf
    (orderService
       (eager_session example_order_only "alice" "pkA" "o1" (30 * UCT) "e1"
          1001 7 example_early_transfer [Timeout 0])) "o1" = Some paid /\
  outcomes
    (lazy_session example_order_only "alice" "pkA" "o1" (30 * UCT) "e1" 1001
       7 example_early_transfer [Timeout 0]) 7 = [false] /\
  OrderService.statusOf
    (orderService
       (lazy_session example_order_only "alice" "pkA" "o1" (30 * UCT) "e1"
          1001 7 example_early_transfer [Timeout 0])) "o1"
  = Some pending_payment.
Proof. repeat split. Qed.

(** C10, amended.  Start the two versions in the same state and let each
    serve one payment request whose [waitForPayment] is invoked as soon as
    [sendPaymentRequest] has returned.  They have then registered the same
    entry, and after any sequence of inbound transfers whose date can be
    printed, returns of the calls their handlers await, and timer
    expiries, they have handed the same results to the same callers and
    have the same orders, the same pending payments, the same handler runs
    in flight and the same promise values. *)
Theorem C10_versions_agree_when_wait_follows_send (st : State)
    (unicityId userPubkey orderId : string) (amount : Z) (eventId : string)
    (now : Z) (w : nat) (after : list Action) :
  well_formed st ->
  forallb env_action after = true ->
  forallb dated after = true ->
  observed
    (eager_session st unicityId userPubkey orderId amount eventId now w []
       after)
  = observed
      (lazy_session st unicityId userPubkey orderId amount eventId now w []
         after) /\
  orderService
    (eager_session st unicityId userPubkey orderId amount eventId now w []
       after)
  = orderService
      (lazy_session st unicityId userPubkey orderId amount eventId now w []
         after) /\
  pendingPayments
    (eager_session st unicityId userPubkey orderId amount eventId now w []
       after)
  = pendingPayments
      (lazy_session st unicityId userPubkey orderId amount eventId now w []
         after) /\
  frames
    (eager_session st unicityId userPubkey orderId amount eventId now w []
       after)
  = frames
      (lazy_session st unicityId userPubkey orderId amount eventId now w []
         after) /\
  map value
    (promises
       (eager_session st unicityId userPubkey orderId amount eventId now w []
          after))
  = map value
      (promises
         (lazy_session st unicityId userPubkey orderId amount eventId now w []
            after)).
Proof.
  intros Hwf Henv Hdated.
  rewrite eager_session_after, lazy_session_after,
    (lazy_run_dated after _ Hdated).
  destruct (run_related (length (promises st)) (length (timers st))
              (length (cells st)) w eventId after _ _
              (start_related st unicityId userPubkey orderId amount eventId
                 now w Hwf)
              (start_inv st unicityId userPubkey orderId amount eventId
                 now w Hwf) Henv) as [R _].
  destruct R as [Rcl Rcf Ros Rpp Rcs Rps Rj Rob Rts Rox Rfs].
  repeat split; try assumption.
  rewrite Rps. apply map_value_alter.
Qed.

(** The transfer of [example_early_transfer] handled after
    [waitForPayment]: both versions give the caller [true]. *)
Lemma C10_versions_agree_when_wait_follows_send_witness :
  observed
    (eager_session example_order_only "alice" "pkA" "o1" (30 * UCT) "e1" 1001
       7 [] (example_early_transfer ++ [Timeout 0]))
  = observed
      (lazy_session example_order_only "alice" "pkA" "o1" (30 * UCT) "e1"
         1001 7 [] (example_early_transfer ++ [Timeout 0])).
Proof.
  apply (C10_versions_agree_when_wait_follows_send example_order_only
           "alice" "pkA" "o1" (30 * UCT) "e1" 1001 7
           (example_early_transfer ++ [Timeout 0])).
  - apply run_well_formed, init_well_formed.
  - reflexivity.
  - reflexivity.
Defined.

(** A transfer whose [created_at] cannot be printed as a date, handled
    after [waitForPayment].  The version that registers in
    [sendPaymentRequest] leaves its handler before it looks for an entry:
    the timer gives the caller [false] and the order stays pending.  The
    other version matches the transfer and the order is paid. *)
Lemma versions_differ_on_undated_transfer :
  outcomes
    (eager_session example_order_only "alice" "pkA" "o1" (30 * UCT) "e1" 1001
       7 [] (example_undated_transfer ++ [Timeout 0])) 7 = [false] /\
  OrderService.statusOf
    (orderService
       (eager_session example_order_only "alice" "pkA" "o1" (30 * UCT) "e1"
          1001 7 [] (example_undated_transfer ++ [Timeout 0]))) "o1"
  = Some pending_payment /\
  outcomes
    (lazy_session example_order_only "alice" "pkA" "o1" (30 * UCT) "e1" 1001
       7 [] (example_undated_transfer ++ [Timeout 0])) 7 = [true] /\
  OrderService.statusOf
    (orderService
       (lazy_session example_order_only "alice" "pkA" "o1" (30 * UCT) "e1"
          1001 7 [] (example_undated_transfer ++ [Timeout 0]))) "o1"
  = Some paid.
Proof. repeat split; vm_compute; reflexivity. Qed.

(** * Further properties of the order store *)

Lemma block_orderService st a :
  orderService (block st a)
  = match a with
    | Create unicityId product quantity size fresh now =>
        fst (OrderService.createOrder (orderService st) unicityId product
               quantity size fresh now)
    | Ship orderId => OrderService.markAsShipped (orderService st) orderId
    | Resume _ _ orderId _ eventId _ =>
        OrderService.linkPaymentToOrder (orderService st) eventId orderId
    | Processed i true now =>
        match frames st !! i with
        | Some f =>
            match stage f with
            | AwaitProcess =>
                OrderService.markAsPaid (orderService st)
                  (PendingPayment.orderId (pending f)) now
            | _ => orderService st
            end
        | None => orderService st
        end
    | _ => orderService st
    end.
Proof.
  destruct a as [u pr q sz fr now|o|pk amt msg|u pk o amt e now|h w|e w|ev
                 |i tj ok|i ok now|t]; simpl; try reflexivity.
  - unfold sendPaymentRequest_call. now destruct (client st).
  - apply then_same.
  - unfold waitForExistingPayment.
    destruct (JSMap.get e (pendingPayments st)) as [pp|]; [|easy].
    unfold new_promise.
    destruct (cells _ !! PendingPayment.resolve pp);
      match goal with |- orderService (then_ ?s ?p ?r) = _ =>
        destruct (then_same s p r) as (_ & _ & -> & _) end; reflexivity.
  - unfold handle_entry, handle_begin.
    destruct (negb (client st)); [easy|].
    destruct (negb (date_is_valid ev)); [easy|].
    destruct (negb (isTokenTransfer ev)); [easy|].
    now destruct (correlate st ev) as [[k p]|].
  - unfold handle_parsed. destruct (frames st !! i) as [f|]; [|easy].
    destruct (stage f); try easy.
    destruct tj as [s|]; [|easy].
    destruct (resolve_then_delete_spec st f false) as (_ & _ & Ho & _).
    simpl in Ho.
    destruct (negb (startsWith s "{") || negb (includes s "sourceToken"));
      [exact Ho|].
    destruct (negb ok); [exact Ho|easy].
  - unfold handle_processed. destruct (frames st !! i) as [f|];
      [|now destruct ok].
    destruct (stage f); try now destruct ok.
    unfold set_stage. simpl. destruct ok.
    + match goal with |- context [call_resolve ?s ?p ?b] =>
        destruct (call_resolve_same s p b) as (_ & _ & Ho & _) end.
      exact Ho.
    + now destruct (call_resolve_same st (pending f) false)
        as (_ & _ & Ho & _).
  - unfold fireTimeout. destruct (timers st !! t) as [[tm|]|]; try easy.
    simpl. destruct (JSMap.has (timer_eventId tm) (pendingPayments st));
      [|easy].
    match goal with |- context [call_resolver ?s ?r ?b] =>
      destruct (call_resolver_same r s b) as (_ & _ & Ho & _) end.
    exact Ho.
Qed.

Lemma markAsPaid_coherent os orderId now :
  (forall id o, OrderService.getOrder os id = Some o -> order_coherent o) ->
  forall id o,
    OrderService.getOrder (OrderService.markAsPaid os orderId now) id
    = Some o ->
    order_coherent o.
Proof.
  intros H id o. unfold OrderService.markAsPaid.
  destruct (JSMap.get orderId (OrderService.orders os)) as [order|] eqn:Eg;
    [|apply H].
  unfold OrderService.getOrder. simpl.
  destruct (String.eqb_spec orderId id) as [->|Hne].
  - rewrite JSMapFacts.get_set_eq. intros [= <-]. now unfold order_coherent.
  - rewrite JSMapFacts.get_set_ne by easy. apply (H id).
Qed.

Lemma markAsShipped_coherent os orderId :
  (forall id o, OrderService.getOrder os id = Some o -> order_coherent o) ->
  forall id o,
    OrderService.getOrder (OrderService.markAsShipped os orderId) id = Some o ->
    order_coherent o.
Proof.
  intros H id o. unfold OrderService.markAsShipped.
  destruct (JSMap.get orderId (OrderService.orders os)) as [order|] eqn:Eg;
    [|apply H].
  destruct (Order.status order) eqn:Es; try apply H.
  unfold OrderService.getOrder. simpl.
  destruct (String.eqb_spec orderId id) as [->|Hne].
  - rewrite JSMapFacts.get_set_eq. intros [= <-].
    specialize (H id order Eg). unfold order_coherent in *. simpl.
    now rewrite Es in H.
  - rewrite JSMapFacts.get_set_ne by easy. apply (H id).
Qed.

Lemma createOrder_coherent os unicityId product quantity size fresh now :
  (forall id o, OrderService.getOrder os id = Some o -> order_coherent o) ->
  forall id o,
    OrderService.getOrder
      (fst (OrderService.createOrder os unicityId product quantity size fresh
              now)) id = Some o ->
    order_coherent o.
Proof.
  intros H id o. unfold OrderService.getOrder. simpl.
  destruct (String.eqb_spec fresh id) as [->|Hne].
  - rewrite JSMapFacts.get_set_eq. now intros [= <-].
  - rewrite JSMapFacts.get_set_ne by easy. apply (H id).
Qed.

Lemma step_coherent st a :
  (forall id o, OrderService.getOrder (orderService st) id = Some o ->
                order_coherent o) ->
  forall id o,
    OrderService.getOrder (orderService (step st a)) id = Some o ->
    order_coherent o.
Proof.
  intros H. unfold step. rewrite drain_orderService, block_orderService.
  destruct a as [u pr q sz fr now|o|pk amt msg|u pk o amt e now|h w|e w|ev
                 |i tj ok|i ok now|t]; try exact H.
  - now apply createOrder_coherent.
  - now apply markAsShipped_coherent.
  - destruct ok; [|exact H]. destruct (frames st !! i) as [f|]; [|exact H].
    destruct (stage f); try exact H. now apply markAsPaid_coherent.
Qed.

(** X1.  In every state the server reaches, whatever the actions, each
    stored order is [pending_payment] without [paidAt], or [paid] or
    [shipped] with [paidAt] set; no operation ever assigns [delivered]. *)
Theorem X1_orders_stay_coherent (cfg : Config) (tr : list Action)
    (id : string) (o : Order.t) :
  OrderService.getOrder (orderService (run (init cfg) tr)) id = Some o ->
  order_coherent o /\ Order.status o <> delivered.
Proof.
  assert (Hrun : forall tr st,
    (forall id o, OrderService.getOrder (orderService st) id = Some o ->
                  order_coherent o) ->
    forall id o,
      OrderService.getOrder (orderService (run st tr)) id = Some o ->
      order_coherent o).
  { clear. induction tr as [|a tr IH]; intros st H; [exact H|].
    apply IH. now apply step_coherent. }
  intros Hget.
  assert (Hc : order_coherent o).
  { apply (Hrun tr (init cfg)) with (id := id); [|exact Hget].
    intros id0 o0 [=]. }
  split; [exact Hc|]. intros Hd. unfold order_coherent in Hc.
  now rewrite Hd in Hc.
Qed.

(** The order of [example_race], which the late handler marked paid. *)
Lemma X1_orders_stay_coherent_witness :
  exists o,
    OrderService.getOrder (orderService example_race) "o1" = Some o /\
    order_coherent o /\ Order.status o <> delivered.
Proof.
  eexists. split; [vm_compute; reflexivity|].
  apply (X1_orders_stay_coherent example_config
           [Create "alice" mug_white 2 None "o1" 1000;
            Call "pkA" (30 * UCT) "Order #o1: 2x Unicity White Mug";
            Resume "alice" "pkA" "o1" (30 * UCT) "e1" 1001;
            Wait example_handle 7; Attach "e1" 8; Incoming example_reply;
            Parsed 0 (Some example_tokenJson) true; Timeout 0;
            Processed 0 true 121500] "o1").
  reflexivity.
Defined.

Lemma same_order_data_refl o : same_order_data o o.
Proof. unfold same_order_data. tauto. Qed.

(** X2.  [markAsPaid] and [markAsShipped] never remove an order and never
    change its identifier, buyer, product, size, quantity, total price or
    creation time; orders other than the one named are left exactly as
    they are, and for an unknown identifier the store is unchanged. *)
Theorem X2_lifecycle_keeps_order_data (os : OrderService.t)
    (orderId : string) (now : Z) (id : string) (o : Order.t) :
  OrderService.getOrder os id = Some o ->
  (exists o',
     OrderService.getOrder (OrderService.markAsPaid os orderId now) id
     = Some o' /\
     same_order_data o o' /\ (id <> orderId -> o' = o)) /\
  (exists o',
     OrderService.getOrder (OrderService.markAsShipped os orderId) id
     = Some o' /\
     same_order_data o o' /\ (id <> orderId -> o' = o)) /\
  (OrderService.getOrder os orderId = None ->
   OrderService.markAsPaid os orderId now = os /\
   OrderService.markAsShipped os orderId = os).
Proof.
  intros Hget. unfold OrderService.getOrder in *. split; [|split].
  - unfold OrderService.markAsPaid.
    destruct (JSMap.get orderId (OrderService.orders os)) as [order|] eqn:Eg.
    + simpl. destruct (String.eqb_spec orderId id) as [->|Hne].
      * rewrite JSMapFacts.get_set_eq. eexists. split; [reflexivity|].
        assert (order = o) as -> by congruence.
        split; [unfold same_order_data; simpl; tauto|]. congruence.
      * rewrite JSMapFacts.get_set_ne by easy. exists o.
        split; [easy|]. split; [apply same_order_data_refl|easy].
    + exists o. split; [easy|]. split; [apply same_order_data_refl|easy].
  - unfold OrderService.markAsShipped.
    destruct (JSMap.get orderId (OrderService.orders os)) as [order|] eqn:Eg.
    2:{ exists o. split; [easy|]. split; [apply same_order_data_refl|easy]. }
    destruct (Order.status order);
      try (exists o; split; [easy|];
           split; [apply same_order_data_refl|easy]).
    simpl. destruct (String.eqb_spec orderId id) as [->|Hne].
    + rewrite JSMapFacts.get_set_eq. eexists. split; [reflexivity|].
      assert (order = o) as -> by congruence.
      split; [unfold same_order_data; simpl; tauto|]. congruence.
    + rewrite JSMapFacts.get_set_ne by easy. exists o.
      split; [easy|]. split; [apply same_order_data_refl|easy].
  - intros Hn. unfold OrderService.markAsPaid, OrderService.markAsShipped.
    now rewrite Hn.
Qed.

Lemma X2_lifecycle_keeps_order_data_witness :
  exists o',
    OrderService.getOrder
      (OrderService.markAsPaid example_orders "1a2b3c4d" 2000) "1a2b3c4d"
    = Some o' /\
    Order.totalPrice o' = 30 * UCT.
Proof.
  destruct (X2_lifecycle_keeps_order_data example_orders "1a2b3c4d" 2000
              "1a2b3c4d"
              (snd (OrderService.createOrder OrderService.new "alice"
                      mug_white 2 None "1a2b3c4d" 1000)) eq_refl)
    as ((o' & Hg & Hd & _) & _).
  exists o'. split; [exact Hg|].
  destruct Hd as (_ & _ & _ & _ & _ & Hp & _). rewrite Hp. reflexivity.
Defined.
Lemma values_set_fresh {V} k (v : V) (m : JSMap.t V) :
  JSMap.get k m = None ->
  JSMap.values (JSMap.set k v m) = JSMap.values m ++ [v].
Proof.
  intros H. rewrite (JSMapFacts.set_fresh _ _ _ H). unfold JSMap.values.
  now rewrite map_app.
Qed.

Lemma size_set_present {V} k (v v0 : V) (m : JSMap.t V) :
  JSMap.get k m = Some v0 -> JSMap.size (JSMap.set k v m) = JSMap.size m.
Proof.
  unfold JSMap.size. induction m as [|[k1 v1] m IH]; simpl; [discriminate|].
  destruct (String.eqb k1 k); simpl; [easy|]. intros H. now rewrite IH.
Qed.

(** X3.  [createOrder] under an identifier not yet in the store appends the
    order to the buyer's list ([getOrdersByUser], in creation order) and
    leaves every other buyer's list alone.  Under an identifier already in
    the store (the identifier is eight characters of a random UUID) it
    replaces the stored order in place: the store does not grow and the
    earlier order can no longer be retrieved. *)
Theorem X3_createOrder_and_order_lists (os : OrderService.t)
    (unicityId : string) (product : Product.t) (quantity : Z)
    (size : option TShirtSize) (fresh : string) (now : Z) :
  (OrderService.getOrder os fresh = None ->
   forall buyer,
     OrderService.getOrdersByUser
       (fst (OrderService.createOrder os unicityId product quantity size
               fresh now)) buyer
     = OrderService.getOrdersByUser os buyer
       ++ (if String.eqb unicityId buyer
           then [snd (OrderService.createOrder os unicityId product quantity
                        size fresh now)]
           else [])) /\
  (forall old,
     OrderService.getOrder os fresh = Some old ->
     OrderService.getOrder
       (fst (OrderService.createOrder os unicityId product quantity size
               fresh now)) fresh
     = Some (snd (OrderService.createOrder os unicityId product quantity
                    size fresh now)) /\
     JSMap.size
       (OrderService.orders
          (fst (OrderService.createOrder os unicityId product quantity size
                  fresh now)))
     = JSMap.size (OrderService.orders os)) /\
  (forall id,
     id <> fresh ->
     OrderService.getOrder
       (fst (OrderService.createOrder os unicityId product quantity size
               fresh now)) id
     = OrderService.getOrder os id).
Proof.
  unfold OrderService.getOrder, OrderService.getOrdersByUser. simpl.
  split; [|split].
  - intros Hn buyer. rewrite (values_set_fresh _ _ _ Hn), List.filter_app.
    simpl. now destruct (String.eqb unicityId buyer).
  - intros old Hold. split; [apply JSMapFacts.get_set_eq|].
    now apply size_set_present with (v0 := old).
  - intros id Hne. apply JSMapFacts.get_set_ne. congruence.
Qed.

Lemma X3_createOrder_and_order_lists_witness :
  OrderService.getOrdersByUser
    (fst (OrderService.createOrder example_orders "alice" tshirt_unicity 1
            (Some Size_M) "5e6f7a8b" 2000)) "alice"
  = OrderService.getOrdersByUser example_orders "alice"
    ++ [snd (OrderService.createOrder example_orders "alice" tshirt_unicity 1
               (Some Size_M) "5e6f7a8b" 2000)].
Proof.
  apply (proj1 (X3_createOrder_and_order_lists example_orders "alice"
                  tshirt_unicity 1 (Some Size_M) "5e6f7a8b" 2000) eq_refl
           "alice").
Defined.

(** X4.  After [linkPaymentToOrder(eventId, orderId)],
    [getPendingOrderForPayment(eventId)] is the order stored under
    [orderId], except that an empty [orderId] is read as absent and gives
    [undefined]; links of other events and the orders are untouched. *)
Theorem X4_link_then_lookup (os : OrderService.t) (eventId orderId : string) :
  OrderService.getPendingOrderForPayment
    (OrderService.linkPaymentToOrder os eventId orderId) eventId
  = (if String.eqb orderId "" then None
     else OrderService.getOrder os orderId) /\
  (forall other,
     other <> eventId ->
     OrderService.getPendingOrderForPayment
       (OrderService.linkPaymentToOrder os eventId orderId) other
     = OrderService.getPendingOrderForPayment os other) /\
  OrderService.orders (OrderService.linkPaymentToOrder os eventId orderId)
  = OrderService.orders os.
Proof.
  unfold OrderService.getPendingOrderForPayment,
    OrderService.linkPaymentToOrder, OrderService.getOrder. simpl.
  split; [|split; [|reflexivity]].
  - now rewrite JSMapFacts.get_set_eq.
  - intros other Hne. rewrite JSMapFacts.get_set_ne by congruence.
    reflexivity.
Qed.

(** * Further properties of the tools *)

Lemma place_order_create_inr st unicityId product_id quantity size pubkey
    fresh now st1 order product pk :
  place_order_create st unicityId product_id quantity size pubkey fresh now
  = inr (st1, order, product, pk) ->
  exists q,
    parse_quantity quantity = Some q /\ pubkey = Some pk /\ pk <> "" /\
    JSMap.get product_id PRODUCTS = Some product /\
    Product.inStock product = true /\
    order = snd (OrderService.createOrder (orderService st) unicityId product
                   q size fresh now) /\
    st1 = with_orderService st
            (fst (OrderService.createOrder (orderService st) unicityId
                    product q size fresh now)).
Proof.
  unfold place_order_create.
  destruct (parse_quantity quantity) as [q|]; [|discriminate].
  destruct pubkey as [pk0|]; [|discriminate].
  destruct (truthy pk0) eqn:Et; cbn [negb]; [|discriminate].
  apply truthy_true in Et.
  destruct (lookup_product product_id) as [product0| |] eqn:El;
    try discriminate.
  apply lookup_product_Own in El.
  destruct (Product.inStock product0) eqn:Es; cbn [negb]; [|discriminate].
  destruct (Product.sizes product0) as [l|]; [destruct size as [s|]|].
  - destruct (sizes_includes l s); cbn [negb]; [|discriminate].
    intros [= <- <- <- <-]. exists q. now rewrite Es.
  - discriminate.
  - intros [= <- <- <- <-]. exists q. now rewrite Es.
Qed.

(** X5.  When [place_order] succeeds it has sent exactly one payment
    request, to the resolved key and for the order's total price; the
    pending payment registered under the returned event id names the new
    order and carries that amount, and the event id is linked to the
    order, which is stored as [pending_payment]. *)
Theorem X5_place_order_registers_payment (st : State)
    (unicityId product_id : string) (quantity : option Number)
    (size : option TShirtSize) (pubkey : option string) (fresh : string)
    (now : Z) (message eventId : string) (now' : Z) (st' : State)
    (order : Order.t) (h : Handle) :
  place_order st unicityId product_id quantity size pubkey fresh now message
    eventId now' = (st', inr (order, h)) ->
  exists pk,
    pubkey = Some pk /\
    outbox st'
    = outbox st
      ++ [mkOutbound pk (Order.totalPrice order) (coinId (config st))
            (nametag (config st)) message] /\
    JSMap.get eventId (pendingPayments st')
    = Some (PendingPayment.mk eventId unicityId pk fresh
              (Order.totalPrice order) (coinId (config st)) now'
              (length (cells st))) /\
    h_eventId h = eventId /\
    OrderService.getOrder (orderService st') fresh = Some order /\
    Order.status order = pending_payment /\
    Order.orderId order = fresh /\
    (fresh <> "" ->
     OrderService.getPendingOrderForPayment (orderService st') eventId
     = Some order).
Proof.
  unfold place_order.
  destruct (place_order_create st unicityId product_id quantity size pubkey
              fresh now) as [err|[[[st1 order1] product] pk]] eqn:Ec;
    [discriminate|].
  apply place_order_create_inr in Ec.
  destruct Ec as (q & Hq & Hpk & _ & Hprod & Hstock & Horder & Hst1).
  unfold sendPaymentRequest, sendPaymentRequest_call.
  destruct (client st1) eqn:Hcl; [|discriminate].
  intros [= <- <- <-]. exists pk. subst st1 order1. simpl.
  repeat split; try easy.
  - apply JSMapFacts.get_set_eq.
  - apply JSMapFacts.get_set_eq.
  - intros Hne. unfold OrderService.getPendingOrderForPayment. simpl.
    rewrite JSMapFacts.get_set_eq.
    apply String.eqb_neq in Hne. rewrite Hne.
    apply JSMapFacts.get_set_eq.
Qed.

Lemma X5_place_order_registers_payment_witness :
  exists pk,
    Some "pkA" = Some pk /\
    JSMap.get "e1" (pendingPayments example_placed)
    = Some (PendingPayment.mk "e1" "alice" pk "o1" (30 * UCT) "coin" 1001 0).
Proof.
  assert (H : place_order (init example_config) "alice" "mug-white"
                 (Some (Integer 2)) None (Some "pkA") "o1" 1000
                 "Order #o1: 2x Unicity White Mug" "e1" 1001
               = (example_placed,
                  inr (snd (OrderService.createOrder OrderService.new "alice"
                              mug_white 2 None "o1" 1000),
                       mkHandle "e1" 0 0)))
    by (vm_compute; reflexivity).
  destruct (X5_place_order_registers_payment _ _ _ _ _ _ _ _ _ _ _ _ _ _ H)
    as (pk & Hpk & _ & Hget & _).
  exists pk. split; [exact Hpk|]. rewrite Hget. vm_compute. reflexivity.
Defined.

(** X6.  [confirm_order] sends a payment request and waits exactly when
    the service is connected, the buyer's key was resolved to a non-empty
    string, and the order exists, belongs to the buyer and is still
    [pending_payment]; in every other case (no key or an empty one,
    unknown order, someone else's order, an order already paid, shipped or
    delivered) it leaves the state untouched, so nothing is sent and
    nothing is registered. *)
Theorem X6_confirm_order_sends_iff (st : State) (unicityId order_id : string)
    (pubkey : option string) (message eventId : string) (now : Z) (w : nat) :
  ((exists h,
      snd (confirm_order st unicityId order_id pubkey message eventId now w)
      = ConfirmWaiting h) <->
   (client st = true /\
    exists pk order,
      pubkey = Some pk /\ pk <> "" /\
      OrderService.getOrder (orderService st) order_id = Some order /\
      Order.unicityId order = unicityId /\
      Order.status order = pending_payment)) /\
  ((forall h,
      snd (confirm_order st unicityId order_id pubkey message eventId now w)
      <> ConfirmWaiting h) ->
   fst (confirm_order st unicityId order_id pubkey message eventId now w)
   = st).
Proof.
  unfold confirm_order.
  destruct pubkey as [pk|].
  2:{ split; [split|easy].
      - now intros [h [=]].
      - now intros (_ & ? & ? & [=] & _). }
  destruct (truthy pk) eqn:Et; cbn [negb].
  2:{ split; [split|easy].
      - now intros [h [=]].
      - intros (_ & pk' & ? & [= <-] & Hne & _).
        apply truthy_true in Hne. congruence. }
  apply truthy_true in Et.
  destruct (OrderService.getOrder (orderService st) order_id) as [order|].
  2:{ split; [split|easy].
      - now intros [h [=]].
      - now intros (_ & ? & ? & _ & _ & [=] & _). }
  destruct (String.eqb_spec (Order.unicityId order) unicityId) as [Hu|Hu];
    simpl.
  2:{ split; [split|easy].
      - now intros [h [=]].
      - intros (_ & ? & ? & _ & _ & [= <-] & Hu' & _). contradiction. }
  destruct (Order.status order) eqn:Es;
    try (split; [split|easy];
         [now intros [h [=]]
         |intros (_ & ? & ? & _ & _ & [= <-] & _ & Hs); congruence]).
  unfold sendPaymentRequest, sendPaymentRequest_call.
  destruct (client st) eqn:Hcl; simpl.
  - split; [split|].
    + intros _. split; [easy|]. now exists pk, order.
    + intros _. eexists. reflexivity.
    + intros H. exfalso. eapply H. reflexivity.
  - split; [split|easy].
    + now intros [h [=]].
    + now intros ([=] & _).
Qed.

Lemma X6_confirm_order_sends_iff_witness :
  exists h,
    snd (confirm_order example_placed "alice" "o1" (Some "pkA")
           "Order #o1: 2x Unicity White Mug" "e2" 5000 7)
    = ConfirmWaiting h.
Proof.
  apply (proj1 (X6_confirm_order_sends_iff example_placed "alice" "o1"
                  (Some "pkA") "Order #o1: 2x Unicity White Mug" "e2" 5000
                  7)).
  split; [reflexivity|].
  exists "pkA",
    (Order.mk "o1" "alice" "mug-white" None 2 (30 * UCT) pending_payment 1000
       None).
  split; [reflexivity|]. split; [discriminate|].
  split; [vm_compute; reflexivity|]. split; reflexivity.
Defined.
(** One settlement resumes the caller attached by
    [waitForExistingPayment] before the caller of [waitForPayment], whose
    [await] is one [then] further from the payment promise. *)
Lemma attached_caller_resumes_first :
  observed example_paid_attached = [(8%nat, true); (7%nat, true)] /\
  jobs example_paid_attached = [].
Proof. split; vm_compute; reflexivity. Qed.

(** * Further properties of the payment service *)

Lemma run_snoc st tr a : run st (tr ++ [a]) = step (run st tr) a.
Proof. unfold run. now rewrite fold_left_app. Qed.

Lemma drain_frames st : frames (drain st) = frames st.
Proof. apply drain_spec. Qed.

Lemma drain_jobs st : jobs (drain st) = [].
Proof. apply drain_spec. Qed.

Lemma drain_cells st : cells (drain st) = cells st.
Proof. apply drain_spec. Qed.

Lemma drain_timers st : timers (drain st) = clear_all (jobs st) (timers st).
Proof. now rewrite drain_eq. Qed.

(** Every frame of a handler run holds an entry that was in the map when
    the run began. *)
Lemma block_frames_In st a f :
  In f (frames (block st a)) ->
  (exists f0, In f0 (frames st) /\ pendingKey f0 = pendingKey f /\
              pending f0 = pending f) \/
  In (pendingKey f, pending f) (pendingPayments st).
Proof.
  assert (Hkeep : In f (frames st) ->
    (exists f0, In f0 (frames st) /\ pendingKey f0 = pendingKey f /\
                pending f0 = pending f) \/
    In (pendingKey f, pending f) (pendingPayments st)).
  { intros H. left. now exists f. }
  assert (Hins : forall i f1 s fs,
    frames st !! i = Some f1 -> fs = frames st ->
    In f (<[i := mkFrame (pendingKey f1) (pending f1) s]> fs) ->
    (exists f0, In f0 (frames st) /\ pendingKey f0 = pendingKey f /\
                pending f0 = pending f) \/
    In (pendingKey f, pending f) (pendingPayments st)).
  { intros i f1 s fs Hl -> Hin. apply In_insert in Hin.
    destruct Hin as [->|Hin]; [|now apply Hkeep].
    left. exists f1. split; [|easy].
    apply list_elem_of_In. eapply list_elem_of_lookup_2. exact Hl. }
  destruct a as [u pr q sz fr now|o|pk amt msg|u pk o amt e now|h w|e w|ev
                 |i tj ok|i ok now|t]; simpl; try exact Hkeep.
  - unfold sendPaymentRequest_call. now destruct (client st).
  - unfold waitForPayment.
    destruct (then_same st (h_promise h) (mkReaction w (Some (h_timer h))))
      as (_ & _ & _ & _ & _ & _ & _ & -> & _).
    exact Hkeep.
  - unfold waitForExistingPayment.
    destruct (JSMap.get e (pendingPayments st)) as [pp|]; [|exact Hkeep].
    unfold new_promise.
    destruct (cells _ !! PendingPayment.resolve pp);
      match goal with |- context [then_ ?s ?p ?r] =>
        destruct (then_same s p r) as (_ & _ & _ & _ & _ & _ & _ & -> & _)
      end; exact Hkeep.
  - unfold handle_entry, handle_begin.
    destruct (negb (client st)); [exact Hkeep|].
    destruct (negb (date_is_valid ev)); [exact Hkeep|].
    destruct (negb (isTokenTransfer ev)); [exact Hkeep|].
    destruct (correlate st ev) as [[k p]|] eqn:Ec; [|exact Hkeep].
    simpl. intros Hin. apply in_app_or in Hin.
    destruct Hin as [Hin|[<-|[]]]; [now apply Hkeep|].
    right. simpl. now apply correlate_In with (ev := ev).
  - unfold handle_parsed.
    destruct (frames st !! i) as [f1|] eqn:Hl; [|exact Hkeep].
    destruct (stage f1); try exact Hkeep.
    destruct (resolve_then_delete_spec st f1 false) as (_ & _ & _ & Hfr).
    simpl in Hfr. unfold set_stage.
    destruct tj as [s|]; [|simpl; now apply Hins].
    destruct (negb (startsWith s "{") || negb (includes s "sourceToken"));
      [simpl; now apply Hins|].
    destruct (negb ok); simpl; now apply Hins.
  - unfold handle_processed.
    destruct (frames st !! i) as [f1|] eqn:Hl; [|exact Hkeep].
    destruct (stage f1); try exact Hkeep.
    unfold set_stage. simpl. apply Hins; [exact Hl|].
    destruct ok.
    + match goal with |- context [call_resolve ?s ?p ?b] =>
        destruct (call_resolve_same s p b)
          as (_ & _ & _ & _ & _ & _ & _ & -> & _) end.
      reflexivity.
    + now destruct (call_resolve_same st (pending f1) false)
        as (_ & _ & _ & _ & _ & _ & _ & -> & _).
  - unfold fireTimeout. destruct (timers st !! t) as [[tm|]|]; try exact Hkeep.
    simpl. destruct (JSMap.has (timer_eventId tm) (pendingPayments st));
      [|exact Hkeep].
    match goal with |- context [call_resolver ?s ?r ?b] =>
      destruct (call_resolver_same r s b)
        as (_ & _ & _ & _ & _ & _ & _ & -> & _) end.
    exact Hkeep.
Qed.

Lemma registered_by_snoc tr a pp :
  registered_by tr pp -> registered_by (tr ++ [a]) pp.
Proof. unfold registered_by. intros H. apply in_or_app. now left. Qed.

(** Every live entry and every entry held by a handler run was registered
    by a [sendPaymentRequest] of the trace, under its own event id. *)
Lemma run_registered cfg tr :
  (forall k pp, In (k, pp) (pendingPayments (run (init cfg) tr)) ->
                k = PendingPayment.eventId pp /\ registered_by tr pp) /\
  (forall f, In f (frames (run (init cfg) tr)) ->
             pendingKey f = PendingPayment.eventId (pending f) /\
             registered_by tr (pending f)).
Proof.
  induction tr as [|a tr [IHp IHf]] using rev_ind.
  - split; intros; contradiction.
  - rewrite run_snoc. unfold step.
    set (st := run (init cfg) tr) in *.
    assert (Hp : forall k pp, In (k, pp) (pendingPayments (block st a)) ->
              k = PendingPayment.eventId pp /\ registered_by (tr ++ [a]) pp).
    { intros k pp Hin.
      assert (Hsub :
        pendingPayments (block st a) = pendingPayments st \/
        (exists k0, pendingPayments (block st a)
                    = JSMap.delete k0 (pendingPayments st)) ->
        k = PendingPayment.eventId pp /\ registered_by (tr ++ [a]) pp).
      { intros [Hb|[k0 Hb]]; rewrite Hb in Hin.
        - destruct (IHp _ _ Hin). split; [easy|now apply registered_by_snoc].
        - apply JSMapFacts.In_delete in Hin.
          destruct (IHp _ _ Hin). split; [easy|now apply registered_by_snoc]. }
      pose proof (block_pendingPayments st a) as Hb.
      destruct a as [u pr q sz fr now|o|pk amt msg|u pk o amt e now|h w|e w|ev
                     |i tj ok|i ok now|t]; try (apply Hsub; exact Hb).
      cbv beta iota in Hb. rewrite Hb in Hin. apply In_set in Hin.
      destruct Hin as [[= -> ->]|Hin].
      - split; [easy|]. unfold registered_by. simpl.
        apply in_or_app. right. now left.
      - destruct (IHp _ _ Hin). split; [easy|now apply registered_by_snoc]. }
    split.
    + intros k pp. rewrite drain_pendingPayments. apply Hp.
    + intros f. rewrite drain_frames. intros Hin.
      apply block_frames_In in Hin.
      destruct Hin as [(f0 & Hin & <- & <-)|Hin].
      * destruct (IHf _ Hin). split; [easy|now apply registered_by_snoc].
      * destruct (IHp _ _ Hin). split; [easy|now apply registered_by_snoc].
Qed.

Lemma getOrder_markAsShipped_settled os x id o :
  OrderService.getOrder (OrderService.markAsShipped os x) id = Some o ->
  Order.status o = paid \/ Order.status o = shipped ->
  exists o0, OrderService.getOrder os id = Some o0 /\
             (Order.status o0 = paid \/ Order.status o0 = shipped).
Proof.
  unfold OrderService.markAsShipped, OrderService.getOrder.
  destruct (JSMap.get x (OrderService.orders os)) as [order|] eqn:Hx;
    [|intros; now exists o].
  destruct (Order.status order) eqn:Es; try (intros; now exists o).
  simpl. destruct (String.eqb_spec id x) as [->|Hne].
  - rewrite JSMapFacts.get_set_eq. intros _ _. exists order. tauto.
  - rewrite JSMapFacts.get_set_ne by congruence. intros; now exists o.
Qed.

Lemma getOrder_markAsPaid_other os x now id :
  id <> x ->
  OrderService.getOrder (OrderService.markAsPaid os x now) id
  = OrderService.getOrder os id.
Proof.
  intros Hne. unfold OrderService.markAsPaid, OrderService.getOrder.
  destruct (JSMap.get x (OrderService.orders os)); [|easy].
  simpl. apply JSMapFacts.get_set_ne. congruence.
Qed.

(** X7.  In every state the server reaches, an order is [paid] or
    [shipped] only if a payment request was registered for that order and
    a handler run that had matched a transfer to that request came back
    from [processTokenTransfer] with success.  Nothing else marks an order
    paid: not its creation, not a timer, not a rejected or failed
    transfer. *)
Theorem X7_paid_only_after_successful_transfer (cfg : Config)
    (tr : list Action) (id : string) (o : Order.t) :
  OrderService.getOrder (orderService (run (init cfg) tr)) id = Some o ->
  Order.status o = paid \/ Order.status o = shipped ->
  exists tr1 i now tr2 f,
    tr = tr1 ++ Processed i true now :: tr2 /\
    frames (run (init cfg) tr1) !! i = Some f /\
    stage f = AwaitProcess /\
    PendingPayment.orderId (pending f) = id /\
    registered_by tr1 (pending f).
Proof.
  revert o. induction tr as [|a tr IH] using rev_ind; intros o Hget Hst.
  - discriminate.
  - assert (Hold : forall o0,
      OrderService.getOrder (orderService (run (init cfg) tr)) id = Some o0 ->
      Order.status o0 = paid \/ Order.status o0 = shipped ->
      exists tr1 i now tr2 f,
        tr ++ [a] = tr1 ++ Processed i true now :: tr2 /\
        frames (run (init cfg) tr1) !! i = Some f /\
        stage f = AwaitProcess /\
        PendingPayment.orderId (pending f) = id /\
        registered_by tr1 (pending f)).
    { intros o0 H0 Hs0.
      destruct (IH o0 H0 Hs0) as (tr1 & i & now & tr2 & f & -> & H).
      exists tr1, i, now, (tr2 ++ [a]), f. split; [|exact H].
      now rewrite <- app_assoc. }
    rewrite run_snoc in Hget. unfold step in Hget.
    rewrite drain_orderService, block_orderService in Hget.
    set (st := run (init cfg) tr) in *.
    destruct a as [u pr q sz fr now|x|pk amt msg|u pk x amt e now|h w|e w|ev
                   |i tj ok|i ok now|t]; try (now apply (Hold o)).
    + revert Hget. unfold OrderService.getOrder. simpl.
      destruct (String.eqb_spec id fr) as [->|Hne].
      * rewrite JSMapFacts.get_set_eq. intros [= <-]. simpl in Hst.
        destruct Hst; discriminate.
      * rewrite JSMapFacts.get_set_ne by congruence. intros Hget.
        now apply (Hold o).
    + destruct (getOrder_markAsShipped_settled _ _ _ _ Hget Hst)
        as (o0 & H0 & Hs0).
      now apply (Hold o0).
    + destruct ok; [|now apply (Hold o)].
      destruct (frames st !! i) as [f|] eqn:Hf; [|now apply (Hold o)].
      destruct (stage f) eqn:Hs; try (now apply (Hold o)).
      destruct (String.eqb_spec id (PendingPayment.orderId (pending f)))
        as [->|Hne].
      * exists tr, i, now, [], f. repeat split; try easy.
        apply (run_registered cfg tr).
        apply list_elem_of_In. eapply list_elem_of_lookup_2. exact Hf.
      * rewrite getOrder_markAsPaid_other in Hget by exact Hne.
        now apply (Hold o).
Qed.

Lemma X7_paid_only_after_successful_transfer_witness :
  exists tr1 i now tr2 f,
    example_race_prefix ++ [Processed 0 true 121500]
    = tr1 ++ Processed i true now :: tr2 /\
    frames (run (init example_config) tr1) !! i = Some f /\
    stage f = AwaitProcess /\
    PendingPayment.orderId (pending f) = "o1" /\
    registered_by tr1 (pending f).
Proof.
  assert (H : OrderService.getOrder
                (orderService
                   (run (init example_config)
                      (example_race_prefix ++ [Processed 0 true 121500])))
                "o1"
              = Some (Order.mk "o1" "alice" "mug-white" None 2 (30 * UCT) paid
                        1000 (Some 121500)))
    by (vm_compute; reflexivity).
  apply (X7_paid_only_after_successful_transfer example_config
           (example_race_prefix ++ [Processed 0 true 121500]) "o1" _ H).
  left. reflexivity.
Defined.
(** ** Settlement reaches every waiter *)

Lemma settle_one_settled ps q b p v rs :
  ps !! p = Some (mkPromise (Some v) rs) ->
  fst (settle_one ps q b) !! p = Some (mkPromise (Some v) rs).
Proof.
  intros H. unfold settle_one.
  destruct (ps !! q) as [[[v0|] rs0]|] eqn:Hq; simpl; try exact H.
  destruct (Nat.eq_dec q p) as [->|Hne]; [congruence|].
  now rewrite list_lookup_insert_ne.
Qed.

Lemma settle_all_settled ps r b p v rs :
  ps !! p = Some (mkPromise (Some v) rs) ->
  fst (settle_all ps r b) !! p = Some (mkPromise (Some v) rs).
Proof.
  revert ps. induction r as [q|r IH q]; intros ps H; simpl.
  - now apply settle_one_settled.
  - specialize (IH ps H). destruct (settle_all ps r b) as [ps1 js1].
    simpl in IH. pose proof (settle_one_settled ps1 q b p v rs IH) as H1.
    now destruct (settle_one ps1 q b).
Qed.

Lemma settle_one_pending ps p b rs :
  ps !! p = Some (mkPromise None rs) ->
  settle_one ps p b
  = (<[p := mkPromise (Some b) []]> ps, map (fun r => (r, b)) rs).
Proof. intros H. unfold settle_one. now rewrite H. Qed.

(** Calling a resolve function settles every pending promise it reaches
    and queues every reaction registered on one of them. *)
Lemma settle_all_mentions ps r b p rs :
  mentions p r -> ps !! p = Some (mkPromise None rs) ->
  fst (settle_all ps r b) !! p = Some (mkPromise (Some b) []) /\
  forall x, In x rs -> In (x, b) (snd (settle_all ps r b)).
Proof.
  revert ps. induction r as [q|r IH q]; intros ps Hm Hp; simpl in *.
  - subst q. rewrite (settle_one_pending _ _ _ _ Hp). simpl. split.
    + apply list_lookup_insert_eq. now apply lookup_lt_Some in Hp.
    + intros x Hx. apply in_map_iff. now exists x.
  - destruct (mentions_dec p r) as [Hr|Hr].
    + destruct (IH ps Hr Hp) as [H1 H2].
      destruct (settle_all ps r b) as [ps1 js1]. simpl in *.
      pose proof (settle_one_settled ps1 q b p b [] H1) as H3.
      destruct (settle_one ps1 q b) as [ps2 js2]. simpl in *.
      split; [exact H3|]. intros x Hx. apply in_or_app. left. now apply H2.
    + destruct Hm as [Hm | ->]; [contradiction|].
      pose proof (settle_all_lookup_ne ps p r b Hr) as H1.
      destruct (settle_all ps r b) as [ps1 js1]. simpl in *.
      rewrite Hp in H1. rewrite (settle_one_pending _ _ _ _ H1). simpl.
      split.
      * apply list_lookup_insert_eq. now apply lookup_lt_Some in H1.
      * intros x Hx. apply in_or_app. right. apply in_map_iff. now exists x.
Qed.

Lemma clear_all_cleared js ts j t tm :
  In j js -> clears (fst j) = Some t -> clear_all js ts !! t <> Some (Some tm).
Proof.
  revert ts. induction js as [|j0 js IH]; intros ts Hin Hc; [easy|].
  change (clear_all (j0 :: js) ts)
    with (clear_all js (match clears (fst j0) with
                        | Some t0 => clearTimeout ts t0
                        | None => ts
                        end)).
  destruct Hin as [->|Hin]; [|now apply IH].
  rewrite Hc. intros H. apply clear_all_lookup in H. unfold clearTimeout in H.
  apply list_lookup_insert_Some in H.
  destruct H as [(_ & [=] & _)|(Hne & _)]; congruence.
Qed.

Lemma fireTimeout_spent st t :
  (forall tm, timers st !! t <> Some (Some tm)) -> fireTimeout st t = st.
Proof.
  intros H. unfold fireTimeout.
  destruct (timers st !! t) as [[tm|]|] eqn:E; try reflexivity.
  now destruct (H tm).
Qed.

Lemma step_Timeout_spent st t :
  jobs st = [] -> (forall tm, timers st !! t <> Some (Some tm)) ->
  step st (Timeout t) = st.
Proof.
  intros Hj H. unfold step. simpl. rewrite (fireTimeout_spent _ _ H).
  now apply drain_idle.
Qed.

(** X8.  When [processTokenTransfer] returns to a handler run, the order
    is marked paid exactly when it returned success, and the result is
    handed to everybody waiting for the payment: every promise still
    pending that the stored [resolve] function reaches (the one created at
    registration and those of [waitForExistingPayment]) is settled with
    the result, each caller waiting on one of them is resumed with it, and
    a timer cleared by such a caller does nothing when it later expires.
    Promises the [resolve] function does not reach, and promises settled
    before, are as they were. *)
Theorem X8_transfer_settles_every_waiter (st : State) (i : nat) (f : Frame)
    (r : Resolver) (success : bool) (now : Z) :
  frames st !! i = Some f -> stage f = AwaitProcess ->
  cells st !! PendingPayment.resolve (pending f) = Some r ->
  jobs st = [] ->
  orderService (step st (Processed i success now))
  = (if success
     then OrderService.markAsPaid (orderService st)
            (PendingPayment.orderId (pending f)) now
     else orderService st) /\
  (forall p rs,
     mentions p r -> promises st !! p = Some (mkPromise None rs) ->
     promises (step st (Processed i success now)) !! p
     = Some (mkPromise (Some success) []) /\
     forall x, In x rs ->
       In (waiter x, success) (observed (step st (Processed i success now))) /\
       forall t, clears x = Some t ->
         step (step st (Processed i success now)) (Timeout t)
         = step st (Processed i success now)) /\
  (forall p, ~ mentions p r ->
     promises (step st (Processed i success now)) !! p = promises st !! p) /\
  (forall p v rs,
     promises st !! p = Some (mkPromise (Some v) rs) ->
     promises (step st (Processed i success now)) !! p
     = Some (mkPromise (Some v) rs)).
Proof.
  intros Hf Hs Hc Hj.
  rewrite (step_env st (Processed i success now) Hj eq_refl).
  unfold carry_out, plan. rewrite Hf, Hs. cbn [plan_orderService
    plan_pendingPayments plan_timers plan_frames plan_effect].
  rewrite Hc. unfold updated. cbn [option_map apply_effect].
  cbn [orderService promises observed].
  split; [reflexivity|]. split; [|split].
  - intros p rs Hm Hp.
    destruct (settle_all_mentions _ _ success _ _ Hm Hp) as [H1 H2].
    split; [exact H1|]. intros x Hx. split.
    + apply in_or_app. right. apply resumed_In.
      apply (in_map (fun j => (waiter (fst j), snd j)) _ (x, success)).
      now apply H2.
    + intros t Ht. apply step_Timeout_spent; [reflexivity|].
      intros tm. cbn [timers].
      apply (clear_all_cleared _ _ (x, success)); [now apply H2|exact Ht].
  - intros p Hm. now apply settle_all_lookup_ne.
  - intros p v rs Hp. now apply settle_all_settled.
Qed.

Lemma X8_transfer_settles_every_waiter_witness :
  promises (step example_before_processed (Processed 0 true 121500)) !! 1%nat
  = Some (mkPromise (Some true) []) /\
  In (8%nat, true)
    (observed (step example_before_processed (Processed 0 true 121500))).
Proof.
  assert (Hf : frames example_before_processed !! 0%nat
               = Some (mkFrame "e1"
                         (PendingPayment.mk "e1" "alice" "pkA" "o1" (30 * UCT)
                            "coin" 1001 0) AwaitProcess))
    by (vm_compute; reflexivity).
  assert (Hc : cells example_before_processed !! 0%nat
               = Some (Chained (ResolveOf 0) 1)) by (vm_compute; reflexivity).
  assert (Hj : jobs example_before_processed = [])
    by (vm_compute; reflexivity).
  assert (Hp : promises example_before_processed !! 1%nat
               = Some (mkPromise None [mkReaction 8 None]))
    by (vm_compute; reflexivity).
  destruct (X8_transfer_settles_every_waiter example_before_processed 0 _
              (Chained (ResolveOf 0) 1) true 121500 Hf eq_refl Hc Hj)
    as (_ & H & _).
  destruct (H 1%nat [mkReaction 8 None] (or_intror eq_refl) Hp) as [H1 H2].
  split; [exact H1|].
  exact (proj1 (H2 (mkReaction 8 None) (or_introl eq_refl))).
Defined.

(** ** Callers attached by [waitForExistingPayment] *)

Lemma get_Some_key {V} k (v : V) (m : JSMap.t V) :
  In (k, v) m -> JSMap.get k m <> None.
Proof.
  intros Hin Hn. apply JSMapFacts.get_None_not_key in Hn. apply Hn.
  unfold JSMap.keys. apply in_map_iff. now exists (k, v).
Qed.

(** The state after [waitForExistingPayment(e)] and the caller's [await]. *)
Lemma step_Attach st e pp w r0 :
  jobs st = [] -> JSMap.get e (pendingPayments st) = Some pp ->
  cells st !! PendingPayment.resolve pp = Some r0 ->
  step st (Attach e w)
  = mkState (client st) (config st) (orderService st) (pendingPayments st)
      (<[PendingPayment.resolve pp := Chained r0 (length (promises st))]>
         (cells st))
      (promises st ++ [mkPromise None [mkReaction w None]]) []
      (observed st) (timers st) (outbox st) (frames st).
Proof.
  intros Hj Hg Hc. unfold step. simpl. unfold waitForExistingPayment.
  rewrite Hg. unfold new_promise. cbn [cells with_promises]. rewrite Hc.
  unfold then_. cbn [promises with_cells with_promises].
  rewrite lookup_last. rewrite drain_eq. simpl.
  rewrite insert_last, Hj. simpl. now rewrite app_nil_r.
Qed.

(** X10.  A caller attached by [waitForExistingPayment] to a live entry
    waits on a new promise, which the entry's [resolve] function now
    reaches; the closures of the timers keep the [resolve] function they
    captured at registration.  So whichever timers expire afterwards, and
    in whatever order, the attached caller is not resumed: its promise is
    still pending. *)
Theorem X10_attached_waiter_never_times_out (st : State) (e : string)
    (pp : PendingPayment.t) (w : nat) (expired : list nat) :
  well_formed st ->
  JSMap.get e (pendingPayments st) = Some pp ->
  (exists r0,
     cells st !! PendingPayment.resolve pp = Some r0 /\
     cells (step st (Attach e w)) !! PendingPayment.resolve pp
     = Some (Chained r0 (length (promises st)))) /\
  pendingPayments (step st (Attach e w)) = pendingPayments st /\
  promises (run (step st (Attach e w)) (map Timeout expired))
    !! length (promises st)
  = Some (mkPromise None [mkReaction w None]).
Proof.
  intros Hwf Hg.
  destruct Hwf as (Hcells & Htimers & Hpp & _ & Hj).
  assert (Hlt : (PendingPayment.resolve pp < length (cells st))%nat).
  { apply (Hpp e). now apply JSMapFacts.get_Some_In. }
  destruct (lookup_lt_is_Some_2 _ _ Hlt) as [r0 Hc].
  rewrite (step_Attach st e pp w r0 Hj Hg Hc).
  split; [|split; [reflexivity|]].
  { exists r0. split; [exact Hc|]. cbn [cells].
    now apply list_lookup_insert_eq. }
  set (q := length (promises st)).
  assert (Hinv : forall s,
    jobs s = [] ->
    promises s !! q = Some (mkPromise None [mkReaction w None]) ->
    (forall i tm, timers s !! i = Some (Some tm) ->
                  ~ mentions q (timer_resolve tm)) ->
    promises (run s (map Timeout expired)) !! q
    = Some (mkPromise None [mkReaction w None])).
  { clear. induction expired as [|t ts IH]; intros s Hj Hq Ht; [exact Hq|].
    change (run s (map Timeout (t :: ts)))
      with (run (step s (Timeout t)) (map Timeout ts)).
    rewrite (step_env s (Timeout t) Hj eq_refl).
    unfold carry_out, plan.
    destruct (timers s !! t) as [[tm|]|] eqn:Et.
    - destruct (JSMap.has (timer_eventId tm) (pendingPayments s));
        cbn [plan_orderService plan_pendingPayments plan_timers plan_frames
             plan_effect]; unfold updated; cbn [apply_effect]; apply IH;
        cbn [jobs promises timers fst snd]; try reflexivity.
      + rewrite settle_all_lookup_ne; [exact Hq|]. now apply (Ht t).
      + intros i tm' H. apply clear_all_lookup in H.
        apply list_lookup_insert_Some in H.
        destruct H as [(_ & [=] & _)|(_ & H)]. now apply (Ht i).
      + exact Hq.
      + intros i tm' H. simpl in H.
        apply list_lookup_insert_Some in H.
        destruct H as [(_ & [=] & _)|(_ & H)]. now apply (Ht i).
    - unfold unchanged, updated. simpl. apply IH; simpl; try easy.
    - unfold unchanged, updated. simpl. apply IH; simpl; try easy. }
  apply Hinv; cbn [jobs promises timers].
  - reflexivity.
  - apply lookup_last.
  - intros i tm H. apply bounded_not_mentions. now apply (Htimers i).
Qed.

Lemma X10_attached_waiter_never_times_out_witness :
  promises (run (step example_registered (Attach "e1" 8))
              (map Timeout [0%nat; 0%nat]))
    !! length (promises example_registered)
  = Some (mkPromise None [mkReaction 8 None]).
Proof.
  assert (Hg : JSMap.get "e1" (pendingPayments example_registered)
               = Some (PendingPayment.mk "e1" "alice" "pkA" "o1" (30 * UCT)
                         "coin" 1001 0)) by (vm_compute; reflexivity).
  apply (X10_attached_waiter_never_times_out example_registered "e1" _ 8
           [0%nat; 0%nat]
           (run_well_formed _ _ (init_well_formed example_config)) Hg).
Defined.

(** X11.  [getPendingPaymentForOrder] returns the key of the first live
    entry, in insertion order, whose [orderId] is the one asked for, and
    [null] exactly when no live entry names that order; on a key it
    returned, [waitForExistingPayment] does not answer [null]. *)
Theorem X11_pending_payment_lookup (st : State) (orderId : string) :
  (forall k,
     getPendingPaymentForOrder st orderId = Some k ->
     (exists pp m1 m2,
        pendingPayments st = m1 ++ (k, pp) :: m2 /\
        PendingPayment.orderId pp = orderId /\
        forall k' pp', In (k', pp') m1 ->
                       PendingPayment.orderId pp' <> orderId) /\
     waitForExistingPayment st k <> None) /\
  (getPendingPaymentForOrder st orderId = None <->
   forall k pp, In (k, pp) (pendingPayments st) ->
                PendingPayment.orderId pp <> orderId).
Proof.
  unfold getPendingPaymentForOrder. split.
  - intros k.
    destruct (JSMap.find_first _ (pendingPayments st)) as [[k0 pp]|] eqn:Ef;
      [|discriminate].
    intros [= <-].
    apply JSMapFacts.find_first_Some in Ef.
    destruct Ef as (m1 & m2 & Hm & HP & Hpre). split.
    + exists pp, m1, m2. split; [exact Hm|].
      split; [now apply String.eqb_eq|].
      intros k' pp' Hin. apply String.eqb_neq. now apply (Hpre k').
    + unfold waitForExistingPayment.
      destruct (JSMap.get k0 (pendingPayments st)) as [pp0|] eqn:Eg.
      * unfold new_promise.
        now destruct (cells _ !! PendingPayment.resolve pp0).
      * exfalso. revert Eg. apply (get_Some_key k0 pp).
        rewrite Hm. apply in_or_app. right. now left.
  - destruct (JSMap.find_first _ (pendingPayments st)) as [[k0 pp]|] eqn:Ef.
    + split; [discriminate|]. intros H.
      apply JSMapFacts.find_first_Some in Ef.
      destruct Ef as (m1 & m2 & Hm & HP & _).
      apply String.eqb_eq in HP. exfalso. apply (H k0 pp); [|exact HP].
      rewrite Hm. apply in_or_app. right. now left.
    + split; [|reflexivity]. intros _ k pp Hin.
      apply String.eqb_neq.
      now apply (proj1 (JSMapFacts.find_first_None _ _) Ef k pp).
Qed.

Lemma X11_pending_payment_lookup_witness :
  waitForExistingPayment example_placed "e1" <> None.
Proof.
  assert (H : getPendingPaymentForOrder example_placed "o1" = Some "e1")
    by (vm_compute; reflexivity).
  apply (proj1 (X11_pending_payment_lookup example_placed "o1") "e1" H).
Defined.

(** ** What the return of [parseTokenTransfer] does *)

(** X12.  When [parseTokenTransfer] throws, the handler run ends and the
    request stays as it was: the entry is still live and matched by the
    same events, nobody is resumed, and the orders, promises and timers
    are untouched.  When it returns text that does not start with a brace,
    does not contain [sourceToken], or is rejected by [JSON.parse], the
    request is refused at once: every pending promise the entry's
    [resolve] function reaches is settled with [false], the callers
    waiting on them are resumed with [false], and no order changes.  In
    both cases this handler run can no longer be resumed. *)
Theorem X12_outcome_of_parsing (st : State) (i : nat) (f : Frame) :
  frames st !! i = Some f -> stage f = AwaitParse -> jobs st = [] ->
  (forall json_ok,
     pendingPayments (step st (Parsed i None json_ok)) = pendingPayments st /\
     promises (step st (Parsed i None json_ok)) = promises st /\
     observed (step st (Parsed i None json_ok)) = observed st /\
     orderService (step st (Parsed i None json_ok)) = orderService st /\
     timers (step st (Parsed i None json_ok)) = timers st /\
     (forall ev, correlate (step st (Parsed i None json_ok)) ev
                 = correlate st ev)) /\
  (forall s json_ok r,
     startsWith s "{" && includes s "sourceToken" && json_ok = false ->
     cells st !! PendingPayment.resolve (pending f) = Some r ->
     orderService (step st (Parsed i (Some s) json_ok)) = orderService st /\
     forall p rs,
       mentions p r -> promises st !! p = Some (mkPromise None rs) ->
       promises (step st (Parsed i (Some s) json_ok)) !! p
       = Some (mkPromise (Some false) []) /\
       forall x, In x rs ->
         In (waiter x, false)
            (observed (step st (Parsed i (Some s) json_ok)))) /\
  (forall tokenJson json_ok success now,
     startsWith (default "" tokenJson) "{"
     && includes (default "" tokenJson) "sourceToken" && json_ok = false ->
     step (step st (Parsed i tokenJson json_ok)) (Processed i success now)
     = step st (Parsed i tokenJson json_ok)).
Proof.
  intros Hf Hs Hj.
  assert (Hstep : forall tj ok,
    step st (Parsed i tj ok) = carry_out st (plan st (Parsed i tj ok))).
  { intros. now apply step_env. }
  assert (Hplan : forall s ok,
    startsWith s "{" && includes s "sourceToken" && ok = false ->
    plan st (Parsed i (Some s) ok) = rejected_plan st i f).
  { intros s ok Hbad. unfold plan. rewrite Hf, Hs.
    destruct (startsWith s "{"); [|reflexivity].
    destruct (includes s "sourceToken"); [|reflexivity].
    simpl in Hbad. now rewrite Hbad. }
  split; [|split].
  - intros ok. rewrite Hstep. unfold carry_out, plan. rewrite Hf, Hs.
    unfold updated. simpl. rewrite app_nil_r. repeat split.
  - intros s ok r Hbad Hc. rewrite Hstep, (Hplan s ok Hbad).
    unfold carry_out, rejected_plan, updated.
    cbn [plan_orderService plan_pendingPayments plan_timers plan_frames
         plan_effect orderService promises observed].
    rewrite Hc. cbn [option_map apply_effect].
    split; [reflexivity|]. intros p rs Hm Hp.
    destruct (settle_all_mentions _ _ false _ _ Hm Hp) as [H1 H2].
    split; [exact H1|]. intros x Hx. apply in_or_app. right.
    apply resumed_In.
    apply (in_map (fun j => (waiter (fst j), snd j)) _ (x, false)).
    now apply H2.
  - intros tj ok success now Hbad.
    assert (Hfin : frames (step st (Parsed i tj ok)) !! i
                   = Some (finish f Finished)).
    { rewrite Hstep. destruct tj as [s|].
      - rewrite (Hplan s ok Hbad). unfold carry_out, rejected_plan, updated.
        simpl. apply list_lookup_insert_eq. now apply lookup_lt_Some in Hf.
      - unfold carry_out, plan. rewrite Hf, Hs. unfold updated. simpl.
        apply list_lookup_insert_eq. now apply lookup_lt_Some in Hf. }
    unfold step at 1. simpl. unfold handle_processed. rewrite Hfin. simpl.
    apply drain_idle. unfold step. apply drain_jobs.
Qed.

Lemma X12_outcome_of_parsing_witness :
  pendingPayments
    (step (step example_waiting (Incoming example_reply)) (Parsed 0 None true))
  = pendingPayments (step example_waiting (Incoming example_reply)) /\
  observed
    (step (step example_waiting (Incoming example_reply)) (Parsed 0 None true))
  = observed (step example_waiting (Incoming example_reply)).
Proof.
  assert (Hf : frames (step example_waiting (Incoming example_reply)) !! 0%nat
               = Some (mkFrame "e1"
                         (PendingPayment.mk "e1" "alice" "pkA" "o1" (30 * UCT)
                            "coin" 1001 0) AwaitParse))
    by (vm_compute; reflexivity).
  assert (Hj : jobs (step example_waiting (Incoming example_reply)) = [])
    by (vm_compute; reflexivity).
  destruct (X12_outcome_of_parsing _ 0 _ Hf eq_refl Hj) as (H & _).
  destruct (H true) as (H1 & _ & H3 & _).
  split; [exact H1|exact H3].
Defined.
(** * Cleaning a Unicity ID *)

Lemma prefix_cons a s1 b s2 :
  String.prefix (String a s1) (String b s2)
  = if Ascii.ascii_dec a b then String.prefix s1 s2 else false.
Proof. reflexivity. Qed.

Lemma prefix_at_false pat c s :
  c <> "@"%char -> String.prefix (String "@" pat) (String c s) = false.
Proof.
  intros Hc. rewrite prefix_cons.
  destruct (Ascii.ascii_dec "@" c) as [E|E]; [|reflexivity].
  now destruct Hc.
Qed.

Lemma prefix_refl s : String.prefix s s = true.
Proof.
  induction s as [|c s IH]; [reflexivity|]. rewrite prefix_cons.
  now destruct (Ascii.ascii_dec c c).
Qed.

Lemma skip_length s : skip (String.length s) s = "".
Proof. induction s as [|c s IH]; [reflexivity|exact IH]. Qed.

Lemma skip_length_app s t :
  skip (String.length s) (String.append s t) = t.
Proof. induction s as [|c s IH]; [now destruct t|exact IH]. Qed.

Lemma replace_eq s pat rep :
  replace s pat rep
  = if String.prefix pat s
    then String.append rep (skip (String.length pat) s)
    else match s with
         | EmptyString => EmptyString
         | String c s' => String c (replace s' pat rep)
         end.
Proof. now destruct s. Qed.

Lemma has_at_cons c s : has_at (String c s) <-> c = "@"%char \/ has_at s.
Proof. unfold has_at. simpl. split; intros [H|H]; auto. Qed.

(** Without an at-sign there is nothing to replace. *)
Lemma replace_no_at s pat rep :
  ~ has_at s -> replace s (String "@" pat) rep = s.
Proof.
  induction s as [|c s IH]; intros H; [reflexivity|].
  rewrite has_at_cons in H.
  rewrite replace_eq, prefix_at_false by tauto. f_equal. apply IH. tauto.
Qed.

Lemma replace_suffix n pat :
  ~ has_at n ->
  replace (String.append n (String "@" pat)) (String "@" pat) "" = n.
Proof.
  induction n as [|c n IH]; intros H.
  - change (String.append "" (String "@" pat)) with (String "@" pat).
    rewrite replace_eq, prefix_refl. apply skip_length.
  - rewrite has_at_cons in H.
    change (String.append (String c n) (String "@" pat))
      with (String c (String.append n (String "@" pat))).
    rewrite replace_eq, prefix_at_false by tauto. f_equal. apply IH. tauto.
Qed.

Lemma replace_prefix s pat : replace (String.append pat s) pat "" = s.
Proof.
  rewrite replace_eq.
  assert (H : String.prefix pat (String.append pat s) = true).
  { induction pat as [|c pat IH]; [now destruct s|].
    change (String.append (String c pat) s)
      with (String c (String.append pat s)).
    rewrite prefix_cons. now destruct (Ascii.ascii_dec c c). }
  rewrite H. apply skip_length_app.
Qed.

(** A pattern without at-sign that is not at the start of [n] is not at
    the start of [n] followed by an at-sign either. *)
Lemma prefix_before_at u n t :
  ~ has_at u -> String.prefix u n = false ->
  String.prefix u (String.append n (String "@" t)) = false.
Proof.
  revert u. induction n as [|c n IH]; intros u Hu Hp.
  - destruct u as [|a u]; [discriminate|].
    rewrite has_at_cons in Hu.
    change (String.append "" (String "@" t)) with (String "@" t).
    rewrite prefix_cons.
    destruct (Ascii.ascii_dec a "@") as [->|]; [|reflexivity]. tauto.
  - destruct u as [|a u]; [discriminate|].
    rewrite has_at_cons in Hu.
    change (String.append (String c n) (String "@" t))
      with (String c (String.append n (String "@" t))).
    rewrite prefix_cons in *.
    destruct (Ascii.ascii_dec a c); [|reflexivity]. apply IH; tauto.
Qed.

(** X13.  What the cleaning expression makes of the ways to write a name
    [n] that holds no at-sign and no white space at its ends: [n] itself
    and [n@unicity] give [n]; [@n] and [@n@unicity] give [n] unless [n]
    begins with [unicity]; and whatever follows a leading [@unicity] is
    taken as the name, so that [@unicityfan] is cleaned to [fan]. *)
Theorem X13_cleanUnicityId_forms (n : string) :
  plain_name n ->
  cleanUnicityId n = n /\
  cleanUnicityId (String.append n "@unicity") = n /\
  cleanUnicityId (String.append "@unicity" n) = n /\
  (String.prefix "unicity" n = false ->
   cleanUnicityId (String "@" n) = n /\
   cleanUnicityId (String "@" (String.append n "@unicity")) = n).
Proof.
  intros [Hat Htrim]. unfold cleanUnicityId.
  assert (H1 : forall s, String.prefix "@unicity" (String "@" s)
                         = String.prefix "unicity" s).
  { intros s. rewrite prefix_cons. now destruct (Ascii.ascii_dec "@" "@"). }
  split; [|split; [|split]].
  - now rewrite !(replace_no_at n) by exact Hat.
  - now rewrite replace_suffix, (replace_no_at n) by exact Hat.
  - now rewrite replace_prefix, (replace_no_at n) by exact Hat.
  - intros Hp. split.
    + rewrite (replace_eq (String "@" n) "@unicity"), H1, Hp.
      rewrite (replace_no_at n) by exact Hat.
      change (String "@" n) with (String.append "@" n).
      rewrite (replace_prefix n "@"). exact Htrim.
    + rewrite (replace_eq (String "@" (String.append n "@unicity"))
                 "@unicity"), H1.
      rewrite prefix_before_at; [|vm_compute; intuition discriminate|exact Hp].
      rewrite replace_suffix by exact Hat.
      change (String "@" n) with (String.append "@" n).
      rewrite (replace_prefix n "@"). exact Htrim.
Qed.

Lemma X13_cleanUnicityId_forms_witness :
  cleanUnicityId "alice@unicity" = "alice" /\
  cleanUnicityId "@alice" = "alice".
Proof.
  assert (H : plain_name "alice").
  { split; [vm_compute; intuition discriminate|reflexivity]. }
  destruct (X13_cleanUnicityId_forms "alice" H) as (_ & H2 & _ & H4).
  split; [exact H2|]. now apply H4.
Defined.
Lemma trimEnd_eq c s :
  trimEnd (String c s)
  = match trimEnd s with
    | EmptyString => if isWhiteSpace c then EmptyString
                     else String c EmptyString
    | t => String c t
    end.
Proof. reflexivity. Qed.

Lemma trimEnd_trimEnd s : trimEnd (trimEnd s) = trimEnd s.
Proof.
  induction s as [|c s IH]; [reflexivity|].
  rewrite trimEnd_eq. destruct (trimEnd s) as [|c' t] eqn:E.
  - destruct (isWhiteSpace c) eqn:Ec; [reflexivity|].
    rewrite trimEnd_eq. simpl. now rewrite Ec.
  - rewrite trimEnd_eq, IH. reflexivity.
Qed.

Lemma trimStart_starts_clean s : starts_clean (trimStart s).
Proof.
  induction s as [|c s IH]; [exact I|]. simpl.
  destruct (isWhiteSpace c) eqn:Ec; [exact IH|exact Ec].
Qed.

Lemma trimStart_id s : starts_clean s -> trimStart s = s.
Proof. destruct s as [|c s]; [easy|]. simpl. now intros ->. Qed.

Lemma trimEnd_starts_clean s : starts_clean s -> starts_clean (trimEnd s).
Proof.
  destruct s as [|c s]; [easy|]. intros Hc. rewrite trimEnd_eq.
  destruct (trimEnd s); [|exact Hc]. simpl in Hc. now rewrite Hc.
Qed.

Lemma trim_trim s : trim (trim s) = trim s.
Proof.
  unfold trim. rewrite (trimStart_id (trimEnd (trimStart s))).
  - apply trimEnd_trimEnd.
  - apply trimEnd_starts_clean, trimStart_starts_clean.
Qed.

Lemma trimStart_length s :
  (String.length (trimStart s) <= String.length s)%nat.
Proof.
  induction s as [|c s IH]; [easy|]. simpl.
  destruct (isWhiteSpace c); simpl; lia.
Qed.

Lemma trimEnd_length s : (String.length (trimEnd s) <= String.length s)%nat.
Proof.
  induction s as [|c s IH]; [easy|]. rewrite trimEnd_eq.
  destruct (trimEnd s); [destruct (isWhiteSpace c)|]; simpl in *; lia.
Qed.

Lemma trim_length s : (String.length (trim s) <= String.length s)%nat.
Proof.
  unfold trim. pose proof (trimEnd_length (trimStart s)).
  pose proof (trimStart_length s). lia.
Qed.

Lemma prefix_skip_length pat s :
  String.prefix pat s = true ->
  (String.length (skip (String.length pat) s) + String.length pat
   = String.length s)%nat.
Proof.
  revert s. induction pat as [|a pat IH]; intros s H.
  - destruct s; simpl; lia.
  - destruct s as [|c s]; [discriminate|]. rewrite prefix_cons in H.
    destruct (Ascii.ascii_dec a c); [|discriminate].
    specialize (IH s H). simpl in *. lia.
Qed.

(** Removing the first occurrence of a pattern either leaves the string as
    it is or shortens it by the length of the pattern. *)
Lemma replace_length s pat :
  replace s pat "" = s \/
  (String.length (replace s pat "") + String.length pat
   = String.length s)%nat.
Proof.
  induction s as [|c s IH]; rewrite replace_eq.
  - destruct (String.prefix pat "") eqn:E; [|now left].
    right. now apply prefix_skip_length.
  - destruct (String.prefix pat (String c s)) eqn:E.
    + right. now apply (prefix_skip_length pat (String c s)).
    + destruct IH as [->|IH]; [now left|right]. simpl. lia.
Qed.

Lemma replace_at_length s :
  has_at s ->
  (String.length (replace s "@" "") + 1 = String.length s)%nat.
Proof.
  induction s as [|c s IH]; [intros []|]. rewrite has_at_cons.
  intros H. rewrite replace_eq, prefix_cons.
  destruct (Ascii.ascii_dec "@" c) as [<-|Hne].
  - replace (String.prefix "" s) with true by now destruct s.
    change (String.length s + 1 = S (String.length s))%nat. lia.
  - destruct H as [->|H]; [now destruct Hne|].
    specialize (IH H). simpl. lia.
Qed.

(** Cleaning removes at least one character from an id that holds an
    at-sign, never adds one, and leaves alone an id it has cleaned unless
    an at-sign is left in it. *)
Lemma cleanUnicityId_shorter x :
  has_at x -> (String.length (cleanUnicityId x) < String.length x)%nat.
Proof.
  intros Hx. unfold cleanUnicityId.
  pose proof (trim_length (replace (replace x "@unicity" "") "@" "")) as Ht.
  destruct (replace_length x "@unicity") as [E|E].
  - rewrite E in *. pose proof (replace_at_length x Hx). lia.
  - destruct (replace_length (replace x "@unicity" "") "@") as [E'|E'].
    + rewrite E' in *. simpl in E. lia.
    + simpl in E, E'. lia.
Qed.

Lemma cleanUnicityId_length x :
  (String.length (cleanUnicityId x) <= String.length x)%nat.
Proof.
  unfold cleanUnicityId.
  pose proof (trim_length (replace (replace x "@unicity" "") "@" "")) as Ht.
  destruct (replace_length x "@unicity") as [E|E];
    destruct (replace_length (replace x "@unicity" "") "@") as [E'|E'];
    rewrite ?E, ?E' in *; simpl in *; lia.
Qed.

Lemma cleanUnicityId_cleaned x :
  ~ has_at (cleanUnicityId x) ->
  cleanUnicityId (cleanUnicityId x) = cleanUnicityId x.
Proof.
  intros Hat. unfold cleanUnicityId at 1.
  rewrite !(replace_no_at (cleanUnicityId x)) by exact Hat.
  unfold cleanUnicityId. apply trim_trim.
Qed.

(** * Resolving a buyer's key *)

Lemma queries_cons_Query n es :
  NostrService.queries (NostrService.Query n :: es)
  = n :: NostrService.queries es.
Proof. reflexivity. Qed.

Lemma pauses_cons_Query n es :
  NostrService.pauses (NostrService.Query n :: es) = NostrService.pauses es.
Proof. reflexivity. Qed.

(** The loop from [attempt] on, with [n] iterations left and fuel for
    them: it returns, every query asks for [cleanId], and either attempt
    [k] is the first with an answer, which is returned after [k - attempt]
    pauses, or no attempt has an answer and [null] is returned after [n]
    queries with a pause between any two of them. *)
Lemma resolvePubkey_loop_spec n :
  forall fuel cleanId answers attempt maxRetries,
    Z.to_nat (maxRetries - attempt + 1) = n -> (n < fuel)%nat ->
    exists r es,
      NostrService.resolvePubkey_loop fuel cleanId answers attempt maxRetries
      = Some (r, es) /\
      (forall q, In q (NostrService.queries es) -> q = cleanId) /\
      ((exists k,
          attempt <= k <= maxRetries /\ answered (answers k) = true /\
          (forall j, attempt <= j < k -> answered (answers j) = false) /\
          r = answers k /\
          length (NostrService.queries es) = Z.to_nat (k - attempt + 1) /\
          NostrService.pauses es
          = NostrService.backoff (Z.to_nat (k - attempt)) attempt) \/
       ((forall j, attempt <= j <= maxRetries ->
                   answered (answers j) = false) /\
        r = None /\
        length (NostrService.queries es) = n /\
        NostrService.pauses es = NostrService.backoff (n - 1) attempt)).
Proof.
  induction n as [|n IH]; intros fuel cleanId answers a M Hn Hfuel;
    (destruct fuel as [|fuel]; [lia|]); simpl.
  - destruct (Z.leb_spec a M) as [Hle|Hgt]; [lia|].
    exists None, []. split; [reflexivity|]. split; [intros q []|].
    right. repeat split. intros j Hj. lia.
  - destruct (Z.leb_spec a M) as [Hle|Hgt]; [|lia].
    destruct (answered (answers a)) eqn:Ea.
    + exists (answers a), [NostrService.Query cleanId].
      split; [reflexivity|]. split.
      { intros q [<-|[]]. reflexivity. }
      left. exists a. split; [lia|]. split; [exact Ea|].
      split; [intros j Hj; lia|]. split; [reflexivity|].
      replace (a - a + 1) with 1 by lia. replace (a - a) with 0 by lia.
      split; reflexivity.
    + destruct (IH fuel cleanId answers (a + 1) M) as (r & es & -> & Hq & H);
        [lia|lia|].
      eexists _, _. split; [reflexivity|]. split.
      { intros q. rewrite queries_cons_Query.
        intros [<-|Hin]; [reflexivity|]. apply Hq.
        destruct (a <? M); exact Hin. }
      rewrite queries_cons_Query, pauses_cons_Query.
      assert (Hqs : NostrService.queries
                      ((if a <? M then [NostrService.Sleep (1000 * a)]
                        else []) ++ es)
                    = NostrService.queries es) by now destruct (a <? M).
      rewrite Hqs. simpl length.
      destruct H as [(k & Hk & Hak & Hpre & -> & Hlen & Hp)
                    |(Hall & -> & Hlen & Hp)].
      * left. exists k. split; [lia|]. split; [exact Hak|].
        split; [|split; [reflexivity|split]].
        -- intros j Hj. destruct (Z.eq_dec j a) as [->|]; [exact Ea|].
           apply Hpre. lia.
        -- rewrite Hlen. lia.
        -- destruct (Z.ltb_spec a M) as [Hlt|Hge]; [|lia].
           change (NostrService.pauses
                     ([NostrService.Sleep (1000 * a)] ++ es))
             with (1000 * a :: NostrService.pauses es).
           rewrite Hp.
           replace (Z.to_nat (k - a)) with (S (Z.to_nat (k - (a + 1))))
             by lia.
           reflexivity.
      * right. split; [|split; [reflexivity|split]].
        -- intros j Hj. destruct (Z.eq_dec j a) as [->|]; [exact Ea|].
           apply Hall. lia.
        -- now rewrite Hlen.
        -- destruct (Z.ltb_spec a M) as [Hlt|Hge].
           ++ change (NostrService.pauses
                        ([NostrService.Sleep (1000 * a)] ++ es))
                with (1000 * a :: NostrService.pauses es).
              rewrite Hp. destruct n as [|n]; [lia|]. simpl.
              now rewrite Nat.sub_0_r.
           ++ change (NostrService.pauses ([] ++ es))
                with (NostrService.pauses es).
              rewrite Hp. assert (n = 0%nat) as -> by lia. reflexivity.
Qed.

(** X15.  [resolvePubkey] with retries, on a connected service, always
    returns (the loop ends after at most [maxRetries] attempts); every
    query asks for the cleaned id.  It returns the first answer that is a
    non-empty key, after as many queries as attempts were needed and a
    pause of [1000 * j] ms after each failed attempt [j]; when none of the
    [maxRetries] attempts is answered it returns [null], after
    [maxRetries] queries and without a pause after the last one.  With one
    attempt it makes the one query of the version without retries, and
    returns what that version returns except that an empty key is turned
    into [null]. *)
Theorem X15_resolvePubkey_retries (st : State) (fuel : nat)
    (unicityId : string) (maxRetries : Z) (answers : Z -> option string) :
  client st = true -> (Z.to_nat maxRetries < fuel)%nat ->
  exists r es,
    NostrService.resolvePubkey st fuel unicityId maxRetries answers
    = Some (NostrService.Returns r es) /\
    (forall q, In q (NostrService.queries es) ->
               q = cleanUnicityId unicityId) /\
    ((exists k,
        1 <= k <= maxRetries /\ answered (answers k) = true /\
        (forall j, 1 <= j < k -> answered (answers j) = false) /\
        r = answers k /\
        length (NostrService.queries es) = Z.to_nat k /\
        NostrService.pauses es
        = NostrService.backoff (Z.to_nat (k - 1)) 1) \/
     ((forall j, 1 <= j <= maxRetries -> answered (answers j) = false) /\
      r = None /\
      length (NostrService.queries es) = Z.to_nat maxRetries /\
      NostrService.pauses es
      = NostrService.backoff (Z.to_nat maxRetries - 1) 1)) /\
    (maxRetries = 1 ->
     r = (if answered (answers 1) then answers 1 else None) /\
     NostrService.resolvePubkey_once st unicityId (answers 1)
     = NostrService.Returns (answers 1) es).
Proof.
  intros Hc Hfuel. unfold NostrService.resolvePubkey,
    NostrService.resolvePubkey_once. rewrite Hc. simpl negb. cbv iota.
  destruct (resolvePubkey_loop_spec (Z.to_nat maxRetries) fuel
              (cleanUnicityId unicityId) answers 1 maxRetries)
    as (r & es & Hloop & Hq & H); [f_equal; lia|exact Hfuel|].
  exists r, es. rewrite Hloop. split; [reflexivity|]. split; [exact Hq|].
  split.
  - destruct H as [(k & Hk & Hak & Hpre & -> & Hlen & Hp)
                  |(Hall & -> & Hlen & Hp)].
    + left. exists k. split; [lia|]. split; [exact Hak|].
      split; [exact Hpre|]. split; [reflexivity|]. split; [|exact Hp].
      rewrite Hlen. f_equal. lia.
    + right. split; [exact Hall|]. split; [reflexivity|].
      split; [exact Hlen|exact Hp].
  - intros ->. destruct fuel as [|[|fuel]]; try lia.
    simpl in Hloop.
    destruct (answered (answers 1)); inversion Hloop; now split.
Qed.

Lemma X15_resolvePubkey_retries_witness :
  exists r es,
    NostrService.resolvePubkey (init example_config) 4 "@alice" 3
      (fun k => if k =? 2 then Some "pkA" else None)
    = Some (NostrService.Returns r es) /\
    forall q, In q (NostrService.queries es) -> q = cleanUnicityId "@alice".
Proof.
  destruct (X15_resolvePubkey_retries (init example_config) 4 "@alice" 3
              (fun k => if k =? 2 then Some "pkA" else None) eq_refl)
    as (r & es & H1 & H2 & _); [simpl; lia|].
  exists r, es. split; [exact H1|exact H2].
Defined.
(** ** The cache of resolved keys *)

Lemma cache_after_snoc stores s :
  Index.cache_after (stores ++ [s])
  = fst (Index.resolvePubkey_resume (Index.cache_after stores)
           (Index.store_unicityId s) (Index.store_answer s)
           (Index.store_now s)).
Proof. unfold Index.cache_after. now rewrite fold_left_app. Qed.

Lemma stores_for_dec k s : {Index.stores_for k s} + {~ Index.stores_for k s}.
Proof.
  unfold Index.stores_for.
  destruct (string_dec (cleanUnicityId (Index.store_unicityId s)) k);
    destruct (answered (Index.store_answer s)); intuition congruence.
Qed.

(** The entry of the cache under [k] is the one written by the last call
    that came back with a key for [k]. *)
Lemma cache_after_get stores k :
  match JSMap.get k (Index.cache_after stores) with
  | Some c =>
      exists l1 s l2,
        stores = l1 ++ s :: l2 /\ Index.stores_for k s /\
        (forall s', In s' l2 -> ~ Index.stores_for k s') /\
        Index.store_answer s = Some (Index.pubkey c) /\
        Index.store_now s = Index.timestamp c
  | None => forall s, In s stores -> ~ Index.stores_for k s
  end.
Proof.
  induction stores as [|s stores IH] using rev_ind; [intros s []|].
  rewrite cache_after_snoc. unfold Index.resolvePubkey_resume.
  assert (Hskip : ~ Index.stores_for k s ->
    match JSMap.get k (Index.cache_after stores) with
    | Some c =>
        exists l1 s0 l2,
          stores ++ [s] = l1 ++ s0 :: l2 /\ Index.stores_for k s0 /\
          (forall s', In s' l2 -> ~ Index.stores_for k s') /\
          Index.store_answer s0 = Some (Index.pubkey c) /\
          Index.store_now s0 = Index.timestamp c
    | None => forall s0, In s0 (stores ++ [s]) -> ~ Index.stores_for k s0
    end).
  { intros Hs. destruct (JSMap.get k (Index.cache_after stores)) as [c|].
    - destruct IH as (l1 & s0 & l2 & -> & H0 & Hl2 & Ha & Hn).
      exists l1, s0, (l2 ++ [s]). split; [now rewrite <- app_assoc|].
      split; [exact H0|]. split; [|easy].
      intros s' Hin. apply in_app_or in Hin.
      destruct Hin as [Hin|[<-|[]]]; [now apply Hl2|exact Hs].
    - intros s0 Hin. apply in_app_or in Hin.
      destruct Hin as [Hin|[<-|[]]]; [now apply IH|exact Hs]. }
  destruct (Index.store_answer s) as [pk|] eqn:Ea.
  2:{ simpl. apply Hskip. unfold Index.stores_for. rewrite Ea. simpl.
      intuition discriminate. }
  destruct (truthy pk) eqn:Et.
  2:{ simpl. apply Hskip. unfold Index.stores_for. rewrite Ea. simpl.
      rewrite Et. intuition discriminate. }
  simpl.
  destruct (string_dec (cleanUnicityId (Index.store_unicityId s)) k)
    as [<-|Hne].
  - rewrite JSMapFacts.get_set_eq.
    exists stores, s, []. split; [reflexivity|]. split.
    + unfold Index.stores_for. rewrite Ea. simpl. now rewrite Et.
    + split; [intros s' []|]. now split.
  - rewrite JSMapFacts.get_set_ne by exact Hne.
    apply Hskip. unfold Index.stores_for. tauto.
Qed.

(** X16.  The cache of [resolvePubkey] after any number of calls: a key
    returned from the cache is non-empty and was the answer of the last
    call that came back with a key for the same cleaned id, less than five
    minutes before; and conversely the answer of that call is served from
    the cache until five minutes have passed, while an id for which no
    call came back with a key is not served from the cache.  Answers that
    are [null] or empty are never stored. *)
Theorem X16_cache_serves_last_answer (stores : list Index.Store)
    (unicityId : string) (now : Z) :
  (forall pk,
     Index.resolvePubkey_cached (Index.cache_after stores) unicityId now
     = Some pk ->
     pk <> "" /\
     exists l1 s l2,
       stores = l1 ++ s :: l2 /\
       cleanUnicityId (Index.store_unicityId s) = cleanUnicityId unicityId /\
       Index.store_answer s = Some pk /\
       now - Index.store_now s < Index.PUBKEY_CACHE_TTL_MS /\
       forall s', In s' l2 ->
                  ~ Index.stores_for (cleanUnicityId unicityId) s') /\
  (forall l1 s l2 pk,
     stores = l1 ++ s :: l2 ->
     cleanUnicityId (Index.store_unicityId s) = cleanUnicityId unicityId ->
     Index.store_answer s = Some pk -> pk <> "" ->
     (forall s', In s' l2 ->
                 ~ Index.stores_for (cleanUnicityId unicityId) s') ->
     Index.resolvePubkey_cached (Index.cache_after stores) unicityId now
     = (if now - Index.store_now s <? Index.PUBKEY_CACHE_TTL_MS
        then Some pk else None)) /\
  ((forall s, In s stores ->
              ~ Index.stores_for (cleanUnicityId unicityId) s) ->
   Index.resolvePubkey_cached (Index.cache_after stores) unicityId now
   = None) /\
  (forall s, answered (Index.store_answer s) = false ->
             Index.cache_after (stores ++ [s]) = Index.cache_after stores).
Proof.
  pose proof (cache_after_get stores (cleanUnicityId unicityId)) as Hget.
  unfold Index.resolvePubkey_cached.
  split; [|split; [|split]].
  - intros pk.
    destruct (JSMap.get _ (Index.cache_after stores)) as [c|]; [|discriminate].
    destruct (Z.ltb_spec (now - Index.timestamp c) Index.PUBKEY_CACHE_TTL_MS)
      as [Hlt|]; [|discriminate].
    intros [= <-].
    destruct Hget as (l1 & s & l2 & -> & [Hk Ha] & Hl2 & Hans & Hnow).
    split.
    + rewrite Hans in Ha. simpl in Ha. now apply truthy_true.
    + exists l1, s, l2. rewrite Hnow. easy.
  - intros l1 s l2 pk -> Hk Hans Hpk Hl2.
    assert (Hfor : Index.stores_for (cleanUnicityId unicityId) s).
    { split; [exact Hk|]. rewrite Hans. simpl. now apply truthy_true. }
    destruct (JSMap.get _ (Index.cache_after (l1 ++ s :: l2))) as [c|].
    + destruct Hget as (l1' & s' & l2' & Heq & Hfor' & Hl2' & Hans' & Hnow').
      assert (Hsame : s' = s /\ l2' = l2).
      { clear -Heq Hfor Hfor' Hl2 Hl2'. revert l1' Heq.
        induction l1 as [|x l1 IH]; intros l1' Heq.
        - destruct l1' as [|y l1']; simpl in Heq.
          + now inversion Heq.
          + inversion Heq; subst. exfalso. apply (Hl2 s'); [|exact Hfor'].
            apply in_or_app. right. now left.
        - destruct l1' as [|y l1']; simpl in Heq.
          + inversion Heq; subst. exfalso. apply (Hl2' s); [|exact Hfor].
            apply in_or_app. right. now left.
          + inversion Heq. now apply (IH l1'). }
      destruct Hsame as [-> ->]. rewrite <- Hnow'.
      destruct (_ <? _); [|reflexivity]. congruence.
    + exfalso. apply (Hget s); [|exact Hfor].
      apply in_or_app. right. now left.
  - intros Hnone.
    destruct (JSMap.get _ (Index.cache_after stores)) as [c|]; [|reflexivity].
    destruct Hget as (l1 & s & l2 & -> & Hfor & _).
    exfalso. apply (Hnone s); [|exact Hfor]. apply in_or_app. right. now left.
  - intros s Ha. rewrite cache_after_snoc. unfold Index.resolvePubkey_resume.
    destruct (Index.store_answer s) as [pk|]; [|reflexivity].
    simpl in Ha. now rewrite Ha.
Qed.

Lemma X16_cache_serves_last_answer_witness :
  Index.resolvePubkey_cached
    (Index.cache_after [Index.mkStore "@alice" (Some "pkA") 1000])
    "alice@unicity" 2000
  = Some "pkA".
Proof.
  apply (proj1 (proj2 (X16_cache_serves_last_answer
                         [Index.mkStore "@alice" (Some "pkA") 1000]
                         "alice@unicity" 2000))
           [] (Index.mkStore "@alice" (Some "pkA") 1000) [] "pkA").
  - reflexivity.
  - reflexivity.
  - reflexivity.
  - discriminate.
  - intros s' [].
Defined.
(** X17.  A call of the [resolvePubkey] of [index.ts] that nothing
    interrupts.  When the cache holds a fresh entry for the cleaned id it
    returns the cached key without any query, connected or not, and
    leaves the cache alone.  Otherwise it throws if the service is not
    connected; if it is connected it makes between one and three queries,
    each for the id cleaned twice, with pauses of one and two seconds
    between them; when no key is found it returns [null] and stores
    nothing, and when a key is found it stores it, so that within five
    minutes any id that cleans to the same name gets this key from the
    cache. *)
Theorem X17_resolvePubkey_queries_only_on_miss (st : State)
    (pubkeyCache : JSMap.t Index.Cached) (fuel : nat) (unicityId : string)
    (now : Z) (answers : Z -> option string) (now' : Z) :
  (forall pk,
     Index.resolvePubkey_cached pubkeyCache unicityId now = Some pk ->
     Index.resolvePubkey st pubkeyCache fuel unicityId now answers now'
     = Some (pubkeyCache, NostrService.Returns (Some pk) [])) /\
  (Index.resolvePubkey_cached pubkeyCache unicityId now = None ->
   client st = false ->
   Index.resolvePubkey st pubkeyCache fuel unicityId now answers now'
   = Some (pubkeyCache, NostrService.Throws)) /\
  (Index.resolvePubkey_cached pubkeyCache unicityId now = None ->
   client st = true -> (3 < fuel)%nat ->
   exists cache' r es,
     Index.resolvePubkey st pubkeyCache fuel unicityId now answers now'
     = Some (cache', NostrService.Returns r es) /\
     (forall q, In q (NostrService.queries es) ->
                q = cleanUnicityId (cleanUnicityId unicityId)) /\
     (1 <= length (NostrService.queries es) <= 3)%nat /\
     NostrService.pauses es
     = NostrService.backoff (length (NostrService.queries es) - 1) 1 /\
     match r with
     | Some pk =>
         pk <> "" /\
         forall unicityId' now2,
           cleanUnicityId unicityId' = cleanUnicityId unicityId ->
           now2 - now' < Index.PUBKEY_CACHE_TTL_MS ->
           Index.resolvePubkey_cached cache' unicityId' now2 = Some pk
     | None => cache' = pubkeyCache
     end).
Proof.
  unfold Index.resolvePubkey. split; [|split].
  - now intros pk ->.
  - intros -> Hc. unfold NostrService.resolvePubkey. now rewrite Hc.
  - intros -> Hc Hfuel. unfold NostrService.resolvePubkey. rewrite Hc.
    simpl negb. cbv iota.
    destruct (resolvePubkey_loop_spec 3 fuel
                (cleanUnicityId (cleanUnicityId unicityId)) answers 1 3)
      as (r & es & -> & Hq & H); [reflexivity|exact Hfuel|].
    destruct H as [(k & Hk & Hak & _ & -> & Hlen & Hp)|(_ & -> & Hlen & Hp)].
    + unfold Index.resolvePubkey_resume.
      destruct (answers k) as [pk|] eqn:Ek; [|discriminate].
      simpl in Hak. rewrite Hak.
      eexists _, _, _. split; [reflexivity|]. split; [exact Hq|].
      split; [lia|]. split.
      { rewrite Hp, Hlen. f_equal. lia. }
      split; [now apply truthy_true|].
      intros id' now2 Hid Hnow2. unfold Index.resolvePubkey_cached.
      rewrite Hid, JSMapFacts.get_set_eq. simpl.
      destruct (Z.ltb_spec (now2 - now') Index.PUBKEY_CACHE_TTL_MS);
        [reflexivity|lia].
    + eexists _, _, _. split; [reflexivity|]. split; [exact Hq|].
      split; [lia|]. split; [now rewrite Hp, Hlen|reflexivity].
Qed.

Lemma X17_resolvePubkey_queries_only_on_miss_witness :
  exists cache' r es,
    Index.resolvePubkey (init example_config) JSMap.empty 4 "@alice" 1000
      (fun k => if k =? 2 then Some "pkA" else None) 4000
    = Some (cache', NostrService.Returns r es) /\
    (1 <= length (NostrService.queries es) <= 3)%nat.
Proof.
  destruct (proj2 (proj2 (X17_resolvePubkey_queries_only_on_miss
                            (init example_config) JSMap.empty 4 "@alice" 1000
                            (fun k => if k =? 2 then Some "pkA" else None)
                            4000)))
    as (c & r & es & H1 & _ & H3 & _).
  - reflexivity.
  - reflexivity.
  - lia.
  - exists c, r, es. split; [exact H1|exact H3].
Defined.

(** X14.  The names under which one buyer is known.  [place_order]
    stores the order under the id cleaned once; the call of
    [resolvePubkey] that the tools make looks in the cache, and on a miss
    writes the cache, under the id cleaned twice, and asks the relay for
    the id cleaned three times.  The three names are one when the id
    cleaned once holds no at-sign.  Otherwise the cache key is strictly
    shorter than the name on the order, and the name asked for is no
    longer than the cache key. *)
Theorem X14_names_used_by_the_tools (st : State)
    (pubkeyCache : JSMap.t Index.Cached) (fuel : nat) (unicity_id : string)
    (now : Z) (answers : Z -> option string) (now' : Z) :
  (forall st0 product_id quantity size pubkey fresh now0 st1 order product
          pk,
     place_order_create st0 (Index.tool_unicityId unicity_id) product_id
       quantity size pubkey fresh now0 = inr (st1, order, product, pk) ->
     Order.unicityId order = Index.tool_unicityId unicity_id) /\
  (forall cached,
     JSMap.get (cleanUnicityId (Index.tool_unicityId unicity_id)) pubkeyCache
     = Some cached ->
     now - Index.timestamp cached < Index.PUBKEY_CACHE_TTL_MS ->
     Index.tool_resolvePubkey st pubkeyCache fuel unicity_id now answers now'
     = Some (pubkeyCache,
             NostrService.Returns (Some (Index.pubkey cached)) [])) /\
  (Index.resolvePubkey_cached pubkeyCache (Index.tool_unicityId unicity_id)
     now = None ->
   client st = true -> (3 < fuel)%nat ->
   exists cache' r es,
     Index.tool_resolvePubkey st pubkeyCache fuel unicity_id now answers now'
     = Some (cache', NostrService.Returns r es) /\
     NostrService.queries es <> [] /\
     (forall q, In q (NostrService.queries es) ->
        q = cleanUnicityId
              (cleanUnicityId (Index.tool_unicityId unicity_id))) /\
     forall pk,
       r = Some pk ->
       JSMap.get (cleanUnicityId (Index.tool_unicityId unicity_id)) cache'
       = Some (Index.mkCached pk now')) /\
  (~ has_at (Index.tool_unicityId unicity_id) ->
   cleanUnicityId (Index.tool_unicityId unicity_id)
   = Index.tool_unicityId unicity_id /\
   cleanUnicityId (cleanUnicityId (Index.tool_unicityId unicity_id))
   = Index.tool_unicityId unicity_id) /\
  (has_at (Index.tool_unicityId unicity_id) ->
   (String.length
      (cleanUnicityId (cleanUnicityId (Index.tool_unicityId unicity_id)))
    <= String.length (cleanUnicityId (Index.tool_unicityId unicity_id))
    < String.length (Index.tool_unicityId unicity_id))%nat).
Proof.
  split; [|split; [|split; [|split]]].
  - intros st0 product_id quantity size pubkey fresh now0 st1 order product
      pk H.
    apply place_order_create_inr in H.
    destruct H as (q & _ & _ & _ & _ & _ & -> & _). reflexivity.
  - intros cached Hget Hfresh.
    unfold Index.tool_resolvePubkey, Index.resolvePubkey,
      Index.resolvePubkey_cached.
    rewrite Hget. apply Z.ltb_lt in Hfresh. now rewrite Hfresh.
  - unfold Index.tool_resolvePubkey, Index.resolvePubkey.
    intros -> Hc Hfuel. unfold NostrService.resolvePubkey. rewrite Hc.
    simpl negb. cbv iota.
    destruct (resolvePubkey_loop_spec 3 fuel
                (cleanUnicityId
                   (cleanUnicityId (Index.tool_unicityId unicity_id)))
                answers 1 3)
      as (r & es & -> & Hq & H); [reflexivity|exact Hfuel|].
    assert (Hne : NostrService.queries es <> []).
    { destruct H as [(k & Hk & _ & _ & _ & Hlen & _)|(_ & _ & Hlen & _)];
        intros E; rewrite E in Hlen; simpl in Hlen; lia. }
    unfold Index.resolvePubkey_resume.
    destruct H as [(k & Hk & Hak & _ & -> & _)|(_ & -> & _)].
    + destruct (answers k) as [pk|] eqn:Ek; [|discriminate].
      simpl in Hak. rewrite Hak.
      eexists _, _, _. split; [reflexivity|]. split; [exact Hne|].
      split; [exact Hq|]. intros pk' [= <-].
      apply JSMapFacts.get_set_eq.
    + eexists _, _, _. split; [reflexivity|]. split; [exact Hne|].
      split; [exact Hq|]. discriminate.
  - unfold Index.tool_unicityId. intros Hat.
    rewrite !(cleanUnicityId_cleaned unicity_id Hat). now split.
  - intros Hat. split.
    + apply cleanUnicityId_length.
    + now apply cleanUnicityId_shorter.
Qed.

Lemma X14_names_used_by_the_tools_witness :
  Index.tool_unicityId "@@@zed" = "@@zed" /\
  cleanUnicityId (Index.tool_unicityId "@@@zed") = "@zed" /\
  cleanUnicityId (cleanUnicityId (Index.tool_unicityId "@@@zed")) = "zed" /\
  (String.length
     (cleanUnicityId (cleanUnicityId (Index.tool_unicityId "@@@zed")))
   <= String.length (cleanUnicityId (Index.tool_unicityId "@@@zed"))
   < String.length (Index.tool_unicityId "@@@zed"))%nat.
Proof.
  split; [reflexivity|]. split; [reflexivity|]. split; [reflexivity|].
  apply (proj2 (proj2 (proj2 (proj2
           (X14_names_used_by_the_tools (init example_config) JSMap.empty 4
              "@@@zed" 0 (fun _ => None) 0))))).
  vm_compute. left. reflexivity.
Defined.
(** * Displaying an amount *)

Lemma digit_spec d :
  0 <= d < 10 -> is_digit (digit d) = true /\ digit_value (digit d) = d.
Proof.
  intros H.
  assert (Hd : d = 0 \/ d = 1 \/ d = 2 \/ d = 3 \/ d = 4 \/ d = 5 \/ d = 6 \/
               d = 7 \/ d = 8 \/ d = 9) by lia.
  repeat (destruct Hd as [->|Hd]; [now split|]). subst. now split.
Qed.

Lemma append_String c s t :
  String.append (String c s) t = String c (String.append s t).
Proof. reflexivity. Qed.

Lemma append_empty_l s : String.append "" s = s.
Proof. reflexivity. Qed.

Lemma append_assoc s t u :
  String.append (String.append s t) u = String.append s (String.append t u).
Proof.
  induction s as [|c s IH]; [reflexivity|].
  now rewrite !append_String, IH.
Qed.

Lemma length_append s t :
  String.length (String.append s t) = (String.length s + String.length t)%nat.
Proof.
  induction s as [|c s IH]; [reflexivity|].
  rewrite append_String. cbn [String.length]. now rewrite IH.
Qed.

Lemma decimal_value_from_append a s t :
  decimal_value_from a (String.append s t)
  = decimal_value_from (decimal_value_from a s) t.
Proof.
  revert a. induction s as [|c s IH]; intros a; [reflexivity|].
  rewrite append_String. cbn [decimal_value_from]. apply IH.
Qed.

Lemma all_digits_append s t :
  all_digits (String.append s t) = all_digits s && all_digits t.
Proof.
  induction s as [|c s IH]; [reflexivity|].
  rewrite append_String. cbn [all_digits]. now rewrite IH, andb_assoc.
Qed.

(** With fuel for the binary digits of [n], [digits] puts before [acc] the
    numeral of [n]: decimal digits, as many as [n] needs, that read back
    as [n]. *)
Lemma digits_spec fuel :
  forall n acc,
    0 <= n < 2 ^ Z.of_nat fuel -> (1 <= fuel)%nat ->
    exists s,
      digits fuel n acc = String.append s acc /\
      all_digits s = true /\
      (1 <= String.length s)%nat /\
      (forall a, decimal_value_from a s
                 = a * 10 ^ Z.of_nat (String.length s) + n) /\
      (n = 0 \/ 10 ^ (Z.of_nat (String.length s) - 1) <= n).
Proof.
  induction fuel as [|fuel IH]; intros n acc Hn Hf; [lia|].
  cbn [digits].
  assert (Hmod : 0 <= n mod 10 < 10) by (apply Z.mod_pos_bound; lia).
  destruct (digit_spec _ Hmod) as [Hd Hv].
  destruct (Z.ltb_spec n 10) as [Hlt|Hge].
  - exists (String (digit (n mod 10)) "").
    rewrite Z.mod_small in * by lia.
    split; [reflexivity|].
    split; [cbn [all_digits]; now rewrite Hd|].
    cbn [String.length decimal_value_from].
    split; [lia|]. split.
    + intros a. rewrite Hv. lia.
    + change (Z.of_nat 1 - 1) with 0. lia.
  - assert (Hdiv : 1 <= n / 10) by (apply Z.div_le_lower_bound; lia).
    assert (Hdiv2 : n / 10 < 2 ^ Z.of_nat fuel).
    { apply Z.div_lt_upper_bound; [lia|].
      replace (Z.of_nat (S fuel)) with (Z.of_nat fuel + 1) in Hn by lia.
      rewrite Z.pow_add_r in Hn by lia. lia. }
    assert (Hfuel : (1 <= fuel)%nat).
    { destruct fuel; [|lia]. change (2 ^ Z.of_nat 0) with 1 in Hdiv2. lia. }
    destruct (IH (n / 10) (String (digit (n mod 10)) acc)) as
      (s & -> & Hs & Hlen & Hval & Hlow); [lia|exact Hfuel|].
    exists (String.append s (String (digit (n mod 10)) "")).
    split; [now rewrite append_assoc|].
    split; [rewrite all_digits_append, Hs; cbn [all_digits andb];
            now rewrite Hd|].
    rewrite length_append. cbn [String.length].
    split; [lia|]. split.
    + intros a. rewrite decimal_value_from_append, Hval.
      cbn [decimal_value_from]. rewrite Hv.
      replace (Z.of_nat (String.length s + 1))
        with (Z.of_nat (String.length s) + 1) by lia.
      rewrite Z.pow_add_r by lia.
      pose proof (Z.div_mod n 10). lia.
    + right. destruct Hlow as [H0|Hlow]; [lia|].
      replace (Z.of_nat (String.length s + 1) - 1)
        with ((Z.of_nat (String.length s) - 1) + 1) by lia.
      rewrite Z.pow_add_r by lia.
      pose proof (Z.div_mod n 10). lia.
Qed.

(** The numeral of a number that is not negative. *)
Lemma toString_spec n :
  0 <= n ->
  all_digits (toString n) = true /\
  (1 <= String.length (toString n))%nat /\
  decimal_value (toString n) = n /\
  (n = 0 \/ 10 ^ (Z.of_nat (String.length (toString n)) - 1) <= n).
Proof.
  intros Hn. unfold toString.
  destruct (Z.ltb_spec n 0) as [|_]; [lia|].
  destruct (digits_spec (S (Z.to_nat (Z.log2 n))) n "")
    as (s & Hs & Hd & Hlen & Hval & Hlow); [|lia|].
  { split; [exact Hn|].
    replace (Z.of_nat (S (Z.to_nat (Z.log2 n)))) with (Z.succ (Z.log2 n))
      by (pose proof (Z.log2_nonneg n); lia).
    destruct (Z.eq_dec n 0) as [->|]; [reflexivity|].
    apply Z.log2_spec. lia. }
  assert (Hs' : digits (S (Z.to_nat (Z.log2 n))) n "" = s).
  { rewrite Hs. clear. induction s as [|c s IH]; [reflexivity|].
    now rewrite append_String, IH. }
  rewrite Hs'. unfold decimal_value. rewrite Hval. repeat split; try easy.
Qed.
Lemma repeat_char_length c n : String.length (repeat_char c n) = n.
Proof. induction n as [|n IH]; [reflexivity|]. simpl. now rewrite IH. Qed.

Lemma zeros_value a m :
  decimal_value_from a (repeat_char "0" m) = a * 10 ^ Z.of_nat m.
Proof.
  revert a. induction m as [|m IH]; intros a.
  - change (10 ^ Z.of_nat 0) with 1. simpl. lia.
  - cbn [repeat_char decimal_value_from]. rewrite IH.
    change (digit_value "0") with 0.
    replace (Z.of_nat (S m)) with (Z.of_nat m + 1) by lia.
    rewrite Z.pow_add_r by lia. lia.
Qed.

Lemma zeros_all_digits m : all_digits (repeat_char "0" m) = true.
Proof. induction m as [|m IH]; [reflexivity|exact IH]. Qed.

Lemma stripZeros_eq c s :
  stripZeros (String c s)
  = match stripZeros s with
    | EmptyString => if Ascii.eqb c "0" then EmptyString
                     else String c EmptyString
    | t => String c t
    end.
Proof. reflexivity. Qed.

(** What [stripZeros] removes is a run of zeros at the end. *)
Lemma stripZeros_decompose s :
  exists m, s = String.append (stripZeros s) (repeat_char "0" m).
Proof.
  induction s as [|c s [m IH]]; [now exists 0%nat|].
  rewrite stripZeros_eq. destruct (stripZeros s) as [|c' t] eqn:E.
  - destruct (Ascii.eqb_spec c "0") as [->|Hc].
    + exists (S m). rewrite IH at 1. reflexivity.
    + exists m. rewrite IH at 1. reflexivity.
  - exists m. rewrite IH at 1. reflexivity.
Qed.

Lemma stripZeros_stripZeros s : stripZeros (stripZeros s) = stripZeros s.
Proof.
  induction s as [|c s IH]; [reflexivity|].
  rewrite stripZeros_eq. destruct (stripZeros s) as [|c' t] eqn:E.
  - destruct (Ascii.eqb c "0") eqn:Ec; [reflexivity|].
    rewrite stripZeros_eq. cbn [stripZeros]. now rewrite Ec.
  - rewrite stripZeros_eq, IH. reflexivity.
Qed.

(** The fraction of [formatUCT]: for [0 < f < 10^18] the digits shown
    after the point, followed by the zeros that were removed, are the
    eighteen-digit numeral of [f]. *)
Lemma fraction_spec f :
  0 < f < UCT ->
  let d := stripZeros (padStart (toString f) 18 "0") in
  all_digits d = true /\
  (1 <= String.length d <= 18)%nat /\
  stripZeros d = d /\
  decimal_value d * 10 ^ (18 - Z.of_nat (String.length d)) = f.
Proof.
  intros Hf d.
  destruct (toString_spec f) as (Hdig & Hlen1 & Hval & Hlow); [lia|].
  assert (Hlen : (String.length (toString f) <= 18)%nat).
  { destruct Hlow as [|Hlow]; [lia|].
    assert (Hlt : 10 ^ (Z.of_nat (String.length (toString f)) - 1) < 10 ^ 18).
    { unfold UCT in Hf. change (10 ^ 18) with 1000000000000000000. lia. }
    apply Z.pow_lt_mono_r_iff in Hlt; lia. }
  set (p := padStart (toString f) 18 "0") in *.
  assert (Hp : String.length p = 18%nat /\ all_digits p = true /\
               decimal_value p = f).
  { unfold p, padStart. rewrite length_append, repeat_char_length.
    split; [lia|]. rewrite all_digits_append, zeros_all_digits, Hdig.
    split; [reflexivity|]. unfold decimal_value.
    rewrite decimal_value_from_append, zeros_value. exact Hval. }
  destruct Hp as (Hp1 & Hp2 & Hp3).
  destruct (stripZeros_decompose p) as [m Hm]. fold d in Hm.
  assert (Hdm : (String.length d + m = 18)%nat).
  { rewrite <- Hp1, Hm at 1. rewrite length_append, repeat_char_length.
    reflexivity. }
  assert (Hv : decimal_value d * 10 ^ Z.of_nat m = f).
  { rewrite <- Hp3, Hm at 1. unfold decimal_value.
    now rewrite decimal_value_from_append, zeros_value. }
  split.
  { rewrite Hm, all_digits_append in Hp2.
    now apply andb_true_iff in Hp2. }
  split.
  { split; [|lia]. destruct d; [|simpl; lia].
    change (decimal_value "") with 0 in Hv. lia. }
  split; [apply stripZeros_stripZeros|].
  replace (18 - Z.of_nat (String.length d)) with (Z.of_nat m) by lia.
  exact Hv.
Qed.

(** X18.  For an amount that is not negative, [formatUCT] shows the
    amount divided by [10^18] exactly: the numeral of the whole part,
    alone when the amount is a multiple of [10^18], and otherwise followed
    by a point and by one to eighteen decimal digits without a zero at
    the end, which are the fraction. *)
Theorem X18_formatUCT_exact (amount : Z) :
  0 <= amount ->
  all_digits (toString (Z.quot amount UCT)) = true /\
  decimal_value (toString (Z.quot amount UCT)) = Z.quot amount UCT /\
  (Z.rem amount UCT = 0 ->
   amount = Z.quot amount UCT * UCT /\
   formatUCT amount = String.append (toString (Z.quot amount UCT)) " UCT") /\
  (Z.rem amount UCT <> 0 ->
   exists d,
     formatUCT amount
     = String.append (toString (Z.quot amount UCT))
         (String.append "." (String.append d " UCT")) /\
     all_digits d = true /\
     (1 <= String.length d <= 18)%nat /\
     stripZeros d = d /\
     amount
     = Z.quot amount UCT * UCT
       + decimal_value d * 10 ^ (18 - Z.of_nat (String.length d))).
Proof.
  intros Ha.
  assert (HU : 0 < UCT) by reflexivity.
  pose proof (Z.quot_rem' amount UCT) as Hqr.
  assert (Hq : 0 <= Z.quot amount UCT) by (apply Z.quot_pos; lia).
  assert (Hr : 0 <= Z.rem amount UCT < UCT) by (apply Z.rem_bound_pos; lia).
  destruct (toString_spec _ Hq) as (Hdig & _ & Hval & _).
  split; [exact Hdig|]. split; [exact Hval|].
  unfold formatUCT. cbv zeta. split.
  - intros H0. rewrite H0. split; [lia|reflexivity].
  - intros Hne. destruct (Z.eqb_spec (Z.rem amount UCT) 0) as [|_]; [lia|].
    destruct (fraction_spec (Z.rem amount UCT)) as (H1 & H2 & H3 & H4); [lia|].
    eexists. split; [reflexivity|].
    split; [exact H1|]. split; [exact H2|]. split; [exact H3|].
    rewrite H4. lia.
Qed.

Lemma X18_formatUCT_exact_witness :
  formatUCT (51 * (UCT / 2)) = "25.5 UCT" /\
  decimal_value (toString (Z.quot (51 * (UCT / 2)) UCT))
  = Z.quot (51 * (UCT / 2)) UCT.
Proof.
  split; [vm_compute; reflexivity|].
  apply (X18_formatUCT_exact (51 * (UCT / 2))). vm_compute. discriminate.
Defined.
Lemma stripZeros_all_digits s :
  all_digits (stripZeros s) = all_digits s.
Proof.
  destruct (stripZeros_decompose s) as [m Hm]. rewrite Hm at 2.
  now rewrite all_digits_append, zeros_all_digits, andb_true_r.
Qed.

(** X19.  For a negative amount that is not a multiple of [10^18] the
    text of [formatUCT] is not a numeral: the remainder is negative, its
    minus sign is padded like a digit and ends up behind the point; and
    for an amount between [-10^18] and [0] the whole part is shown as [0],
    without a sign. *)
Theorem X19_formatUCT_negative (amount : Z) :
  amount < 0 -> Z.rem amount UCT <> 0 ->
  exists d,
    formatUCT amount
    = String.append (toString (Z.quot amount UCT))
        (String.append "." (String.append d " UCT")) /\
    all_digits d = false /\
    (- UCT < amount -> toString (Z.quot amount UCT) = "0").
Proof.
  intros Ha Hne. unfold formatUCT. cbv zeta.
  destruct (Z.eqb_spec (Z.rem amount UCT) 0) as [|_]; [lia|].
  eexists. split; [reflexivity|]. split.
  - rewrite stripZeros_all_digits. unfold padStart.
    rewrite all_digits_append, zeros_all_digits. unfold toString.
    assert (Hr : Z.rem amount UCT <= 0)
      by (apply Z.rem_nonpos; unfold UCT; lia).
    destruct (Z.ltb_spec (Z.rem amount UCT) 0) as [_|]; [|lia].
    reflexivity.
  - intros Hlow.
    assert (Hq : Z.quot amount UCT = 0).
    { rewrite <- (Z.opp_involutive amount), Z.quot_opp_l by (unfold UCT; lia).
      rewrite Z.quot_small; [reflexivity|]. unfold UCT in *. lia. }
    now rewrite Hq.
Qed.

Lemma X19_formatUCT_negative_witness :
  exists d,
    formatUCT (- (UCT / 2))
    = String.append (toString (Z.quot (- (UCT / 2)) UCT))
        (String.append "." (String.append d " UCT")) /\
    all_digits d = false.
Proof.
  destruct (X19_formatUCT_negative (- (UCT / 2))) as (d & H1 & H2 & _).
  - vm_compute. reflexivity.
  - vm_compute. discriminate.
  - exists d. split; [exact H1|exact H2].
Defined.
(** * No caller of [waitForPayment] is forgotten *)

(** What a settlement does to one promise of the store. *)
Lemma settle_all_cases ps r b p pr :
  ps !! p = Some pr ->
  fst (settle_all ps r b) !! p = Some pr \/
  (value pr = None /\
   fst (settle_all ps r b) !! p = Some (mkPromise (Some b) []) /\
   forall x, In x (reactions pr) -> In (x, b) (snd (settle_all ps r b))).
Proof.
  intros Hp. destruct pr as [[v|] rs].
  - left. now apply settle_all_settled.
  - destruct (mentions_dec p r) as [Hm|Hm].
    + right. split; [reflexivity|]. now apply settle_all_mentions.
    + left. now rewrite settle_all_lookup_ne.
Qed.

Lemma then_cases st q r p pr :
  promises st !! p = Some pr ->
  promises (then_ st q r) !! p = Some pr \/
  (q = p /\ value pr = None /\
   promises (then_ st q r) !! p
   = Some (mkPromise None (reactions pr ++ [r]))).
Proof.
  intros Hp. unfold then_.
  destruct (promises st !! q) as [[[v|] rs]|] eqn:Hq; simpl; try now left.
  destruct (Nat.eq_dec q p) as [->|Hne].
  - right. rewrite Hp in Hq. inversion Hq; subst. simpl.
    split; [reflexivity|]. split; [reflexivity|].
    apply list_lookup_insert_eq. now apply lookup_lt_Some in Hp.
  - left. now rewrite list_lookup_insert_ne.
Qed.

Lemma then_observed st q r : observed (then_ st q r) = observed st.
Proof. apply then_same. Qed.

(** The jobs that [then_] queues resume its caller with the value of a
    promise that is settled already. *)
Lemma then_jobs st q r :
  jobs (then_ st q r)
  = match promises st !! q with
    | Some (mkPromise (Some b) _) => jobs st ++ [(r, b)]
    | _ => jobs st
    end.
Proof.
  unfold then_. now destruct (promises st !! q) as [[[v|] rs]|].
Qed.

(** One step and one promise: a settled promise keeps its value; a
    pending one stays pending and keeps its reactions, or is settled and
    all its reactions have run. *)
Lemma step_promise_cases st a p pr :
  jobs st = [] -> promises st !! p = Some pr ->
  (exists l, observed (step st a) = observed st ++ l) /\
  match value pr with
  | Some b => promises (step st a) !! p = Some pr
  | None =>
      (exists rs', promises (step st a) !! p
                   = Some (mkPromise None (reactions pr ++ rs'))) \/
      (exists b, promises (step st a) !! p = Some (mkPromise (Some b) []) /\
                 forall x, In x (reactions pr) ->
                           In (waiter x, b) (observed (step st a)))
  end.
Proof.
  intros Hj Hp.
  assert (Hkeep : forall s,
    promises s = promises st -> observed s = observed st -> jobs s = [] ->
    (exists l, observed (drain s) = observed st ++ l) /\
    match value pr with
    | Some b => promises (drain s) !! p = Some pr
    | None =>
        (exists rs', promises (drain s) !! p
                     = Some (mkPromise None (reactions pr ++ rs'))) \/
        (exists b, promises (drain s) !! p = Some (mkPromise (Some b) []) /\
                   forall x, In x (reactions pr) ->
                             In (waiter x, b) (observed (drain s)))
    end).
  { intros s Hps Hobs Hjs. rewrite drain_promises, drain_observed, Hps, Hobs,
      Hjs. split; [now exists []|].
    destruct pr as [[b|] rs]; simpl; [exact Hp|].
    left. exists []. now rewrite app_nil_r. }
  destruct (env_action a) eqn:Henv.
  { rewrite (step_env st a Hj Henv). unfold carry_out, updated.
    cbn [promises observed]. split; [eexists; reflexivity|].
    destruct (plan_effect (plan st a)) as [[r b]|]; cbn [apply_effect].
    - destruct (settle_all_cases (promises st) r b p pr Hp)
        as [H|(Hv & H1 & H2)].
      + rewrite H. destruct pr as [[v|] rs]; simpl; [reflexivity|].
        left. exists []. now rewrite app_nil_r.
      + rewrite Hv. right. exists b. split; [exact H1|].
        intros x Hx. apply in_or_app. right. apply resumed_In.
        apply (in_map (fun j => (waiter (fst j), snd j)) _ (x, b)).
        now apply H2.
    - simpl. rewrite Hp. destruct pr as [[v|] rs]; simpl; [reflexivity|].
      left. exists []. now rewrite app_nil_r. }
  unfold step.
  destruct a as [u pr0 q sz fr now|o|pk amt msg|u pk o amt e now|h w|e w|ev
                 |i tj ok|i ok now|t]; try discriminate; simpl block.
  - now apply Hkeep.
  - now apply Hkeep.
  - apply Hkeep; unfold sendPaymentRequest_call; now destruct (client st).
  - rewrite drain_promises, drain_observed. simpl. rewrite Hj. simpl.
    split; [now exists []|]. rewrite lookup_app_l
      by now apply lookup_lt_Some in Hp.
    rewrite Hp. destruct pr as [[v|] rs]; simpl; [reflexivity|].
    left. exists []. now rewrite app_nil_r.
  - unfold waitForPayment.
    rewrite drain_promises, drain_observed, then_observed, then_jobs, Hj.
    split.
    { destruct (promises st !! h_promise h) as [[[v|] rs]|];
        eexists; reflexivity. }
    destruct (then_cases st (h_promise h)
                (mkReaction w (Some (h_timer h))) p pr Hp)
      as [H|(_ & Hv & H)]; rewrite H.
    + destruct pr as [[v|] rs]; simpl; [reflexivity|].
      left. exists []. now rewrite app_nil_r.
    + rewrite Hv. left. eexists. reflexivity.
  - unfold waitForExistingPayment.
    destruct (JSMap.get e (pendingPayments st)) as [pp|]; [|now apply Hkeep].
    assert (Hlt : (p < length (promises st))%nat)
      by now apply lookup_lt_Some in Hp.
    assert (Hnew : forall s,
      promises s = promises st ++ [mkPromise None []] ->
      observed s = observed st -> jobs s = [] ->
      (exists l,
         observed (drain (then_ s (length (promises st)) (mkReaction w None)))
         = observed st ++ l) /\
      match value pr with
      | Some b =>
          promises (drain (then_ s (length (promises st))
                             (mkReaction w None))) !! p = Some pr
      | None =>
          (exists rs',
             promises (drain (then_ s (length (promises st))
                                (mkReaction w None))) !! p
             = Some (mkPromise None (reactions pr ++ rs'))) \/
          (exists b,
             promises (drain (then_ s (length (promises st))
                                (mkReaction w None))) !! p
             = Some (mkPromise (Some b) []) /\
             forall x, In x (reactions pr) ->
               In (waiter x, b)
                  (observed (drain (then_ s (length (promises st))
                                      (mkReaction w None)))))
      end).
    { intros s Hps Hobs Hjs.
      rewrite drain_promises, drain_observed, then_observed, then_jobs, Hps,
        Hobs, Hjs, lookup_last. simpl. split; [now exists []|].
      assert (Hp' : promises s !! p = Some pr)
        by (rewrite Hps, lookup_app_l; easy).
      destruct (then_cases s (length (promises st)) (mkReaction w None) p pr
                  Hp') as [H|(Heq & _)]; [|lia].
      rewrite H. destruct pr as [[v|] rs]; simpl; [reflexivity|].
      left. exists []. now rewrite app_nil_r. }
    unfold new_promise. cbn [cells with_promises].
    destruct (cells st !! PendingPayment.resolve pp); now apply Hnew.
Qed.

Lemma step_served st a p w :
  jobs st = [] -> served st p w -> served (step st a) p w.
Proof.
  intros Hj. unfold served.
  destruct (promises st !! p) as [pr|] eqn:Hp; [|easy].
  destruct (step_promise_cases st a p pr Hj Hp) as [[l Hobs] H].
  destruct pr as [[b|] rs]; simpl in H.
  - rewrite H, Hobs. intros Hin. apply in_or_app. now left.
  - intros [t Hin]. destruct H as [[rs' ->]|(b & -> & Hb)].
    + exists t. apply in_or_app. now left.
    + apply (Hb _ Hin).
Qed.

Lemma run_served tr st p w :
  well_formed st -> served st p w -> served (run st tr) p w.
Proof.
  revert st. induction tr as [|a tr IH]; intros st Hwf Hs; [exact Hs|].
  apply IH; [now apply step_well_formed|].
  apply step_served; [apply Hwf|exact Hs].
Qed.

Lemma run_promise_kept tr st p pr :
  well_formed st -> promises st !! p = Some pr ->
  exists pr', promises (run st tr) !! p = Some pr'.
Proof.
  revert st pr. induction tr as [|a tr IH]; intros st pr Hwf Hp;
    [now exists pr|].
  destruct (step_promise_cases st a p pr (proj2 (proj2 (proj2 (proj2 Hwf))))
              Hp) as [_ H].
  destruct (value pr); [|destruct H as [[rs' H]|(b & H & _)]];
    now apply (IH (step st a) _ (step_well_formed st a Hwf) H).
Qed.

(** X20.  The caller of [waitForPayment] always learns the outcome.
    Whatever happens between [sendPaymentRequest] and the call of
    [waitForPayment], and whatever happens afterwards, the promise of the
    request is in the store, and as soon as it is settled the caller has
    been resumed with its value; while it is pending the caller is
    registered on it. *)
Theorem X20_waitForPayment_learns_outcome (st : State)
    (unicityId userPubkey orderId : string) (amount : Z) (eventId : string)
    (now : Z) (w : nat) (before after : list Action) :
  well_formed st ->
  served
    (eager_session st unicityId userPubkey orderId amount eventId now w
       before after)
    (length (promises st)) w /\
  forall b rs,
    promises
      (eager_session st unicityId userPubkey orderId amount eventId now w
         before after) !! length (promises st)
    = Some (mkPromise (Some b) rs) ->
    In (w, b)
       (observed
          (eager_session st unicityId userPubkey orderId amount eventId now w
             before after)).
Proof.
  intros Hwf.
  assert (Hserved : served
    (eager_session st unicityId userPubkey orderId amount eventId now w
       before after) (length (promises st)) w).
  { unfold eager_session.
    destruct (sendPaymentRequest_resume st unicityId userPubkey orderId
                amount eventId now) as [st1 h] eqn:Er.
    assert (Hst1 : drain st1
                   = step st (Resume unicityId userPubkey orderId amount
                                eventId now))
      by (unfold step; cbn [block]; now rewrite Er).
    assert (Hh : h_promise h = length (promises st))
      by (unfold sendPaymentRequest_resume in Er; now inversion Er).
    assert (Hwf1 : well_formed (drain st1))
      by (rewrite Hst1; now apply step_well_formed).
    assert (Hp1 : promises (drain st1) !! length (promises st)
                  = Some (mkPromise None [])).
    { rewrite drain_promises. unfold sendPaymentRequest_resume in Er.
      inversion Er. simpl. apply lookup_last. }
    pose proof (run_well_formed before _ Hwf1) as Hwf2.
    destruct (run_promise_kept before _ _ _ Hwf1 Hp1) as [pr Hp2].
    apply run_served.
    - change (drain (waitForPayment (run (drain st1) before) h w))
        with (step (run (drain st1) before) (Wait h w)).
      now apply step_well_formed.
    - assert (Hj2 : jobs (run (drain st1) before) = []) by apply Hwf2.
      unfold served, waitForPayment.
      rewrite drain_promises, drain_observed, then_observed, then_jobs, Hh,
        Hp2, Hj2.
      destruct (then_cases (run (drain st1) before) (length (promises st))
                  (mkReaction w (Some (h_timer h))) _ _ Hp2)
        as [H|(_ & Hv & H)]; rewrite H.
      + destruct pr as [[b|] rs].
        * apply in_or_app. right. now left.
        * exfalso. revert H. unfold then_. rewrite Hp2. simpl.
          rewrite list_lookup_insert_eq by now apply lookup_lt_Some in Hp2.
          intros [= Hrs]. apply (f_equal (@length _)) in Hrs.
          rewrite length_app in Hrs. simpl in Hrs. lia.
      + eexists. apply in_or_app. right. now left. }
  split; [exact Hserved|].
  intros b rs Hp. unfold served in Hserved. now rewrite Hp in Hserved.
Qed.

Lemma X20_waitForPayment_learns_outcome_witness :
  In (7%nat, true)
     (observed
        (eager_session example_order_only "alice" "pkA" "o1" (30 * UCT) "e1"
           1001 7 example_early_transfer [Timeout 0])).
Proof.
  assert (H : promises
                (eager_session example_order_only "alice" "pkA" "o1"
                   (30 * UCT) "e1" 1001 7 example_early_transfer [Timeout 0])
                !! length (promises example_order_only)
              = Some (mkPromise (Some true) []))
    by (vm_compute; reflexivity).
  apply (proj2 (X20_waitForPayment_learns_outcome example_order_only "alice"
                  "pkA" "o1" (30 * UCT) "e1" 1001 7 example_early_transfer
                  [Timeout 0]
                  (run_well_formed _ _ (init_well_formed example_config)))
           true [] H).
Defined.
